(** * largefiles.py: scanner, size formatter and tree renderers

    A shallow embedding of [src/largefiles.py].  Python integers are [Z];
    Python floats (and the numpy float64 scalars the renderers obtain from
    [np.average] and [np.var]) are IEEE 754 binary64 values, carried by the
    Standard Library's [spec_float] and computed here by correct rounding
    (round to nearest, ties to even) of the exact result.  Exceptions are
    values of [exn]; code that can raise returns a [res]. *)

From Stdlib Require Import ZArith List String Ascii Bool Lia Permutation Sorted.
From Stdlib Require Import SpecFloat DecimalString.
Import ListNotations.

Local Open Scope string_scope.
Local Open Scope Z_scope.
Local Set Warnings "-register-all".

(** ** Exceptions and results *)

Inductive exn : Type :=
| OSError (msg : string)
| TypeError (msg : string)
| OverflowError (msg : string)
| ZeroDivisionError (msg : string)
| ValueError (msg : string).

Inductive res (A : Type) : Type :=
| Ok (a : A)
| Raise (e : exn).

Arguments Ok {A} a.
Arguments Raise {A} e.

Definition res_bind {A B : Type} (r : res A) (k : A -> res B) : res B :=
  match r with
  | Ok a => k a
  | Raise e => Raise e
  end.

Notation "x <- r ;; k" := (res_bind r (fun x => k))
  (at level 61, r at next level, right associativity).

(** ** Binary64 arithmetic by correct rounding *)

Module PyFloat.

(** [ilog2_ratio a b] is [floor (log2 (a / b))] for positive [a] and [b]. *)
Definition ilog2_ratio (a b : Z) : Z :=
  let l := Z.log2 a - Z.log2 b in
  if b * 2 ^ Z.max 0 l <=? a * 2 ^ Z.max 0 (- l) then l else l - 1.

(** Integer quotient of [n / d] rounded to nearest, ties to even. *)
Definition div_rne (n d : Z) : Z :=
  let q := n / d in
  match 2 * (n mod d) ?= d with
  | Lt => q
  | Gt => q + 1
  | Eq => if Z.even q then q else q + 1
  end.

(** The binary64 value nearest to [a / b] ([a], [b] positive), with sign [s]:
    53 bits of mantissa, exponents from -1074 (subnormals) to 971. *)
Definition round_pos (s : bool) (a b : Z) : spec_float :=
  let e := Z.max (ilog2_ratio a b - 52) (-1074) in
  let m := div_rne (a * 2 ^ Z.max 0 (- e)) (b * 2 ^ Z.max 0 e) in
  let e' := if m =? 2 ^ 53 then e + 1 else e in
  let m' := if m =? 2 ^ 53 then 2 ^ 52 else m in
  match m' with
  | Zpos p => if e' <=? 971 then S754_finite s p e' else S754_infinity s
  | _ => S754_zero s
  end.

Definition round_ratio (a b : Z) : spec_float :=
  match a with
  | Z0 => S754_zero false
  | Zpos _ => round_pos false a b
  | Zneg _ => round_pos true (- a) b
  end.

(** The value nearest to [m * 2 ^ e]. *)
Definition round_dyadic (m e : Z) : spec_float :=
  round_ratio (m * 2 ^ Z.max 0 e) (2 ^ Z.max 0 (- e)).

Definition of_Z (n : Z) : spec_float := round_ratio n 1.

Definition signedm (s : bool) (m : positive) : Z :=
  if s then Zneg m else Zpos m.

Definition is_nan (x : spec_float) : bool :=
  match x with S754_nan => true | _ => false end.

Definition sign_of (x : spec_float) : bool :=
  match x with
  | S754_zero s | S754_infinity s | S754_finite s _ _ => s
  | S754_nan => false
  end.

Definition fmul (x y : spec_float) : spec_float :=
  match x, y with
  | S754_nan, _ | _, S754_nan => S754_nan
  | S754_infinity _, S754_zero _ | S754_zero _, S754_infinity _ => S754_nan
  | S754_infinity sx, _ => S754_infinity (xorb sx (sign_of y))
  | _, S754_infinity sy => S754_infinity (xorb (sign_of x) sy)
  | S754_zero sx, _ => S754_zero (xorb sx (sign_of y))
  | _, S754_zero sy => S754_zero (xorb (sign_of x) sy)
  | S754_finite sx mx ex, S754_finite sy my ey =>
      let e := ex + ey in
      round_pos (xorb sx sy)
        (Zpos (mx * my) * 2 ^ Z.max 0 e) (2 ^ Z.max 0 (- e))
  end.

Definition fdiv (x y : spec_float) : spec_float :=
  match x, y with
  | S754_nan, _ | _, S754_nan => S754_nan
  | S754_infinity _, S754_infinity _ | S754_zero _, S754_zero _ => S754_nan
  | S754_infinity sx, _ => S754_infinity (xorb sx (sign_of y))
  | _, S754_infinity sy => S754_zero (xorb (sign_of x) sy)
  | _, S754_zero sy => S754_infinity (xorb (sign_of x) sy)
  | S754_zero sx, _ => S754_zero (xorb sx (sign_of y))
  | S754_finite sx mx ex, S754_finite sy my ey =>
      round_pos (xorb sx sy)
        (Zpos mx * 2 ^ Z.max 0 (ex - ey)) (Zpos my * 2 ^ Z.max 0 (ey - ex))
  end.

Definition fopp (x : spec_float) : spec_float :=
  match x with
  | S754_nan => S754_nan
  | S754_zero s => S754_zero (negb s)
  | S754_infinity s => S754_infinity (negb s)
  | S754_finite s m e => S754_finite (negb s) m e
  end.

Definition fadd (x y : spec_float) : spec_float :=
  match x, y with
  | S754_nan, _ | _, S754_nan => S754_nan
  | S754_infinity sx, S754_infinity sy =>
      if Bool.eqb sx sy then x else S754_nan
  | S754_infinity _, _ => x
  | _, S754_infinity _ => y
  | S754_zero sx, S754_zero sy => S754_zero (andb sx sy)
  | S754_zero _, _ => y
  | _, S754_zero _ => x
  | S754_finite sx mx ex, S754_finite sy my ey =>
      let e := Z.min ex ey in
      round_dyadic (signedm sx mx * 2 ^ (ex - e) + signedm sy my * 2 ^ (ey - e)) e
  end.

Definition fsub (x y : spec_float) : spec_float := fadd x (fopp y).

(** Square root: the integer root of the mantissa scaled by at least 120
    bits, with a sticky half unit when the root is inexact. *)
Definition fsqrt (x : spec_float) : spec_float :=
  match x with
  | S754_nan => S754_nan
  | S754_zero s => S754_zero s
  | S754_infinity false => x
  | S754_infinity true => S754_nan
  | S754_finite true _ _ => S754_nan
  | S754_finite false m e =>
      let k := if Z.even e then 120 else 121 in
      let M := Zpos m * 2 ^ k in
      let t := (e - k) / 2 in
      let r := Z.sqrt M in
      if r * r =? M then round_dyadic r t else round_dyadic (2 * r + 1) (t - 1)
  end.

End PyFloat.

(** ** Python numbers: [int] and [float] *)

Inductive num : Type :=
| Int (n : Z)
| Flt (x : spec_float).

(** Exact values, for Python's mixed comparisons: an [int] and a [float] are
    compared by value, without converting the [int]. *)
Inductive xval : Type :=
| XNaN
| XNegInf
| XPosInf
| XDy (m e : Z).

Definition xval_of (x : num) : xval :=
  match x with
  | Int n => XDy n 0
  | Flt S754_nan => XNaN
  | Flt (S754_zero _) => XDy 0 0
  | Flt (S754_infinity s) => if s then XNegInf else XPosInf
  | Flt (S754_finite s m e) => XDy (PyFloat.signedm s m) e
  end.

Definition xcompare (a b : xval) : option comparison :=
  match a, b with
  | XNaN, _ | _, XNaN => None
  | XNegInf, XNegInf | XPosInf, XPosInf => Some Eq
  | XNegInf, _ | _, XPosInf => Some Lt
  | _, XNegInf | XPosInf, _ => Some Gt
  | XDy m1 e1, XDy m2 e2 =>
      let e := Z.min e1 e2 in
      Some (m1 * 2 ^ (e1 - e) ?= m2 * 2 ^ (e2 - e))
  end.

Definition py_lt (x y : num) : bool :=
  match xcompare (xval_of x) (xval_of y) with
  | Some Lt => true
  | _ => false
  end.

Definition py_ge (x y : num) : bool :=
  match xcompare (xval_of x) (xval_of y) with
  | Some Gt | Some Eq => true
  | _ => false
  end.

Definition is_inf (x : spec_float) : bool :=
  match x with S754_infinity _ => true | _ => false end.

Definition is_zero (x : spec_float) : bool :=
  match x with S754_zero _ => true | _ => false end.

(** [float(n)] *)
Definition to_float (x : num) : res spec_float :=
  match x with
  | Flt f => Ok f
  | Int n =>
      let f := PyFloat.of_Z n in
      if is_inf f then Raise (OverflowError "int too large to convert to float")
      else Ok f
  end.

(** [x * y] *)
Definition py_mul (x y : num) : res num :=
  match x, y with
  | Int a, Int b => Ok (Int (a * b))
  | _, _ =>
      fx <- to_float x ;;
      fy <- to_float y ;;
      Ok (Flt (PyFloat.fmul fx fy))
  end.

(** [x / y]: the quotient of two [int]s is the float nearest to the exact
    quotient. *)
Definition py_truediv (x y : num) : res num :=
  match x, y with
  | Int a, Int b =>
      if b =? 0 then Raise (ZeroDivisionError "division by zero")
      else
        let f := if a =? 0 then S754_zero (b <? 0)
                 else PyFloat.round_ratio (a * Z.sgn b) (Z.abs b) in
        if is_inf f
        then Raise (OverflowError "integer division result too large for a float")
        else Ok (Flt f)
  | _, _ =>
      fx <- to_float x ;;
      fy <- to_float y ;;
      if is_zero fy then Raise (ZeroDivisionError "float division by zero")
      else Ok (Flt (PyFloat.fdiv fx fy))
  end.

(** ** ['{:.4g}'.format] *)

Definition string_of_Z (z : Z) : string :=
  NilZero.string_of_int (Z.to_int z).

Fixpoint rstrip0 (s : string) : string :=
  match s with
  | EmptyString => EmptyString
  | String c s' =>
      match rstrip0 s' with
      | EmptyString => if Ascii.eqb c "0" then EmptyString else String c EmptyString
      | r => String c r
      end
  end.

Fixpoint zeros (n : nat) : string :=
  match n with
  | O => EmptyString
  | S n' => String "0" (zeros n')
  end.

Definition with_point (ip fp : string) : string :=
  match fp with
  | EmptyString => ip
  | _ => ip ++ "." ++ fp
  end.

Fixpoint log10_up (fuel : nat) (a b X : Z) : Z :=
  match fuel with
  | O => X
  | S f => if b * 10 <=? a then log10_up f a (b * 10) (X + 1) else X
  end.

Fixpoint log10_down (fuel : nat) (a b X : Z) : Z :=
  match fuel with
  | O => X
  | S f => if b <=? a then X else log10_down f (a * 10) b (X - 1)
  end.

(** [floor (log10 (a / b))] for positive [a] and [b]. *)
Definition ilog10_ratio (a b : Z) : Z :=
  let fuel := Z.to_nat (Z.log2 a + Z.log2 b + 2) in
  if b <=? a then log10_up fuel a b 0 else log10_down fuel a b 0.

(** Four significant digits of [a / b], in the style of C's [%.4g]: fixed
    notation when the decimal exponent is in [-4, 4), scientific otherwise,
    trailing zeros removed. *)
Definition fmt_pos (a b : Z) : string :=
  let X0 := ilog10_ratio a b in
  let d0 := if X0 <=? 3 then PyFloat.div_rne (a * 10 ^ (3 - X0)) b
            else PyFloat.div_rne a (b * 10 ^ (X0 - 3)) in
  let X := if d0 =? 10000 then X0 + 1 else X0 in
  let d := if d0 =? 10000 then 1000 else d0 in
  let ds := string_of_Z d in
  if (-4 <=? X) && (X <? 4) then
    if 0 <=? X then
      with_point (substring 0 (Z.to_nat (X + 1)) ds)
                 (rstrip0 (substring (Z.to_nat (X + 1)) (Z.to_nat (3 - X)) ds))
    else "0." ++ zeros (Z.to_nat (- X - 1)) ++ rstrip0 ds
  else
    with_point (substring 0 1 ds) (rstrip0 (substring 1 3 ds))
      ++ "e" ++ (if X <? 0 then "-" else "+")
      ++ (if Z.abs X <? 10 then "0" else "") ++ string_of_Z (Z.abs X).

Definition fmt_float (x : spec_float) : string :=
  match x with
  | S754_nan => "nan"
  | S754_infinity s => if s then "-inf" else "inf"
  | S754_zero s => if s then "-0" else "0"
  | S754_finite s m e =>
      (if s then "-" else "")
        ++ fmt_pos (Zpos m * 2 ^ Z.max 0 e) (2 ^ Z.max 0 (- e))
  end.

(** An [int] is converted to [float] before it is formatted. *)
Definition fmt_g4 (x : num) : res string :=
  f <- to_float x ;; Ok (fmt_float f).

(** ** [format_size] *)

Definition units : list string :=
  ["B"; "KiB"; "MiB"; "GiB"; "TiB"; "PiB"; "EiB"; "ZiB"].

Fixpoint format_size_loop (us : list string) (size : num) : res string :=
  match us with
  | [] => s <- fmt_g4 size ;; Ok (s ++ "YiB")
  | unit :: us' =>
      if py_lt size (Int 1024) then s <- fmt_g4 size ;; Ok (s ++ unit)
      else size' <- py_truediv size (Int 1024) ;; format_size_loop us' size'
  end.

Definition format_size (size : num) : res string :=
  format_size_loop units size.

(** ** State and exceptions

    Code that writes to a sink (the [file] of [print], an [io.StringIO]
    builder) or advances a counter, and that can raise, is a state
    transformer: what was written before an exception stays written. *)

Definition M (S A : Type) : Type := S -> res A * S.

Definition st_ret {S A : Type} (a : A) : M S A := fun s => (Ok a, s).

Definition st_bind {S A B : Type} (m : M S A) (k : A -> M S B) : M S B :=
  fun s =>
    match m s with
    | (Ok a, s') => k a s'
    | (Raise e, s') => (Raise e, s')
    end.

Definition lift {S A : Type} (r : res A) : M S A := fun s => (r, s).

Notation "x <~ m ;; k" := (st_bind m (fun x => k))
  (at level 61, m at next level, right associativity).
Notation "m ;> k" := (st_bind m (fun _ => k))
  (at level 61, right associativity).

(** ** Characters and strings *)

Definition nl : string := String (ascii_of_nat 10) EmptyString.
Definition cr : string := String (ascii_of_nat 13) EmptyString.
Definition dq : string := String (ascii_of_nat 34) EmptyString.

Fixpoint replace_char (c : ascii) (by_ : string) (s : string) : string :=
  match s with
  | EmptyString => EmptyString
  | String x s' =>
      (if Ascii.eqb x c then by_ else String x EmptyString)
        ++ replace_char c by_ s'
  end.

(** Source text with double quotes: a backquote in the literal stands for
    the double quote of the Python literal. *)
Definition q (s : string) : string := replace_char "`" dq s.

Fixpoint str_mul (s : string) (n : nat) : string :=
  match n with
  | O => EmptyString
  | S n' => s ++ str_mul s n'
  end.

(** [html.escape(s)] with [quote=True] *)
Definition html_escape (s : string) : string :=
  let s := replace_char "&" "&amp;" s in
  let s := replace_char "<" "&lt;" s in
  let s := replace_char ">" "&gt;" s in
  let s := replace_char (ascii_of_nat 34) "&quot;" s in
  let s := replace_char "'" "&#x27;" s in
  s.

(** ** The tree of scanned entries *)

Inductive node : Type :=
| File (name : string) (size : Z)
| Directory (name : string) (size : Z) (content : list node).

Definition node_name (n : node) : string :=
  match n with
  | File name _ | Directory name _ _ => name
  end.

Definition node_size (n : node) : Z :=
  match n with
  | File _ size | Directory _ size _ => size
  end.

Definition node_content (n : node) : list node :=
  match n with
  | File _ _ => []
  | Directory _ _ content => content
  end.

(** ** [sorted(..., key=..., reverse=True)]: stable, descending *)

Fixpoint insert_desc {A : Type} (key : A -> Z) (x : A) (l : list A) : list A :=
  match l with
  | [] => [x]
  | y :: l' => if key x <? key y then y :: insert_desc key x l' else x :: l
  end.

Definition sorted_desc {A : Type} (key : A -> Z) (l : list A) : list A :=
  fold_right (insert_desc key) [] l.

(** ** numpy and math *)

(** [sum(others)] on Python ints *)
Definition sum_Z (l : list Z) : Z := fold_left Z.add l 0.

(** The inner loop of numpy's [add.reduce] on float64 is its pairwise
    summation: fewer than 8 elements are added from left to right; up to
    128 elements go through eight accumulators, each taking every eighth
    element, which are then added in pairs, and what is left after the last
    group of eight is added one by one; more elements are split near the
    middle, at a multiple of 8, and the two sums are added. *)
Section PairwiseSum.

Context {A : Type} (add : A -> A -> A) (zero : A).

(** [r[j] += a[i + j]] for each accumulator *)
Fixpoint add_each (r a : list A) : list A :=
  match r, a with
  | x :: r', y :: a' => add x y :: add_each r' a'
  | _, _ => r
  end.

(** [((r[0] + r[1]) + (r[2] + r[3])) + ((r[4] + r[5]) + (r[6] + r[7]))] *)
Definition add_accumulators (r : list A) : A :=
  match r with
  | [r0; r1; r2; r3; r4; r5; r6; r7] =>
      add (add (add r0 r1) (add r2 r3)) (add (add r4 r5) (add r6 r7))
  | _ => zero
  end.

(** The unrolled loop over [groups] further groups of eight elements, then
    the accumulators are added and the rest is added one by one. *)
Fixpoint unrolled (groups : nat) (r a : list A) : A :=
  match groups with
  | O => fold_left add a (add_accumulators r)
  | S g => unrolled g (add_each r (firstn 8 a)) (skipn 8 a)
  end.

(** [fuel] bounds the depth of the halving; the length of [a] is enough. *)
Fixpoint pairwise_sum (fuel : nat) (a : list A) : A :=
  let n := List.length a in
  if (n <? 8)%nat then fold_left add a zero
  else if (n <=? 128)%nat
  then unrolled (n / 8 - 1) (firstn 8 a) (skipn 8 a)
  else
    match fuel with
    | O => zero
    | S fuel' =>
        let n2 := (n / 2 - (n / 2) mod 8)%nat in
        add (pairwise_sum fuel' (firstn n2 a)) (pairwise_sum fuel' (skipn n2 a))
    end.

End PairwiseSum.

(** The number of elements the iterator of a reduction hands to the inner
    loop at a time when the elements have to be converted first
    ([np.getbufsize()]). *)
Definition bufsize : nat := Z.to_nat 8192.

Fixpoint buffers {A : Type} (fuel : nat) (a : list A) : list (list A) :=
  match a, fuel with
  | [], _ => []
  | _, O => [a]
  | _, S fuel' => firstn bufsize a :: buffers fuel' (skipn bufsize a)
  end.

(** [np.add.reduce] on float64: the result starts as 0 and the pairwise sum
    of each run of elements the inner loop is given is added to it.  The
    whole array is one run unless the elements are converted on the way
    ([buffered]). *)
Definition add_reduce (buffered : bool) (a : list spec_float) : spec_float :=
  fold_left
    (fun out run =>
       PyFloat.fadd out
         (pairwise_sum PyFloat.fadd (S754_zero false) (List.length run) run))
    (if buffered then buffers (List.length a) a else [a])
    (S754_zero false).

(** The element type of the array numpy makes of a list of Python ints.
    Each int is given the signed 64-bit type when it fits, the unsigned one
    when it fits that, and is a Python object otherwise; the array has the
    type all its elements promote to, which for signed and unsigned
    together is float64.  An array without elements is float64. *)
Inductive dtype : Type := int64 | uint64 | float64 | object.

Definition array_dtype (a : list Z) : dtype :=
  match a with
  | [] => float64
  | _ :: _ =>
      if forallb (fun v => (- 2 ^ 63 <=? v) && (v <? 2 ^ 63)) a then int64
      else if forallb (fun v => (2 ^ 63 <=? v) && (v <? 2 ^ 64)) a then uint64
      else if forallb (fun v => (- 2 ^ 63 <=? v) && (v <? 2 ^ 64)) a
      then float64
      else object
  end.

(** [umr_sum(arr, axis, dtype('f8'))] for the integer arrays, where the
    elements are converted to float64 through the buffer, and
    [umr_sum(arr, axis, None)] for the float64 array. *)
Definition sum_f8 (a : list Z) : spec_float :=
  add_reduce (match array_dtype a with float64 => false | _ => true end)
    (map PyFloat.of_Z a).

(** [arr.mean()]: the float64 sum divided by the number of elements; on
    objects, the [int] sum divided by that number as Python divides. *)
Definition mean (a : list Z) : res spec_float :=
  match array_dtype a with
  | object =>
      r <- py_truediv (Int (sum_Z a)) (Int (Z.of_nat (List.length a))) ;;
      to_float r
  | _ =>
      Ok (PyFloat.fdiv (sum_f8 a) (PyFloat.of_Z (Z.of_nat (List.length a))))
  end.

(** [np.average(a)] without weights is [a.mean()]. *)
Definition np_average (a : list Z) : res spec_float := mean a.

Fixpoint map_res {A B : Type} (f : A -> res B) (l : list A) : res (list B) :=
  match l with
  | [] => Ok []
  | x :: l' => y <- f x ;; ys <- map_res f l' ;; Ok (y :: ys)
  end.

(** [np.var(a)]: the mean of the squared deviations from the mean, with no
    degrees-of-freedom correction.  The deviations of an integer array are
    taken from the elements converted to float64, and the squares, a
    float64 array, are summed in one run.  On objects each deviation is
    Python's [int - float], and the squares, Python floats, are added from
    left to right starting from the first. *)
Definition np_var (a : list Z) : res spec_float :=
  let rcount := PyFloat.of_Z (Z.of_nat (List.length a)) in
  arrmean <- mean a ;;
  match array_dtype a with
  | object =>
      x <- map_res (fun v => f <- to_float (Int v) ;;
                             Ok (PyFloat.fsub f arrmean)) a ;;
      let x := map (fun d => PyFloat.fmul d d) x in
      let ret := match x with
                 | [] => S754_zero false
                 | x0 :: x' => fold_left PyFloat.fadd x' x0
                 end in
      Ok (PyFloat.fdiv ret rcount)
  | _ =>
      let x := map (fun v => PyFloat.fsub (PyFloat.of_Z v) arrmean) a in
      let x := map (fun d => PyFloat.fmul d d) x in
      Ok (PyFloat.fdiv (add_reduce false x) rcount)
  end.

Definition math_sqrt (x : spec_float) : res spec_float :=
  match x with
  | S754_finite true _ _ | S754_infinity true =>
      Raise (ValueError "math domain error")
  | _ => Ok (PyFloat.fsqrt x)
  end.

(** ** Plain-text renderer *)

(** [print(s, file=file)] *)
Definition print (s : string) : M string unit :=
  fun file => (Ok tt, (file ++ s ++ nl)%string).

(** [min_size = path.size * threshold / len(result)] *)
Definition min_size_of (size : Z) (threshold : num) (n : nat) : res num :=
  x <- py_mul (Int size) threshold ;; py_truediv x (Int (Z.of_nat n)).

(** The loop over the sorted children: a child at least [min_size] large is
    rendered, the size of any other is appended to [others]. *)
Fixpoint for_subpaths {S : Type} (render : node -> M S unit) (min_size : num)
    (result : list node) (others : list Z) : M S (list Z) :=
  match result with
  | [] => st_ret others
  | subpath :: rest =>
      if py_ge (Int (node_size subpath)) min_size
      then render subpath ;> for_subpaths render min_size rest others
      else for_subpaths render min_size rest (others ++ [node_size subpath])
  end.

(** The same loop over children paired with their rendering, which is how
    the recursive renderers below reach the children of a node. *)
Fixpoint for_children {S : Type} (min_size : num)
    (result : list (Z * M S unit)) (others : list Z) : M S (list Z) :=
  match result with
  | [] => st_ret others
  | (sz, render) :: rest =>
      if py_ge (Int sz) min_size
      then render ;> for_children min_size rest others
      else for_children min_size rest (others ++ [sz])
  end.

(** The four figures of the others summary, in the order the format call
    evaluates them. *)
Definition others_stats (others : list Z) : res (string * Z * string * string) :=
  total <- format_size (Int (sum_Z others)) ;;
  a <- np_average others ;;
  avg <- format_size (Flt a) ;;
  v <- np_var others ;;
  sd <- math_sqrt v ;;
  stddev <- format_size (Flt sd) ;;
  Ok (total, Z.of_nat (List.length others), avg, stddev).

Definition others_line (level_str : string) (others : list Z) : res string :=
  st <- others_stats others ;;
  let '(total, num_, avg, stddev) := st in
  Ok (level_str ++ "|+ " ++ total ++ " (" ++ string_of_Z num_
        ++ " others) avg=" ++ avg ++ " stddev=" ++ stddev)%string.

Definition tree_header (path : node) (level_str : string) : res string :=
  fs <- format_size (Int (node_size path)) ;;
  Ok (level_str ++ "+ " ++ fs ++ " " ++ node_name path)%string.

Fixpoint print_tree (path : node) (threshold : num) (level : nat)
    {struct path} : M string unit :=
  let level_str := str_mul "|" level in
  line <~ lift (tree_header path level_str) ;;
  print line ;>
  match path with
  | File _ _ => st_ret tt
  | Directory _ size content =>
      let result :=
        sorted_desc fst
          (map (fun sub => (node_size sub, print_tree sub threshold (S level)))
               content) in
      match result with
      | [] => print (level_str ++ "  (empty)")
      | _ :: _ =>
          min_size <~ lift (min_size_of size threshold (List.length result)) ;;
          others <~ for_children min_size result [] ;;
          match others with
          | [] => st_ret tt
          | _ :: _ => line <~ lift (others_line level_str others) ;; print line
          end
      end
  end.

(** ** Document renderer *)

(** One [builder.write] call of the document renderer: which of the six
    format strings it used and the values that went into it ([name] and the
    size figures already passed through [html.escape]). *)
Inductive chunk : Type :=
| FolderOpen (level_str : string)
| FolderLabel (level_str : string) (id : nat) (name size : string)
| EmptyDiv (level_str : string)
| OthersDiv (level_str size : string) (num_ : Z) (avg stddev : string)
| FolderClose (level_str : string)
| FileDiv (level_str size name : string).

Definition string_of_nat (n : nat) : string := string_of_Z (Z.of_nat n).

(** The text a [chunk] puts into the [io.StringIO]. *)
Definition chunk_text (c : chunk) : string :=
  match c with
  | FolderOpen level_str =>
      level_str ++ q "<div class=`folder`>" ++ nl
  | FolderLabel level_str id name size =>
      level_str ++ q " <input type=`checkbox` class=`folder-check` id=`"
        ++ string_of_nat id ++ q "`><label for=`" ++ string_of_nat id
        ++ q "` class=`folder-name`><span class=`size`>(" ++ size
        ++ ")</span> " ++ name ++ "</label>" ++ nl
  | EmptyDiv level_str =>
      level_str ++ q " <div class=`others`>(empty)</div>" ++ nl
  | OthersDiv level_str size num_ avg stddev =>
      level_str ++ q " <div class=`others`><span class=`size`>(" ++ size
        ++ ")</span> (" ++ string_of_Z num_ ++ " others avg=" ++ avg
        ++ " stddev=" ++ stddev ++ ")</div>" ++ nl
  | FolderClose level_str =>
      level_str ++ "</div>" ++ nl
  | FileDiv level_str size name =>
      level_str ++ q "<div class=`file`><span class=`size`>(" ++ size
        ++ q ")</span> <span class=`file-name`>" ++ name
        ++ "</span></div>" ++ nl
  end.

Record hstate : Type := mk_hstate {
  counter : nat;          (* next value of the [itertools.count()] *)
  builder : list chunk    (* what was written to the [io.StringIO], in order *)
}.

(** [builder.getvalue()] *)
Definition getvalue (b : list chunk) : string :=
  fold_right (fun c acc => chunk_text c ++ acc)%string EmptyString b.

(** [counter.__next__()] *)
Definition counter_next : M hstate nat :=
  fun st => (Ok (counter st), mk_hstate (S (counter st)) (builder st)).

(** [builder.write(...)] *)
Definition builder_write (c : chunk) : M hstate unit :=
  fun st => (Ok tt, mk_hstate (counter st) (builder st ++ [c])%list).

Definition others_div (level_str : string) (others : list Z) : res chunk :=
  st <- others_stats others ;;
  let '(total, num_, avg, stddev) := st in
  Ok (OthersDiv level_str (html_escape total) num_ (html_escape avg)
        (html_escape stddev)).

Fixpoint print_html_tree_elements (path : node) (threshold : num) (level : nat)
    {struct path} : M hstate unit :=
  let level_str := str_mul " " level in
  match path with
  | Directory name size content =>
      builder_write (FolderOpen level_str) ;>
      id <~ counter_next ;;
      fs <~ lift (format_size (Int size)) ;;
      builder_write (FolderLabel level_str id (html_escape name) (html_escape fs)) ;>
      let result :=
        sorted_desc fst
          (map (fun sub =>
                  (node_size sub, print_html_tree_elements sub threshold (S level)))
               content) in
      min_size <~ match result with
                  | [] => builder_write (EmptyDiv level_str) ;> st_ret (Int 0)
                  | _ :: _ => lift (min_size_of size threshold (List.length result))
                  end ;;
      others <~ for_children min_size result [] ;;
      match others with
      | [] => st_ret tt
      | _ :: _ => line <~ lift (others_div level_str others) ;; builder_write line
      end ;>
      builder_write (FolderClose level_str)
  | File name size =>
      fs <~ lift (format_size (Int size)) ;;
      builder_write (FileDiv level_str (html_escape fs) (html_escape name))
  end.

Definition lines (l : list string) : string :=
  fold_right (fun s acc => s ++ nl ++ acc)%string EmptyString l.

Definition html_template_head : string :=
  lines [
    "<!DOCTYPE html>";
    "<html>";
    "<head>";
    "<title>Large file report</title>";
    "<style>";
    ".folder, .file {";
    q "  font-family: `Consolas`, `Courier New`, `Courier`, monospace;";
    "  font-weight: bold;";
    "  font-size: 14px;";
    "}";
    ".folder-check {";
    "  display: none;";
    "}";
    ".folder-check ~ div {";
    "  display: none;";
    "  padding-left: 1em;";
    "}";
    ".folder-check:checked ~ div {";
    "  display: block;";
    "}";
    ".folder-name {";
    "  color: #009;";
    "}";
    ".file-name {";
    "  color: #090;";
    "}";
    ".size {";
    "  color: #960;";
    "}";
    ".others {";
    "  color: #666;";
    "  font-weight: normal;";
    "}";
    "</style>";
    "</head>";
    "<body>" ].

Definition html_template_tail : string :=
  nl ++ "</body>" ++ nl ++ "</html>".

(** [html_template % content] *)
Definition html_template (content : string) : string :=
  html_template_head ++ content ++ html_template_tail.

(** The module's state as far as rendering goes: the [itertools.count()]
    that is the default value of [counter], created once when the function
    is defined, and the file the document is printed to. *)
Record rstate : Type := mk_rstate {
  default_counter : nat;
  file : string
}.

(** [print_html_tree]: a new [io.StringIO()] is passed as [builder];
    [counter] is left to its default. *)
Definition print_html_tree (path : node) (threshold : num) (level : nat)
  : M rstate unit :=
  fun g =>
    match print_html_tree_elements path threshold level
            (mk_hstate (default_counter g) []) with
    | (Ok _, st) =>
        (Ok tt, mk_rstate (counter st)
                  (file g ++ html_template (getvalue (builder st)) ++ nl))
    | (Raise e, st) => (Raise e, mk_rstate (counter st) (file g))
    end.

(** ** The file system as the scanner sees it *)

(** The result of a query that can fail with an [OSError]. *)
Inductive fsres (A : Type) : Type :=
| FsOk (a : A)
| FsErr (msg : string).

Arguments FsOk {A} a.
Arguments FsErr {A} msg.

Record stat_result : Type := mk_stat {
  st_size : Z;
  st_ino : Z
}.

(** What [pathlib] answers for one path: [str(path)], [path.name],
    [is_symlink()], [is_dir()], [lstat()], [stat()] and [iterdir()]. *)
Inductive entry : Type :=
| Entry (path_str name : string)
        (is_symlink is_dir : fsres bool)
        (lstat stat : fsres stat_result)
        (iterdir : fsres (list entry)).

Definition e_path (e : entry) : string :=
  match e with Entry p _ _ _ _ _ _ => p end.
Definition e_name (e : entry) : string :=
  match e with Entry _ n _ _ _ _ _ => n end.
Definition e_is_symlink (e : entry) : fsres bool :=
  match e with Entry _ _ b _ _ _ _ => b end.
Definition e_is_dir (e : entry) : fsres bool :=
  match e with Entry _ _ _ b _ _ _ => b end.
Definition e_lstat (e : entry) : fsres stat_result :=
  match e with Entry _ _ _ _ s _ _ => s end.
Definition e_stat (e : entry) : fsres stat_result :=
  match e with Entry _ _ _ _ _ s _ => s end.
Definition e_iterdir (e : entry) : fsres (list entry) :=
  match e with Entry _ _ _ _ _ _ l => l end.

(** ** The scanner *)

Definition report_every : Z := 5000.

(** The module's globals, the records of [logging.error] and the progress
    lines printed. *)
Record globals : Type := mk_globals {
  scanned : Z;
  next_report_num : Z;
  log : list string;
  stdout : list string
}.

Definition logging_error (msg : string) (g : globals) : globals :=
  mk_globals (scanned g) (next_report_num g) (log g ++ [msg])%list (stdout g).

Definition incr_scanned (g : globals) : globals :=
  mk_globals (scanned g + 1) (next_report_num g) (log g) (stdout g).

Definition report_progress (path : string) (g : globals) : globals :=
  if next_report_num g <? scanned g then
    mk_globals (scanned g) (next_report_num g + report_every) (log g)
      (stdout g ++ [(string_of_Z (scanned g) ++ " Scanning " ++ path ++ " ..." ++ cr)%string])%list
  else g.

(** [File(path)] *)
Definition File_init (e : entry) (g : globals) : node * globals :=
  match e_lstat e with
  | FsOk st => (File (e_name e) (st_size st), incr_scanned g)
  | FsErr ex => (File (e_name e) 0, incr_scanned (logging_error ex g))
  end.

(** How the [try] block of [Directory.__init__] ends: by its [return], by
    running to its end, or in the [except OSError] handler.  The children
    appended to [self.content] so far are kept in each case. *)
Inductive try_end : Type :=
| Returned
| Completed (size : Z)
| Caught (ex : string).

(** The body of [for path in self._obj.iterdir()], over the entries still to
    come, with [self.content] and [size] as they stand. *)
Definition iter_body (scan : entry -> globals -> node * globals) :=
  fix loop (l : list entry) (content : list node) (size : Z) (g : globals)
      {struct l} : list node * try_end * globals :=
    match l with
    | [] => (content, Completed size, g)
    | path :: rest =>
        match e_is_symlink path with
        | FsErr ex => (content, Caught ex, g)
        | FsOk true =>
            match e_lstat path with
            | FsErr ex => (content, Caught ex, g)
            | FsOk st => loop rest content (size + st_size st) g
            end
        | FsOk false =>
            match e_is_dir path with
            | FsErr ex => (content, Caught ex, g)
            | FsOk true =>
                let '(obj, g') := scan path g in
                loop rest (content ++ [obj])%list (size + node_size obj) g'
            | FsOk false =>
                let '(obj, g') := File_init path g in
                loop rest (content ++ [obj])%list (size + node_size obj) g'
            end
        end
    end.

(** [Directory(path)] for a [path] that is already a [pathlib.Path]. *)
Fixpoint Directory_scan (e : entry) (g : globals) {struct e}
  : node * globals :=
  match e with
  | Entry path_str name _ _ lstat stat iterdir =>
      let g := report_progress path_str g in
      let '(content, how, g) :=
        match lstat with
        | FsErr ex => ([], Caught ex, g)
        | FsOk st_result =>
            match stat with
            | FsErr ex => ([], Caught ex, g)
            | FsOk st_result2 =>
                if negb (st_ino st_result2 =? st_ino st_result)
                then ([], Returned, g)
                else
                  match iterdir with
                  | FsErr ex => ([], Caught ex, g)
                  | FsOk l => iter_body Directory_scan l [] (st_size st_result) g
                  end
            end
        end in
      match how with
      | Returned => (Directory name 0 content, g)
      | Completed size => (Directory name size content, incr_scanned g)
      | Caught ex => (Directory name 0 content, incr_scanned (logging_error ex g))
      end
  end.

(** Python values that can be passed as [path]. *)
Inductive pyobj : Type :=
| PyNone
| PyStr (s : string)
| PyPath (p : string)
| PyInt (n : Z)
| PyBool (b : bool)
| PyBytes (b : string).

(** [Directory._default]: the path, as the string that names it. *)
Definition Directory_default (dirname : pyobj) (name : string) : res string :=
  match dirname with
  | PyNone => Ok "."
  | PyStr s => Ok s
  | PyPath p => Ok p
  | _ => Raise (TypeError (name ++ " must be None, a str or a pathlib.Path"))
  end.

(** [Directory(path)], on a file system that answers for every path. *)
Definition Directory_init (fs : string -> entry) (path : pyobj)
  : M globals node :=
  fun g =>
    match Directory_default path "path" with
    | Raise e => (Raise e, g)
    | Ok p => let '(d, g') := Directory_scan (fs p) g in (Ok d, g')
    end.

(** The default [threshold=1.2]: the float nearest to 12/10. *)
Definition default_threshold : num := Flt (PyFloat.round_ratio 12 10).

(** ** Vocabulary of the properties *)

(** *** Scanner *)

(** The size [lstat] reports for the directory itself. *)
Definition own_size (e : entry) : Z :=
  match e_lstat e with
  | FsOk st => st_size st
  | FsErr _ => 0
  end.

(** The link-stat size of an entry that is a symlink, 0 for any other. *)
Definition link_size (p : entry) : Z :=
  match e_is_symlink p, e_lstat p with
  | FsOk true, FsOk st => st_size st
  | _, _ => 0
  end.

(** The link-stat sizes of the symlinks directly inside a directory. *)
Definition symlink_sizes (e : entry) : Z :=
  match e_iterdir e with
  | FsOk l => sum_Z (map link_size l)
  | FsErr _ => 0
  end.

Definition children_size (d : node) : Z :=
  sum_Z (map node_size (node_content d)).

(** Soft and dereferencing stat both answer and disagree on the inode. *)
Definition identity_mismatch (e : entry) : bool :=
  match e_lstat e, e_stat e with
  | FsOk st_result, FsOk st_result2 =>
      negb (st_ino st_result2 =? st_ino st_result)
  | _, _ => false
  end.

(** Both stats answer and agree on the inode. *)
Definition identity_ok (e : entry) : bool :=
  match e_lstat e, e_stat e with
  | FsOk st_result, FsOk st_result2 => st_ino st_result2 =? st_ino st_result
  | _, _ => false
  end.

(** No query the loop body makes about this entry fails. *)
Definition quiet (p : entry) : bool :=
  match e_is_symlink p with
  | FsErr _ => false
  | FsOk true => match e_lstat p with FsOk _ => true | FsErr _ => false end
  | FsOk false => match e_is_dir p with FsOk _ => true | FsErr _ => false end
  end.

(** The scan of this directory meets no [OSError] of its own: the stats
    agree, the listing succeeds and every listed entry answers.  (Errors
    inside subdirectories are theirs.) *)
Definition scan_clean (e : entry) : bool :=
  identity_ok e &&
  match e_iterdir e with
  | FsOk l => forallb quiet l
  | FsErr _ => false
  end.

Definition is_Directory (d : node) : bool :=
  match d with
  | Directory _ _ _ => true
  | File _ _ => false
  end.

(** [subnode d t]: [d] is [t] or lies somewhere below it. *)
Inductive subnode (d : node) : node -> Prop :=
| subnode_here : subnode d d
| subnode_below name size content c :
    In c content -> subnode d c -> subnode d (Directory name size content).

(** [sub_entry e' e]: [e'] is [e] or is listed somewhere below it. *)
Inductive sub_entry (e' : entry) : entry -> Prop :=
| sub_entry_here : sub_entry e' e'
| sub_entry_below e l p :
    e_iterdir e = FsOk l -> In p l -> sub_entry e' p -> sub_entry e' e.

(** The arguments [Directory._default] accepts. *)
Definition path_like (v : pyobj) : bool :=
  match v with
  | PyNone | PyStr _ | PyPath _ => true
  | _ => false
  end.

(** *** Sample file systems *)

(** An empty directory whose own link-stat size is 4096. *)
Definition fs_empty_dir : entry :=
  Entry "R" "R" (FsOk false) (FsOk true)
    (FsOk (mk_stat 4096 2)) (FsOk (mk_stat 4096 2)) (FsOk []).

Definition globals0 : globals := mk_globals 0 0 [] [].

(** A root with a file, a symlink and a subdirectory. *)
Definition fs_sample : entry :=
  Entry "R" "R" (FsOk false) (FsOk true)
    (FsOk (mk_stat 4096 2)) (FsOk (mk_stat 4096 2))
    (FsOk [ Entry "R/a" "a" (FsOk false) (FsOk false)
              (FsOk (mk_stat 1000 3)) (FsOk (mk_stat 1000 3)) (FsErr "ENOTDIR");
            Entry "R/l" "l" (FsOk true) (FsOk true)
              (FsOk (mk_stat 7 4)) (FsOk (mk_stat 4096 2)) (FsOk []);
            Entry "R/sub" "sub" (FsOk false) (FsOk true)
              (FsOk (mk_stat 4096 5)) (FsOk (mk_stat 4096 5))
              (FsOk [ Entry "R/sub/c" "c" (FsOk false) (FsOk false)
                        (FsOk (mk_stat 5 6)) (FsOk (mk_stat 5 6))
                        (FsErr "ENOTDIR") ]) ]).


(** A file system on which no path exists. *)
Definition fs_missing (p : string) : entry :=
  Entry p p (FsOk false) (FsOk false)
    (FsErr "ENOENT") (FsErr "ENOENT") (FsErr "ENOENT").

(** A file system on which every path is a regular file of 10 bytes. *)
Definition fs_regular_file (p : string) : entry :=
  Entry p p (FsOk false) (FsOk false)
    (FsOk (mk_stat 10 3)) (FsOk (mk_stat 10 3)) (FsErr "ENOTDIR").

(** A directory that cannot be listed. *)
Definition fs_locked_dir : entry :=
  Entry "R/locked" "locked" (FsOk false) (FsOk true)
    (FsOk (mk_stat 4096 9)) (FsOk (mk_stat 4096 9)) (FsErr "EACCES").

(** A junction: the soft stat and the dereferencing stat give different
    inodes; the target holds a very large file. *)
Definition fs_junction : entry :=
  Entry "R/j" "j" (FsOk false) (FsOk true)
    (FsOk (mk_stat 0 11)) (FsOk (mk_stat 4096 2))
    (FsOk [ Entry "R/j/big" "big" (FsOk false) (FsOk false)
              (FsOk (mk_stat (2 ^ 50) 12)) (FsOk (mk_stat (2 ^ 50) 12))
              (FsErr "ENOTDIR") ]).

(** *** Renderers *)

(** Rendering each node of a list in turn. *)
Fixpoint for_each {S : Type} (render : node -> M S unit) (l : list node)
  : M S unit :=
  match l with
  | [] => st_ret tt
  | x :: rest => render x ;> for_each render rest
  end.

(** The children that pass the admission test, largest first. *)
Definition shown (min_size : num) (content : list node) : list node :=
  filter (fun c => py_ge (Int (node_size c)) min_size)
         (sorted_desc node_size content).

(** The sizes of the children that fail it, largest first. *)
Definition deferred (min_size : num) (content : list node) : list Z :=
  map node_size
      (filter (fun c => negb (py_ge (Int (node_size c)) min_size))
              (sorted_desc node_size content)).

(** Descending by size. *)
Definition descending (l : list node) : Prop :=
  StronglySorted (fun a b => node_size b <= node_size a) l.

(** The identifiers of the toggle controls among the written chunks. *)
Definition toggle_ids (b : list chunk) : list nat :=
  flat_map (fun c => match c with
                     | FolderLabel _ id _ _ => [id]
                     | _ => []
                     end) b.

(** The file or directory name a chunk carries. *)
Definition chunk_name (c : chunk) : option string :=
  match c with
  | FolderLabel _ _ name _ | FileDiv _ _ name => Some name
  | _ => None
  end.

Fixpoint starts_with (p s : string) {struct p} : bool :=
  match p, s with
  | EmptyString, _ => true
  | String a p', String b s' => Ascii.eqb a b && starts_with p' s'
  | String _ _, EmptyString => false
  end.

(** No character of [s] is significant in markup: no [<], [>], double or
    single quote, and an ampersand only where it opens one of the five
    entities [html.escape] writes. *)
Fixpoint escaped_ok (s : string) : bool :=
  match s with
  | EmptyString => true
  | String c t =>
      if Ascii.eqb c "<" || Ascii.eqb c ">" || Ascii.eqb c (ascii_of_nat 34)
         || Ascii.eqb c "'"
      then false
      else if Ascii.eqb c "&"
      then (starts_with "amp;" t || starts_with "lt;" t || starts_with "gt;" t
            || starts_with "quot;" t || starts_with "#x27;" t)
           && escaped_ok t
      else escaped_ok t
  end.

(** Identifiers in increasing order, all within [lo, hi). *)
Definition ids_in (lo hi : nat) (ids : list nat) : Prop :=
  StronglySorted lt ids /\ Forall (fun i => lo <= i < hi)%nat ids.

(** A step of the document renderer only appends to the builder and only
    moves the counter forward; the toggles it writes carry increasing
    identifiers drawn from the counter in between, and every chunk it
    writes satisfies [Q].  This holds in whatever way the step ends. *)
Definition extends {A : Type} (Q : chunk -> Prop) (m : M hstate A) : Prop :=
  forall st,
    exists new,
      builder (snd (m st)) = (builder st ++ new)%list /\
      (counter st <= counter (snd (m st)))%nat /\
      ids_in (counter st) (counter (snd (m st))) (toggle_ids new) /\
      Forall Q new.

(** The name a chunk carries is the escaped name of a node of the tree. *)
Definition named_from (path : node) (c : chunk) : Prop :=
  forall name,
    chunk_name c = Some name ->
    exists n, subnode n path /\ name = html_escape (node_name n).

(** *** Sample trees *)

(** The tree of the end-to-end scenario. *)
Definition tree_R : node :=
  Directory "R" 1015
    [File "a" 1000; File "b" 10; Directory "sub" 5 [File "c" 5]].

Definition tree_empty : node := Directory "d" 0 [].

(** Eight sizes around 1001.5 PiB, largest first: their float64 sum depends
    on the order of the additions. *)
Definition eight_sizes : list Z :=
  [1127588756702888192; 1127588756702888192; 1127588756702888192;
   1127588756702888192; 1127588756702888192; 1127588756702888192;
   1127588756702886912; 1127588756702886912].

(** A directory and a file whose names contain markup. *)
Definition tree_markup : node :=
  Directory "<b>&" 40 [File "<script>alert('x')</script>" 30; File "x" 10].

(** The chunks one pass of the document renderer writes into its new
    builder, the counter standing at [c] when the pass starts. *)
Definition pass_chunks (path : node) (threshold : num) (level c : nat)
  : list chunk :=
  builder (snd (print_html_tree_elements path threshold level (mk_hstate c []))).

(** *** Floats *)

(** [2 ^ k <= a / b], for positive [a] and [b] and any integer [k]. *)
Definition ge_pow (a b k : Z) : Prop :=
  b * 2 ^ Z.max 0 k <= a * 2 ^ Z.max 0 (- k).

(** A normal binary64 number: 53 significant bits. *)
Definition normal (m : positive) (e : Z) : Prop :=
  2 ^ 52 <= Zpos m < 2 ^ 53 /\ -1074 <= e <= 971.

(** The binary64 representation of [x] is the canonical one. *)
Definition valid_float (x : spec_float) : bool :=
  match x with
  | S754_finite _ m e =>
      ((2 ^ 52 <=? Zpos m) && (Zpos m <? 2 ^ 53) && (-1074 <=? e) && (e <=? 971))
      || ((Zpos m <? 2 ^ 52) && (e =? -1074))
  | _ => true
  end.

(** The binary64 number that is the integer [k], for [0 < k < 2 ^ 53]. *)
Definition float_of_small (k : Z) : spec_float :=
  S754_finite false (Z.to_pos (k * 2 ^ (52 - Z.log2 k))) (Z.log2 k - 52).

(** [size] divided by 1024 [k] times, the way the loop of [format_size]
    does it. *)
Fixpoint divided (k : nat) (size : num) : res num :=
  match k with
  | O => Ok size
  | S k' => v <- py_truediv size (Int 1024) ;; divided k' v
  end.

Definition labels : list string := (units ++ ["YiB"])%list.

(** Three children of 100 bytes each in a directory of 300. *)
Definition tree_equal3 : node :=
  Directory "d" 300 [File "a" 100; File "b" 100; File "c" 100].

(** One empty file in a directory of size 0. *)
Definition tree_zero1 : node := Directory "d" 0 [File "a" 0].

(** [threshold / n <= 1] *)
Definition ratio_le_one (threshold : num) (n : Z) : bool :=
  match py_truediv threshold (Int n) with
  | Ok r => py_ge (Int 1) r
  | Raise _ => false
  end.

(** *** Checking the arithmetic against the Standard Library's
    [SpecFloat] *)

Definition same_float (x y : spec_float) : bool :=
  match x, y with
  | S754_zero a, S754_zero b | S754_infinity a, S754_infinity b => Bool.eqb a b
  | S754_nan, S754_nan => true
  | S754_finite a m e, S754_finite b m' e' =>
      Bool.eqb a b && Pos.eqb m m' && Z.eqb e e'
  | _, _ => false
  end.

(** Zeros, infinities, the NaN, integers and fractions. *)
Definition sample_floats : list spec_float :=
  [ S754_zero false; S754_zero true; S754_infinity false; S754_infinity true;
    S754_nan;
    PyFloat.of_Z 1; PyFloat.of_Z 3; PyFloat.of_Z (-7); PyFloat.of_Z 1024;
    PyFloat.round_ratio 12 10; PyFloat.round_ratio 1 3;
    PyFloat.round_ratio (-1) 10; PyFloat.of_Z (2 ^ 60 + 1);
    PyFloat.round_ratio 123456789 1000; PyFloat.of_Z (2 ^ 53 - 1) ].

(** A subnormal number, a tiny and a huge one, and the largest float. *)
Definition extreme_floats : list spec_float :=
  [ PyFloat.round_ratio 3 (2 ^ 1074); PyFloat.round_ratio 1 (2 ^ 1060);
    PyFloat.of_Z (2 ^ 1023); PyFloat.of_Z (2 ^ 1024 - 2 ^ 971) ].

Definition agree2 (l : list spec_float)
    (f g : spec_float -> spec_float -> spec_float) : bool :=
  forallb (fun x => forallb (fun y => same_float (f x y) (g x y)) l) l.

(** What the document renderer does for a directory after the label: the
    admission threshold, the loop, the summary and the closing tag. *)
Definition folder_rest (render : node -> M hstate unit) (size : Z)
    (content : list node) (threshold : num) (level : nat) : M hstate unit :=
  min_size <~ match sorted_desc node_size content with
              | [] => builder_write (EmptyDiv (str_mul " " level)) ;>
                      st_ret (Int 0)
              | _ :: _ =>
                  lift (min_size_of size threshold (List.length content))
              end ;;
  others <~ for_subpaths render min_size (sorted_desc node_size content) [] ;;
  match others with
  | [] => st_ret tt
  | _ :: _ =>
      line <~ lift (others_div (str_mul " " level) others) ;;
      builder_write line
  end ;>
  builder_write (FolderClose (str_mul " " level)).

(** ** Induction principles and tactics *)

(** Induction over the file system tree. *)

Section entry_induction.
Variable P : entry -> Prop.
Hypothesis step :
  forall path_str name is_symlink is_dir lstat stat iterdir,
    match iterdir with
    | FsOk l => Forall P l
    | FsErr _ => True
    end ->
    P (Entry path_str name is_symlink is_dir lstat stat iterdir).

Fixpoint entry_ind' (e : entry) : P e :=
  match e with
  | Entry path_str name is_symlink is_dir lstat stat iterdir =>
      step path_str name is_symlink is_dir lstat stat iterdir
        (match iterdir as i
               return match i with FsOk l => Forall P l | FsErr _ => True end
         with
         | FsOk l =>
             (fix all (l : list entry) : Forall P l :=
                match l with
                | [] => Forall_nil P
                | x :: xs => Forall_cons x (entry_ind' x) (all xs)
                end) l
         | FsErr _ => I
         end)
  end.
End entry_induction.

(** Induction over trees. *)

Section node_induction.
Variable P : node -> Prop.
Hypothesis file_case : forall name size, P (File name size).
Hypothesis directory_case :
  forall name size content, Forall P content -> P (Directory name size content).

Fixpoint node_ind' (n : node) : P n :=
  match n with
  | File name size => file_case name size
  | Directory name size content =>
      directory_case name size content
        ((fix all (l : list node) : Forall P l :=
            match l with
            | [] => Forall_nil P
            | x :: xs => Forall_cons x (node_ind' x) (all xs)
            end) content)
  end.
End node_induction.

(** Split a conjunction of closed equations and evaluate each. *)
Ltac conj_compute :=
  repeat match goal with |- _ /\ _ => split end; vm_compute; reflexivity.

(** Replace a constant power of two by its value, for [lia]. *)
Ltac eval_pow k :=
  let c := eval vm_compute in (2 ^ k) in change (2 ^ k) with c in *.

(** Read a comparison result as the order it stands for. *)
Ltac cmp_lt C :=
  match type of C with
  | (?x ?= ?y) = Lt => change (x < y) in C
  end.

(** ** Further vocabulary: the scanner *)

(** The number of nodes of a tree. *)
Fixpoint node_count (n : node) : Z :=
  match n with
  | File _ _ => 1
  | Directory _ _ content => 1 + sum_Z (map node_count content)
  end.

(** The loop body hands this entry to [Directory]: it is not a symlink and
    [is_dir()] answers [True]. *)
Definition scanned_as_dir (p : entry) : bool :=
  match e_is_symlink p, e_is_dir p with
  | FsOk false, FsOk true => true
  | _, _ => false
  end.

(** No directory the scan visits, from [e] down, is a junction. *)
Fixpoint no_junction (e : entry) : bool :=
  match e with
  | Entry _ _ _ _ lstat stat iterdir =>
      negb (match lstat, stat with
            | FsOk st_result, FsOk st_result2 =>
                negb (st_ino st_result2 =? st_ino st_result)
            | _, _ => false
            end)
      && match iterdir with
         | FsOk l => forallb (fun p => negb (scanned_as_dir p) || no_junction p) l
         | FsErr _ => true
         end
  end.

(** Every directory the scan visits, from [e] down, is scanned without an
    [OSError] of its own.  (A file whose [lstat] fails is not excluded: the
    error is caught in [File.__init__].) *)
Fixpoint deep_clean (e : entry) : bool :=
  match e with
  | Entry _ _ _ _ lstat stat iterdir =>
      match lstat, stat with
      | FsOk st_result, FsOk st_result2 => st_ino st_result2 =? st_ino st_result
      | _, _ => false
      end
      && match iterdir with
         | FsOk l =>
             forallb (fun p => quiet p && (negb (scanned_as_dir p) || deep_clean p)) l
         | FsErr _ => false
         end
  end.

(** The link-stat sizes of everything at or below [e], symlinks counted as
    links and not followed; an entry whose [lstat] fails counts 0. *)
Fixpoint disk_usage (e : entry) : Z :=
  match e with
  | Entry _ _ _ _ lstat _ iterdir =>
      match lstat with
      | FsOk st => st_size st
      | FsErr _ => 0
      end
      + match iterdir with
        | FsOk l =>
            sum_Z (map (fun p => if scanned_as_dir p then disk_usage p
                                 else own_size p) l)
        | FsErr _ => 0
        end
  end.

(** No [lstat] at or below [e] reports a negative size. *)
Fixpoint sizes_nonneg (e : entry) : bool :=
  match e with
  | Entry _ _ _ _ lstat _ iterdir =>
      match lstat with
      | FsOk st => 0 <=? st_size st
      | FsErr _ => true
      end
      && match iterdir with
         | FsOk l => forallb sizes_nonneg l
         | FsErr _ => true
         end
  end.

(** The entries the loop body turns into nodes: those that are not
    symlinks. *)
Definition not_symlink (p : entry) : bool :=
  match e_is_symlink p with
  | FsOk false => true
  | _ => false
  end.

(** A root whose listing breaks at its second entry. *)
Definition fs_broken_listing : entry :=
  Entry "R" "R" (FsOk false) (FsOk true)
    (FsOk (mk_stat 4096 2)) (FsOk (mk_stat 4096 2))
    (FsOk [ Entry "R/a" "a" (FsOk false) (FsOk false)
              (FsOk (mk_stat 1000 3)) (FsOk (mk_stat 1000 3)) (FsErr "ENOTDIR");
            Entry "R/gone" "gone" (FsErr "EIO") (FsOk false)
              (FsErr "EIO") (FsErr "EIO") (FsErr "EIO");
            Entry "R/b" "b" (FsOk false) (FsOk false)
              (FsOk (mk_stat 10 4)) (FsOk (mk_stat 10 4)) (FsErr "ENOTDIR") ]).

(** [p] is listed by [e] or by an entry below [e]. *)
Definition listed_below (p e : entry) : Prop :=
  exists parent l, sub_entry parent e /\ e_iterdir parent = FsOk l /\ In p l.

(** Every node of the tree has a non-negative size. *)
Definition nonneg_tree (d : node) : Prop :=
  forall n, subnode n d -> 0 <= node_size n.

(** The records a scan keeps: nothing logged or printed before is lost, a
    progress line moves the next report point by [report_every], and the
    report point stays less than [report_every] ahead of the count. *)
Definition bookkeeping (g g' : globals) : Prop :=
  exists newlog newout,
    log g' = (log g ++ newlog)%list /\
    stdout g' = (stdout g ++ newout)%list /\
    scanned g <= scanned g' /\
    next_report_num g' =
      next_report_num g + report_every * Z.of_nat (List.length newout) /\
    (next_report_num g < scanned g + report_every ->
     next_report_num g' < scanned g' + report_every).

(** ** Further vocabulary: numbers and [format_size] *)

(** [float(n)] does not overflow: [n] is nearer to a finite float than to
    [2 ** 1024]. *)
Definition fits_float (n : Z) : bool :=
  (- (2 ^ 1024 - 2 ^ 970) <? n) && (n <? 2 ^ 1024 - 2 ^ 970).

(** The floats [math.sqrt] accepts: every float but the negative numbers
    and minus infinity. *)
Definition sqrt_domain (x : spec_float) : bool :=
  match x with
  | S754_finite true _ _ | S754_infinity true => false
  | _ => true
  end.

(** A float with the sign bit clear that is no NaN. *)
Definition plus_signed (x : spec_float) : bool :=
  match x with
  | S754_nan => false
  | S754_zero s | S754_infinity s | S754_finite s _ _ => negb s
  end.

(** A float that is no negative number and no minus infinity nor minus
    zero: a NaN, or a float with the sign bit clear. *)
Definition no_minus (x : spec_float) : Prop :=
  x = S754_nan \/ plus_signed x = true.

(** The sizes from 0 up to but not including [n]. *)
Definition sizes_below (n : nat) : list Z := map Z.of_nat (seq 0 n).

(** [format_size] prints every size of the list exactly, in bytes. *)
Definition printed_exactly (l : list Z) : bool :=
  forallb (fun n => match format_size (Int n) with
                    | Ok s => String.eqb s (string_of_Z n ++ "B")
                    | Raise _ => false
                    end) l.

(** ** Further vocabulary: the renderers *)

Definition is_overflow (e : exn) : bool :=
  match e with
  | OverflowError _ => true
  | _ => false
  end.

(** The errors of a division by zero and of a square root outside its
    domain. *)
Definition domain_error (e : exn) : bool :=
  match e with
  | ZeroDivisionError _ => true
  | ValueError msg => String.eqb msg "math domain error"
  | _ => false
  end.

(** The errors of the arithmetic: those and an [int] beyond the range of
    [float]. *)
Definition arithmetic_error (e : exn) : bool :=
  is_overflow e || domain_error e.

(** The number of levels of a tree below its root line. *)
Fixpoint tree_depth (n : node) : Z :=
  match n with
  | File _ _ => 0
  | Directory _ _ content => 1 + fold_right Z.max 0 (map tree_depth content)
  end.

(** If the result is an exception, it is an [OverflowError]. *)
Definition only_overflow {A : Type} (r : res A) : Prop :=
  forall e, r = Raise e -> is_overflow e = true.

(** The property [P] holds of the result, whatever the state. *)
Definition always {S A : Type} (P : res A -> Prop) (m : M S A) : Prop :=
  forall s, P (fst (m s)).

(** A size that is not negative and that [float] can take. *)
Definition size_ok (z : Z) : bool := (0 <=? z) && fits_float z.

(** Every size in the tree, the sum of the sizes of the children of every
    directory and the number of these children are not negative and within
    the range of [float]. *)
Fixpoint tree_in_range (n : node) : bool :=
  match n with
  | File _ size => size_ok size
  | Directory _ size content =>
      size_ok size
      && size_ok (sum_Z (map node_size content))
      && fits_float (Z.of_nat (List.length content))
      && forallb tree_in_range content
  end.

(** The depth of open folder blocks after the chunks [b], starting from
    [depth]; [None] when a block is closed that was not opened. *)
Fixpoint nesting (b : list chunk) (depth : nat) : option nat :=
  match b with
  | [] => Some depth
  | FolderOpen _ :: b' => nesting b' (S depth)
  | FolderClose _ :: b' =>
      match depth with
      | O => None
      | S d => nesting b' d
      end
  | _ :: b' => nesting b' depth
  end.

(** What a finished step of the document renderer has written: whole
    folder blocks, and toggles numbered by the values the counter gave, in
    order. *)
Definition whole_blocks (st st' : hstate) : Prop :=
  exists new,
    builder st' = (builder st ++ new)%list /\
    (forall d, nesting new d = Some d) /\
    (counter st <= counter st')%nat /\
    toggle_ids new = seq (counter st) (counter st' - counter st).

(** The step [m], when it returns, leaves the state related by [Q] to the
    state it found. *)
Definition on_return {A : Type} (Q : hstate -> hstate -> Prop) (m : M hstate A)
  : Prop :=
  forall st a st', m st = (Ok a, st') -> Q st st'.

(** The text renderer only appends to its file, and what it appends and
    returns does not depend on what the file holds. *)
Definition appending {A : Type} (m : M string A) : Prop :=
  forall file, m file = (fst (m ""), file ++ snd (m "")).

(** Two steps, each on its own state, end the same way: with the same
    value or with the same exception. *)
Definition same_result {S S' A : Type} (m : M S A) (m' : M S' A) : Prop :=
  forall s s', fst (m s) = fst (m' s').

(** The step ran to its end. *)
Definition returns (r : res unit) : Prop := r = Ok tt.

(** What the rest of a folder block writes when it is finished: whole
    blocks and, last, the closing tag. *)
Definition closing_block (st st' : hstate) : Prop :=
  exists new level_str,
    builder st' = (builder st ++ new ++ [FolderClose level_str])%list /\
    (forall d, nesting new d = Some d) /\
    (counter st <= counter st')%nat /\
    toggle_ids new = seq (counter st) (counter st' - counter st).

(** ** The script at the end of the module

    [d = Directory('C:/')] and, last,
    [print_html_tree(d, file=open('C:/Large.html', 'w', encoding='utf8'))],
    run when the module is loaded: the globals are as the module has just
    initialised them, the default counter is new, and the file, opened for
    writing, is empty.  [open_] is what [open] answers; the result is how
    the script ends, the globals it leaves, and the counter and the file.
    The script is followed as far as the file system, the arithmetic and
    the text go: what the interpreter can add on its own (its limit on
    nested calls, a name the encoding of the file cannot take, a failing
    write) is not part of it. *)
Definition script (fs : string -> entry) (open_ : fsres unit)
  : res unit * globals * rstate :=
  let '(r, g) := Directory_init fs (PyStr "C:/") (mk_globals 0 0 [] []) in
  match r with
  | Raise e => (Raise e, g, mk_rstate 0 "")
  | Ok d =>
      match open_ with
      | FsErr ex => (Raise (OSError ex), g, mk_rstate 0 "")
      | FsOk _ =>
          let '(r', rs) :=
            print_html_tree d default_threshold 0 (mk_rstate 0 "") in
          (r', g, rs)
      end
  end.

(** The chunks of a folder block without children. *)
Definition empty_folder (name : string) (size : string) : list chunk :=
  [FolderOpen ""; FolderLabel "" 0 (html_escape name) size; EmptyDiv "";
   FolderClose ""].

(** * Properties *)


(** ** Sums *)

Lemma fold_add_shift (l : list Z) (a : Z) :
  fold_left Z.add l a = a + fold_left Z.add l 0.
Proof.
  revert a. induction l as [|x l IH]; intros a; simpl.
  - lia.
  - rewrite IH, (IH x). lia.
Qed.

Lemma sum_Z_cons (x : Z) (l : list Z) : sum_Z (x :: l) = x + sum_Z l.
Proof. unfold sum_Z. simpl. apply fold_add_shift. Qed.

Lemma sum_Z_app (l1 l2 : list Z) : sum_Z (l1 ++ l2) = sum_Z l1 + sum_Z l2.
Proof.
  induction l1 as [|x l1 IH]; simpl.
  - reflexivity.
  - rewrite !sum_Z_cons, IH. lia.
Qed.

(** ** The loop of [Directory.__init__] *)

Lemma File_init_node (p : entry) (g : globals) :
  exists size, fst (File_init p g) = File (e_name p) size.
Proof.
  unfold File_init. destruct (e_lstat p); simpl; eauto.
Qed.

(** With every entry answering, the loop runs to its end: it only appends to
    [content], and [size] grows by the sizes of the new children and of the
    symlinks. *)
Lemma iter_body_quiet (scan : entry -> globals -> node * globals) (l : list entry) :
  forallb quiet l = true ->
  forall content size g,
  exists new g',
    iter_body scan l content size g =
      ((content ++ new)%list,
       Completed (size + sum_Z (map node_size new) + sum_Z (map link_size l)), g').
Proof.
  induction l as [|p l IH]; intros Hq content size g.
  - exists [], g. simpl. rewrite app_nil_r. f_equal. f_equal. f_equal.
    unfold sum_Z; simpl; lia.
  - simpl in Hq. apply andb_prop in Hq. destruct Hq as [Hp Hl].
    unfold quiet in Hp. simpl. unfold link_size at 1.
    destruct (e_is_symlink p) as [[|]|]; try discriminate.
    + destruct (e_lstat p) as [st|]; try discriminate.
      destruct (IH Hl content (size + st_size st) g) as (new & g' & E).
      exists new, g'. cbn [map]. rewrite E, sum_Z_cons.
      f_equal. f_equal. f_equal. lia.
    + destruct (e_is_dir p) as [[|]|]; try discriminate.
      * destruct (scan p g) as [obj g1].
        destruct (IH Hl (content ++ [obj])%list (size + node_size obj) g1)
          as (new & g' & E).
        exists (obj :: new), g'. cbn [map]. rewrite E, !sum_Z_cons.
        rewrite <- app_assoc. simpl. f_equal. f_equal. f_equal. lia.
      * destruct (File_init p g) as [obj g1].
        destruct (IH Hl (content ++ [obj])%list (size + node_size obj) g1)
          as (new & g' & E).
        exists (obj :: new), g'. cbn [map]. rewrite E, !sum_Z_cons.
        rewrite <- app_assoc. simpl. f_equal. f_equal. f_equal. lia.
Qed.

(** Whatever way the loop ends, every child it appended comes from a listed
    entry: [scan] of a directory entry or [File] of any other. *)
Lemma iter_body_children (scan : entry -> globals -> node * globals)
    (Q : node -> Prop) (l : list entry) :
  (forall p g, In p l -> Q (fst (scan p g))) ->
  (forall p g, In p l -> Q (fst (File_init p g))) ->
  forall content size g,
    Forall Q content ->
    Forall Q (fst (fst (iter_body scan l content size g))).
Proof.
  induction l as [|p l IH]; intros Hs Hf content size g Hc; simpl.
  - exact Hc.
  - assert (Hs' : forall p0 g0, In p0 l -> Q (fst (scan p0 g0)))
      by (intros; apply Hs; right; assumption).
    assert (Hf' : forall p0 g0, In p0 l -> Q (fst (File_init p0 g0)))
      by (intros; apply Hf; right; assumption).
    destruct (e_is_symlink p) as [[|]|]; simpl; auto.
    + destruct (e_lstat p); simpl; auto.
    + destruct (e_is_dir p) as [[|]|]; simpl; auto.
      * pose proof (Hs p g (or_introl eq_refl)) as Hq.
        destruct (scan p g) as [obj g1]. apply IH; auto.
        apply Forall_app; split; auto.
      * pose proof (Hf p g (or_introl eq_refl)) as Hq.
        destruct (File_init p g) as [obj g1]. apply IH; auto.
        apply Forall_app; split; auto.
Qed.

(** The equation of [Directory_scan], with the [try] block's three ends. *)
Lemma Directory_scan_mismatch (e : entry) (g : globals) :
  identity_mismatch e = true ->
  Directory_scan e g = (Directory (e_name e) 0 [], report_progress (e_path e) g).
Proof.
  destruct e as [p n sy di ls st it]. unfold identity_mismatch. simpl.
  destruct ls as [s1|]; try discriminate.
  destruct st as [s2|]; try discriminate.
  intros ->. reflexivity.
Qed.

Lemma Directory_scan_clean (e : entry) (g : globals) :
  scan_clean e = true ->
  node_size (fst (Directory_scan e g)) =
    own_size e + children_size (fst (Directory_scan e g)) + symlink_sizes e.
Proof.
  destruct e as [p n sy di ls st it].
  unfold scan_clean, identity_ok, own_size, symlink_sizes, children_size. simpl.
  destruct ls as [s1|]; try discriminate.
  destruct st as [s2|]; try discriminate.
  destruct it as [l|]; [|rewrite andb_false_r; discriminate].
  intros H. apply andb_prop in H. destruct H as [Hino Hq].
  rewrite Hino. simpl.
  destruct (iter_body_quiet Directory_scan l Hq [] (st_size s1)
              (report_progress p g)) as (new & g' & E).
  rewrite E. simpl. lia.
Qed.

Lemma Directory_scan_shape (e : entry) (g : globals) :
  exists size content,
    fst (Directory_scan e g) = Directory (e_name e) size content /\
    (content = [] \/
     exists l s g1,
       e_iterdir e = FsOk l /\
       content = fst (fst (iter_body Directory_scan l [] s g1))).
Proof.
  destruct e as [p n sy di ls st it]. simpl.
  destruct ls as [s1|]; [|simpl; eauto].
  destruct st as [s2|]; [|simpl; eauto].
  destruct (negb (st_ino s2 =? st_ino s1)); [simpl; eauto|].
  destruct it as [l|]; [|simpl; eauto].
  destruct (iter_body Directory_scan l [] (st_size s1) (report_progress p g))
    as [[content how] g1] eqn:E.
  assert (Hc : content =
               fst (fst (iter_body Directory_scan l [] (st_size s1)
                           (report_progress p g))))
    by (rewrite E; reflexivity).
  destruct how; simpl; do 2 eexists; (split; [reflexivity|]); right;
    exists l, (st_size s1), (report_progress p g); auto.
Qed.

Lemma subnode_File_inv (d : node) (name : string) (size : Z) :
  subnode d (File name size) -> d = File name size.
Proof. intros H. inversion H; reflexivity. Qed.

(** Every directory node of the tree is the scan of an entry of the file
    system below the root. *)
Lemma Directory_scan_source (e : entry) :
  forall g d,
    subnode d (fst (Directory_scan e g)) ->
    is_Directory d = true ->
    exists e' g', sub_entry e' e /\ d = fst (Directory_scan e' g').
Proof.
  induction e as [p n sy di ls st it IH] using entry_ind'.
  intros g d Hsub Hdir.
  set (e := Entry p n sy di ls st it) in *.
  destruct (Directory_scan_shape e g) as (size & content & Hshape & Hcontent).
  rewrite Hshape in Hsub.
  inversion Hsub as [Heq | name0 size0 content0 c Hin Hc Heq]; subst.
  - exists e, g. split; [constructor | symmetry; exact Hshape].
  - destruct Hcontent as [-> | (l & s & g1 & Hl & ->)]; [destruct Hin|].
    simpl in Hl. subst it.
    pose (Q := fun c : node =>
             forall d, subnode d c -> is_Directory d = true ->
               exists e' g',
                 (exists p0, In p0 l /\ sub_entry e' p0) /\
                 d = fst (Directory_scan e' g')).
    assert (HQ : Forall Q (fst (fst (iter_body Directory_scan l [] s g1)))).
    { apply iter_body_children; [| |constructor].
      - intros p0 g0 Hp0 d0 Hd0 Hdir0.
        rewrite Forall_forall in IH.
        destruct (IH p0 Hp0 g0 d0 Hd0 Hdir0) as (e' & g' & He' & Heq).
        exists e', g'. split; [exists p0; auto | exact Heq].
      - intros p0 g0 Hp0 d0 Hd0 Hdir0.
        destruct (File_init_node p0 g0) as [sz Hf]. rewrite Hf in Hd0.
        apply subnode_File_inv in Hd0. subst d0. discriminate. }
    rewrite Forall_forall in HQ.
    destruct (HQ c Hin d Hc Hdir) as (e' & g' & (p0 & Hp0 & Hsub0) & Heq).
    exists e', g'. split; [|exact Heq].
    eapply sub_entry_below with (l := l) (p := p0); auto.
Qed.

Lemma Directory_scan_name (e : entry) (g : globals) :
  node_name (fst (Directory_scan e g)) = e_name e.
Proof.
  destruct (Directory_scan_shape e g) as (size & content & -> & _). reflexivity.
Qed.

(** C1, as the code has it: every directory node of a scanned tree is the
    scan of an entry below the root, and its size is the link-stat size of
    that directory itself plus the sizes of its children plus the link-stat
    sizes of the symlinks directly inside it, whenever the scan of that
    directory met no OS error of its own; a directory whose two stats
    disagree on the inode has size 0 and no children. *)
Theorem dirnode_size_law (root : entry) (g : globals) (d : node) :
  subnode d (fst (Directory_scan root g)) ->
  is_Directory d = true ->
  exists e g',
    sub_entry e root /\ d = fst (Directory_scan e g') /\
    node_name d = e_name e /\
    (scan_clean e = true ->
       node_size d = own_size e + children_size d + symlink_sizes e) /\
    (identity_mismatch e = true -> node_size d = 0 /\ node_content d = []).
Proof.
  intros Hsub Hdir.
  destruct (Directory_scan_source root g d Hsub Hdir) as (e & g' & He & ->).
  exists e, g'. split; [exact He|]. split; [reflexivity|].
  split; [apply Directory_scan_name|]. split.
  - apply Directory_scan_clean.
  - intros Hm. rewrite (Directory_scan_mismatch e g' Hm). simpl. auto.
Qed.

(** C1, counterexample: the scan of an empty directory (no children, no
    symlinks) gives a node of size 4096, the directory's own link-stat
    size, not the sum 0 of its children and symlinks. *)
Lemma dirnode_size_counterexample :
  fst (Directory_scan fs_empty_dir globals0) = Directory "R" 4096 [] /\
  children_size (fst (Directory_scan fs_empty_dir globals0))
    + symlink_sizes fs_empty_dir = 0 /\
  node_size (fst (Directory_scan fs_empty_dir globals0)) <>
    children_size (fst (Directory_scan fs_empty_dir globals0))
      + symlink_sizes fs_empty_dir.
Proof.
  vm_compute. repeat split; discriminate.
Qed.

Lemma dirnode_size_law_witness :
  exists e g',
    sub_entry e fs_sample /\
    Directory "sub" 4101 [File "c" 5] = fst (Directory_scan e g') /\
    node_name (Directory "sub" 4101 [File "c" 5]) = e_name e /\
    (scan_clean e = true ->
       node_size (Directory "sub" 4101 [File "c" 5]) =
         own_size e + children_size (Directory "sub" 4101 [File "c" 5])
           + symlink_sizes e) /\
    (identity_mismatch e = true ->
       node_size (Directory "sub" 4101 [File "c" 5]) = 0 /\
       node_content (Directory "sub" 4101 [File "c" 5]) = []).
Proof.
  apply (dirnode_size_law fs_sample globals0 (Directory "sub" 4101 [File "c" 5])).
  - vm_compute. eapply subnode_below.
    + right. left. reflexivity.
    + apply subnode_here.
  - reflexivity.
Defined.

(** ** Failures of the root and of a listing *)

Lemma Directory_scan_lstat_error (e : entry) (ex : string) (g : globals) :
  e_lstat e = FsErr ex ->
  Directory_scan e g =
    (Directory (e_name e) 0 [],
     incr_scanned (logging_error ex (report_progress (e_path e) g))).
Proof.
  destruct e as [p n sy di ls st it]. simpl. intros ->. reflexivity.
Qed.

Lemma Directory_scan_listing_error (e : entry) (ex : string) (g : globals) :
  identity_ok e = true ->
  e_iterdir e = FsErr ex ->
  Directory_scan e g =
    (Directory (e_name e) 0 [],
     incr_scanned (logging_error ex (report_progress (e_path e) g))).
Proof.
  destruct e as [p n sy di ls st it]. unfold identity_ok. simpl.
  destruct ls as [s1|]; try discriminate.
  destruct st as [s2|]; try discriminate.
  intros -> ->. reflexivity.
Qed.

(** C3, counterexample: for a root that does not exist, and for a root that
    is a regular file, [Directory] returns a node of size 0 without
    children; nothing is raised. *)
Lemma root_failure_counterexample :
  Directory_init fs_missing (PyStr "missing") globals0 =
    (Ok (Directory "missing" 0 []), mk_globals 1 0 ["ENOENT"] []) /\
  Directory_init fs_regular_file (PyStr "notes.txt") globals0 =
    (Ok (Directory "notes.txt" 0 []), mk_globals 1 0 ["ENOTDIR"] []).
Proof. split; reflexivity. Qed.

(** C3, as the code has it: for a root that does not exist (its [lstat]
    fails) or is not a directory (its stats agree and listing it fails), the
    [OSError] is caught and logged and [Directory] returns a node of size 0
    without children; no failure reaches the caller. *)
Theorem root_failure_zero_node (fs : string -> entry) (v : pyobj) (p ex : string)
    (g : globals) :
  Directory_default v "path" = Ok p ->
  e_lstat (fs p) = FsErr ex \/
  (identity_ok (fs p) = true /\ e_iterdir (fs p) = FsErr ex) ->
  Directory_init fs v g =
    (Ok (Directory (e_name (fs p)) 0 []),
     incr_scanned (logging_error ex (report_progress (e_path (fs p)) g))).
Proof.
  intros Hp H. unfold Directory_init. rewrite Hp.
  destruct H as [H | [Hid H]].
  - rewrite (Directory_scan_lstat_error _ _ _ H). reflexivity.
  - rewrite (Directory_scan_listing_error _ _ _ Hid H). reflexivity.
Qed.

Lemma root_failure_zero_node_witness :
  Directory_init fs_missing (PyStr "missing") globals0 =
    (Ok (Directory (e_name (fs_missing "missing")) 0 []),
     incr_scanned
       (logging_error "ENOENT"
          (report_progress (e_path (fs_missing "missing")) globals0))).
Proof.
  apply (root_failure_zero_node fs_missing (PyStr "missing") "missing" "ENOENT").
  - reflexivity.
  - left. reflexivity.
Defined.

(** C4: a directory whose listing fails with an [OSError] becomes a node of
    size 0 with no children, the error is logged, and the scan goes on: in
    its parent's loop the node is appended and the remaining entries are
    scanned. *)
Theorem listing_failure_recovered (e : entry) (ex : string) (g : globals) :
  identity_ok e = true ->
  e_iterdir e = FsErr ex ->
  Directory_scan e g =
    (Directory (e_name e) 0 [],
     incr_scanned (logging_error ex (report_progress (e_path e) g))) /\
  forall rest content size,
    e_is_symlink e = FsOk false ->
    e_is_dir e = FsOk true ->
    iter_body Directory_scan (e :: rest) content size g =
      iter_body Directory_scan rest (content ++ [Directory (e_name e) 0 []])
        (size + 0)
        (incr_scanned (logging_error ex (report_progress (e_path e) g))).
Proof.
  intros Hid Hit.
  pose proof (Directory_scan_listing_error e ex g Hid Hit) as E.
  split; [exact E|].
  intros rest content size Hsy Hdi. simpl. rewrite Hsy, Hdi, E. reflexivity.
Qed.

Lemma listing_failure_recovered_witness :
  Directory_scan fs_locked_dir globals0 =
    (Directory "locked" 0 [], mk_globals 1 0 ["EACCES"] []).
Proof.
  exact (proj1 (listing_failure_recovered fs_locked_dir "EACCES" globals0
                  eq_refl eq_refl)).
Defined.

(** C5: a directory whose soft stat and dereferencing stat disagree on the
    inode becomes a node of size 0 with no children, whatever its listing
    holds: the listing is not consulted, nothing below it is scanned (the
    scanned counter does not move) and nothing is logged. *)
Theorem junction_zero_leaf (path_str name : string) (is_symlink is_dir : fsres bool)
    (st_result st_result2 : stat_result) (iterdir : fsres (list entry))
    (g : globals) :
  st_ino st_result2 <> st_ino st_result ->
  Directory_scan
    (Entry path_str name is_symlink is_dir (FsOk st_result) (FsOk st_result2)
       iterdir) g =
    (Directory name 0 [], report_progress path_str g) /\
  scanned (snd (Directory_scan
                  (Entry path_str name is_symlink is_dir (FsOk st_result)
                     (FsOk st_result2) iterdir) g)) = scanned g /\
  log (snd (Directory_scan
              (Entry path_str name is_symlink is_dir (FsOk st_result)
                 (FsOk st_result2) iterdir) g)) = log g.
Proof.
  intros Hne.
  assert (E : Directory_scan
                (Entry path_str name is_symlink is_dir (FsOk st_result)
                   (FsOk st_result2) iterdir) g =
              (Directory name 0 [], report_progress path_str g)).
  { apply (Directory_scan_mismatch
             (Entry path_str name is_symlink is_dir (FsOk st_result)
                (FsOk st_result2) iterdir)).
    unfold identity_mismatch. simpl.
    apply Z.eqb_neq in Hne. rewrite Hne. reflexivity. }
  rewrite E. simpl. unfold report_progress.
  destruct (next_report_num g <? scanned g); auto.
Qed.

Lemma junction_zero_leaf_witness :
  Directory_scan fs_junction globals0 = (Directory "j" 0 [], globals0).
Proof.
  refine (proj1 (junction_zero_leaf "R/j" "j" (FsOk false) (FsOk true)
                   (mk_stat 0 11) (mk_stat 4096 2) _ globals0 _)).
  simpl. discriminate.
Defined.

(** ** The argument of [Directory] *)

(** C10: [Directory(None)] is [Directory(Path('.'))], the scan of the
    current directory; an argument that is neither [None], a [str] nor a
    [Path] raises [TypeError] and leaves the globals untouched: nothing was
    scanned, logged or printed. *)
Theorem Directory_default_argument (fs : string -> entry) (g : globals) :
  Directory_init fs PyNone g = Directory_init fs (PyPath ".") g /\
  Directory_init fs PyNone g =
    (Ok (fst (Directory_scan (fs ".") g)), snd (Directory_scan (fs ".") g)) /\
  forall v,
    path_like v = false ->
    Directory_init fs v g =
      (Raise (TypeError "path must be None, a str or a pathlib.Path"), g).
Proof.
  split; [reflexivity|]. split.
  - unfold Directory_init. simpl. destruct (Directory_scan (fs ".") g). reflexivity.
  - intros v Hv. destruct v; try discriminate; reflexivity.
Qed.

Lemma Directory_default_argument_witness :
  Directory_init fs_missing (PyInt 3) globals0 =
    (Raise (TypeError "path must be None, a str or a pathlib.Path"), globals0).
Proof.
  apply (proj2 (proj2 (Directory_default_argument fs_missing globals0))).
  reflexivity.
Defined.

(** ** Rounding to binary64 *)


Module PyFloatFacts.
Import PyFloat.



Lemma pow2_pos (k : Z) : 0 <= k -> 0 < 2 ^ k.
Proof. intros. apply Z.pow_pos_nonneg; lia. Qed.

Lemma pow2_max_pos (k : Z) : 0 < 2 ^ Z.max 0 k.
Proof. apply pow2_pos. lia. Qed.

Lemma pow2_le (j k : Z) : 0 <= j <= k -> 2 ^ j <= 2 ^ k.
Proof. intros. apply Z.pow_le_mono_r; lia. Qed.

(** [ge_pow] in a frame where both exponents are non-negative. *)
Lemma ge_pow_shift (a b k K : Z) :
  0 <= K -> 0 <= K + k ->
  (ge_pow a b k <-> b * 2 ^ (K + k) <= a * 2 ^ K).
Proof.
  intros HK HKk. unfold ge_pow.
  destruct (Z.le_gt_cases 0 k) as [Hk|Hk].
  - rewrite (Z.max_r 0 k), (Z.max_l 0 (- k)) by lia.
    rewrite Z.pow_0_r, Z.mul_1_r, Z.pow_add_r by lia.
    pose proof (pow2_pos K HK). split; intros; nia.
  - rewrite (Z.max_l 0 k), (Z.max_r 0 (- k)) by lia.
    rewrite Z.pow_0_r, Z.mul_1_r.
    replace K with ((K + k) + (- k)) at 2 by lia.
    rewrite (Z.pow_add_r 2 (K + k) (- k)) by lia.
    pose proof (pow2_pos (K + k) HKk). split; intros; nia.
Qed.

Lemma ge_pow_mono (a b j k : Z) :
  0 < b -> j <= k -> ge_pow a b k -> ge_pow a b j.
Proof.
  intros Hb Hjk H.
  set (K := Z.max 0 (- j)).
  apply (ge_pow_shift a b k K) in H; [|lia|lia].
  apply (ge_pow_shift a b j K); [lia|lia|].
  assert (2 ^ (K + j) <= 2 ^ (K + k)) by (apply pow2_le; lia).
  pose proof (pow2_pos (K + j)). nia.
Qed.

Lemma ilog2_ratio_spec (a b : Z) :
  0 < a -> 0 < b ->
  ge_pow a b (ilog2_ratio a b) /\ ~ ge_pow a b (ilog2_ratio a b + 1).
Proof.
  intros Ha Hb. unfold ilog2_ratio.
  pose proof (Z.log2_spec a Ha) as [La Ua].
  pose proof (Z.log2_spec b Hb) as [Lb Ub].
  pose proof (Z.log2_nonneg a) as Na.
  pose proof (Z.log2_nonneg b) as Nb.
  set (la := Z.log2 a) in *. set (lb := Z.log2 b) in *.
  replace (Z.succ la) with (la + 1) in Ua by lia.
  replace (Z.succ lb) with (lb + 1) in Ub by lia.
  assert (Hlow : ge_pow a b (la - lb - 1)).
  { apply (ge_pow_shift a b (la - lb - 1) (lb + 1)); [lia|lia|].
    replace (lb + 1 + (la - lb - 1)) with la by lia.
    pose proof (pow2_pos la Na). nia. }
  assert (Hhigh : ~ ge_pow a b (la - lb + 1)).
  { intros H. apply (ge_pow_shift a b (la - lb + 1) lb) in H; [|lia|lia].
    replace (lb + (la - lb + 1)) with (la + 1) in H by lia.
    pose proof (pow2_pos lb Nb). nia. }
  destruct (b * 2 ^ Z.max 0 (la - lb) <=? a * 2 ^ Z.max 0 (- (la - lb))) eqn:E.
  - apply Z.leb_le in E. split; [exact E | exact Hhigh].
  - apply Z.leb_gt in E. split; [exact Hlow|].
    replace (la - lb - 1 + 1) with (la - lb) by lia.
    unfold ge_pow. lia.
Qed.

Lemma ilog2_ratio_unique (a b k : Z) :
  0 < a -> 0 < b ->
  ge_pow a b k -> ~ ge_pow a b (k + 1) -> ilog2_ratio a b = k.
Proof.
  intros Ha Hb Hk Hk1.
  destruct (ilog2_ratio_spec a b Ha Hb) as [HL HL1].
  destruct (Z.lt_trichotomy (ilog2_ratio a b) k) as [H|[H|H]]; [|exact H|].
  - exfalso. apply HL1. apply (ge_pow_mono a b _ k); [assumption|lia|assumption].
  - exfalso. apply Hk1.
    apply (ge_pow_mono a b _ (ilog2_ratio a b)); [assumption|lia|assumption].
Qed.

Lemma ilog2_ratio_ge (a b k : Z) :
  0 < a -> 0 < b -> ge_pow a b k -> k <= ilog2_ratio a b.
Proof.
  intros Ha Hb Hk.
  destruct (ilog2_ratio_spec a b Ha Hb) as [_ HL1].
  destruct (Z.le_gt_cases k (ilog2_ratio a b)) as [H|H]; [exact H|].
  exfalso. apply HL1. apply (ge_pow_mono a b _ k); [assumption|lia|assumption].
Qed.

Lemma ilog2_ratio_lt (a b k : Z) :
  0 < a -> 0 < b -> ~ ge_pow a b k -> ilog2_ratio a b < k.
Proof.
  intros Ha Hb Hk.
  destruct (ilog2_ratio_spec a b Ha Hb) as [HL _].
  destruct (Z.le_gt_cases k (ilog2_ratio a b)) as [H|H]; [|lia].
  exfalso. apply Hk. apply (ge_pow_mono a b _ (ilog2_ratio a b)); assumption.
Qed.

(** *** The rounded quotient *)

Lemma div_rne_exact (m d : Z) : 0 < d -> div_rne (m * d) d = m.
Proof.
  intros Hd. unfold div_rne.
  rewrite Z.div_mul, Z.mod_mul by lia.
  replace (2 * 0) with 0 by lia.
  destruct (0 ?= d) eqn:E; try reflexivity.
  - apply Z.compare_eq in E. lia.
  - apply Z.compare_gt_iff in E. lia.
Qed.

Lemma div_rne_range (n d : Z) :
  0 < d -> n / d <= div_rne n d <= n / d + 1.
Proof.
  intros Hd. unfold div_rne.
  destruct (2 * (n mod d) ?= d); [destruct (Z.even (n / d))| |]; lia.
Qed.

Lemma div_rne_ge (n d k : Z) : 0 < d -> d * k <= n -> k <= div_rne n d.
Proof.
  intros Hd H. pose proof (div_rne_range n d Hd).
  assert (k <= n / d) by (apply Z.div_le_lower_bound; lia). lia.
Qed.

Lemma div_rne_le (n d k : Z) : 0 < d -> n < d * k -> div_rne n d <= k.
Proof.
  intros Hd H. pose proof (div_rne_range n d Hd).
  assert (n / d < k) by (apply Z.div_lt_upper_bound; lia). lia.
Qed.

(** Below the midpoint under [k] the quotient rounds below [k]. *)
Lemma div_rne_lt_half (n d k : Z) :
  0 < d -> 2 * n < (2 * k - 1) * d -> div_rne n d < k.
Proof.
  intros Hd H. unfold div_rne.
  pose proof (Z.div_mod n d ltac:(lia)) as E.
  pose proof (Z.mod_pos_bound n d Hd) as Hr.
  set (q := n / d) in *. set (r := n mod d) in *.
  assert (Hq : q <= k - 1) by nia.
  destruct (Z.eq_dec q (k - 1)) as [->|Hne].
  - assert (2 * r < d) by nia.
    destruct (2 * r ?= d) eqn:C.
    + apply Z.compare_eq in C. lia.
    + lia.
    + apply Z.compare_gt_iff in C. lia.
  - destruct (2 * r ?= d); [destruct (Z.even q)| |]; lia.
Qed.

(** *** [round_pos] *)

Lemma max_split (e : Z) : Z.max 0 (- e) + e = Z.max 0 e.
Proof. lia. Qed.

(** A quotient that is a normal binary64 number is not changed. *)
Lemma round_pos_exact (s : bool) (a b : Z) (m : positive) (e : Z) :
  0 < a -> 0 < b -> normal m e ->
  a * 2 ^ Z.max 0 (- e) = Zpos m * (b * 2 ^ Z.max 0 e) ->
  round_pos s a b = S754_finite s m e.
Proof.
  intros Ha Hb [[Hm1 Hm2] [He1 He2]] E.
  pose proof (pow2_max_pos e) as Pe.
  assert (HL : ilog2_ratio a b = e + 52).
  { apply ilog2_ratio_unique; try assumption.
    - apply (ge_pow_shift a b (e + 52) (Z.max 0 (- e))); [lia|lia|].
      replace (Z.max 0 (- e) + (e + 52)) with (Z.max 0 e + 52) by lia.
      rewrite Z.pow_add_r by lia. rewrite E. nia.
    - intros H.
      apply (ge_pow_shift a b (e + 52 + 1) (Z.max 0 (- e))) in H; [|lia|lia].
      replace (Z.max 0 (- e) + (e + 52 + 1)) with (Z.max 0 e + 53) in H by lia.
      rewrite Z.pow_add_r in H by lia. rewrite E in H. nia. }
  unfold round_pos. rewrite HL.
  replace (Z.max (e + 52 - 52) (-1074)) with e by lia.
  rewrite E, div_rne_exact by nia.
  destruct (Z.pos m =? 2 ^ 53) eqn:C; [apply Z.eqb_eq in C; lia|].
  destruct (e <=? 971) eqn:C2; [reflexivity | apply Z.leb_gt in C2; lia].
Qed.

(** A quotient of at least [2 ^ k], [k] in the normal range, and under the
    overflow threshold rounds to a normal number of at least [2 ^ k]. *)
Lemma round_pos_normal (s : bool) (a b k : Z) :
  0 < a -> 0 < b -> ge_pow a b k -> -1022 <= k ->
  2 * a < (2 ^ 1025 - 2 ^ 971) * b ->
  exists m e, round_pos s a b = S754_finite s m e /\ normal m e /\ k - 52 <= e.
Proof.
  intros Ha Hb Hk Hkmin Hov.
  pose proof (ilog2_ratio_ge a b k Ha Hb Hk) as HkL.
  assert (HL1024 : ilog2_ratio a b < 1024).
  { apply ilog2_ratio_lt; try assumption. unfold ge_pow.
    change (Z.max 0 1024) with 1024.
    change (Z.max 0 (Z.opp 1024)) with 0.
    eval_pow 1024. eval_pow 1025. eval_pow 971. eval_pow 0. lia. }
  destruct (ilog2_ratio_spec a b Ha Hb) as [HL HL1].
  unfold round_pos.
  set (L := ilog2_ratio a b) in *.
  replace (Z.max (L - 52) (-1074)) with (L - 52) by lia.
  set (e := L - 52).
  pose proof (pow2_max_pos e) as Pe.
  pose proof (pow2_max_pos (- e)) as Pne.
  set (n := a * 2 ^ Z.max 0 (- e)).
  set (d := b * 2 ^ Z.max 0 e).
  assert (Hd : 0 < d) by (unfold d; nia).
  assert (Hlow : d * 2 ^ 52 <= n).
  { apply (ge_pow_shift a b L (Z.max 0 (- e))) in HL; [|lia|lia].
    replace (Z.max 0 (- e) + L) with (Z.max 0 e + 52) in HL by lia.
    rewrite Z.pow_add_r in HL by lia. unfold n, d. lia. }
  assert (Hhigh : n < d * 2 ^ 53).
  { destruct (Z.lt_ge_cases n (d * 2 ^ 53)) as [H|H]; [exact H|].
    exfalso. apply HL1.
    apply (ge_pow_shift a b (L + 1) (Z.max 0 (- e))); [lia|lia|].
    replace (Z.max 0 (- e) + (L + 1)) with (Z.max 0 e + 53) by lia.
    rewrite Z.pow_add_r by lia. unfold n, d in H. lia. }
  pose proof (div_rne_ge n d (2 ^ 52) Hd Hlow) as Hm1.
  pose proof (div_rne_le n d (2 ^ 53) Hd Hhigh) as Hm2.
  set (m0 := div_rne n d) in *.
  destruct (m0 =? 2 ^ 53) eqn:C.
  - apply Z.eqb_eq in C.
    assert (He : e <= 970).
    { destruct (Z.le_gt_cases e 970) as [H|H]; [exact H|]. exfalso.
      assert (e = 971) by lia.
      assert (Hlt : m0 < 2 ^ 53).
      { apply div_rne_lt_half; [exact Hd|]. unfold n, d.
        replace (Z.max 0 (- e)) with 0 by lia.
        replace (Z.max 0 e) with 971 by lia.
        eval_pow 1025. eval_pow 971. eval_pow 53. eval_pow 0. lia. }
      lia. }
    change (2 ^ 52) with (Zpos (2 ^ 52)%positive).
    destruct (e + 1 <=? 971) eqn:C2; [|apply Z.leb_gt in C2; lia].
    exists (2 ^ 52)%positive, (e + 1). split; [reflexivity|].
    split; [|lia]. split; [split; [reflexivity | reflexivity] | lia].
  - apply Z.eqb_neq in C.
    assert (Hpos : 0 < m0) by (assert (0 < 2 ^ 52) by reflexivity; lia).
    destruct m0 as [|p|p]; try lia.
    destruct (e <=? 971) eqn:C2; [|apply Z.leb_gt in C2; lia].
    exists p, e. split; [reflexivity|]. split; [|lia].
    split; lia.
Qed.

Lemma small_normal (k : Z) :
  0 < k < 2 ^ 53 ->
  normal (Z.to_pos (k * 2 ^ (52 - Z.log2 k))) (Z.log2 k - 52) /\
  Zpos (Z.to_pos (k * 2 ^ (52 - Z.log2 k))) = k * 2 ^ (52 - Z.log2 k) /\
  0 <= Z.log2 k <= 52.
Proof.
  intros [Hk1 Hk2].
  pose proof (Z.log2_spec k Hk1) as [Lk Uk].
  pose proof (Z.log2_nonneg k) as Nk.
  assert (Hlg : Z.log2 k < 53) by (apply Z.log2_lt_pow2; lia).
  set (lg := Z.log2 k) in *.
  replace (Z.succ lg) with (lg + 1) in Uk by lia.
  pose proof (pow2_pos (52 - lg) ltac:(lia)) as P.
  assert (E52 : 2 ^ lg * 2 ^ (52 - lg) = 2 ^ 52)
    by (rewrite <- Z.pow_add_r by lia; f_equal; lia).
  assert (E53 : 2 ^ (lg + 1) * 2 ^ (52 - lg) = 2 ^ 53)
    by (rewrite <- Z.pow_add_r by lia; f_equal; lia).
  assert (Hpos : 0 < k * 2 ^ (52 - lg)) by nia.
  rewrite Z2Pos.id by exact Hpos.
  split; [|split; [reflexivity | lia]].
  split; [nia | lia].
Qed.

Lemma round_pos_small (k c : Z) :
  0 < k < 2 ^ 53 -> 0 < c -> round_pos false (k * c) c = float_of_small k.
Proof.
  intros Hk Hc. destruct (small_normal k Hk) as (Hn & Hz & Hlg).
  unfold float_of_small. apply round_pos_exact; [nia | lia | exact Hn |].
  rewrite Hz.
  replace (Z.max 0 (- (Z.log2 k - 52))) with (52 - Z.log2 k) by lia.
  replace (Z.max 0 (Z.log2 k - 52)) with 0 by lia.
  rewrite Z.pow_0_r. ring.
Qed.

Lemma of_Z_small (k : Z) : 0 < k < 2 ^ 53 -> of_Z k = float_of_small k.
Proof.
  intros Hk. unfold of_Z, round_ratio.
  destruct k as [|p|p]; try lia.
  rewrite <- (round_pos_small (Zpos p) 1) by lia.
  rewrite Z.mul_1_r. reflexivity.
Qed.

(** At or above the midpoint under an even [k] the quotient rounds to at
    least [k]. *)
Lemma div_rne_ge_half (n d k : Z) :
  0 < d -> Z.even k = true -> (2 * k - 1) * d <= 2 * n -> k <= div_rne n d.
Proof.
  intros Hd Hk H. unfold div_rne.
  pose proof (Z.div_mod n d ltac:(lia)) as E.
  pose proof (Z.mod_pos_bound n d Hd) as Hr.
  set (q := n / d) in *. set (r := n mod d) in *.
  destruct (Z.le_gt_cases k q) as [Hq|Hq].
  - destruct (2 * r ?= d); [destruct (Z.even q)| |]; lia.
  - assert (Eq : q = k - 1) by nia. subst q.
    assert (Hr2 : d <= 2 * r) by nia.
    destruct (2 * r ?= d) eqn:C.
    + assert (Ho : Z.even (k - 1) = false).
      { rewrite Z.even_sub, Hk. reflexivity. }
      rewrite Eq, Ho. lia.
    + cmp_lt C. lia.
    + lia.
Qed.

(** A quotient at or above the midpoint between the largest float and
    [2 ^ 1024] rounds to infinity. *)
Lemma round_pos_overflow (s : bool) (a b : Z) :
  0 < a -> 0 < b -> (2 ^ 1025 - 2 ^ 971) * b <= 2 * a ->
  round_pos s a b = S754_infinity s.
Proof.
  intros Ha Hb Hov.
  assert (HL1023 : 1023 <= ilog2_ratio a b).
  { apply ilog2_ratio_ge; try assumption. unfold ge_pow.
    change (Z.max 0 1023) with 1023.
    change (Z.max 0 (Z.opp 1023)) with 0.
    eval_pow 1023. eval_pow 1025. eval_pow 971. eval_pow 0. lia. }
  destruct (ilog2_ratio_spec a b Ha Hb) as [HL HL1].
  unfold round_pos.
  set (L := ilog2_ratio a b) in *.
  replace (Z.max (L - 52) (-1074)) with (L - 52) by lia.
  set (e := L - 52).
  pose proof (pow2_max_pos e) as Pe.
  pose proof (pow2_max_pos (- e)) as Pne.
  set (n := a * 2 ^ Z.max 0 (- e)).
  set (d := b * 2 ^ Z.max 0 e).
  assert (Hd : 0 < d) by (unfold d; nia).
  assert (Hlow : d * 2 ^ 52 <= n).
  { apply (ge_pow_shift a b L (Z.max 0 (- e))) in HL; [|lia|lia].
    replace (Z.max 0 (- e) + L) with (Z.max 0 e + 52) in HL by lia.
    rewrite Z.pow_add_r in HL by lia. unfold n, d. lia. }
  assert (Hhigh : n < d * 2 ^ 53).
  { destruct (Z.lt_ge_cases n (d * 2 ^ 53)) as [H|H]; [exact H|].
    exfalso. apply HL1.
    apply (ge_pow_shift a b (L + 1) (Z.max 0 (- e))); [lia|lia|].
    replace (Z.max 0 (- e) + (L + 1)) with (Z.max 0 e + 53) by lia.
    rewrite Z.pow_add_r by lia. unfold n, d in H. lia. }
  pose proof (div_rne_ge n d (2 ^ 52) Hd Hlow) as Hm1.
  pose proof (div_rne_le n d (2 ^ 53) Hd Hhigh) as Hm2.
  assert (Hedge : e = 971 -> 2 ^ 53 <= div_rne n d).
  { intros He. apply div_rne_ge_half; [exact Hd | reflexivity |]. unfold n, d.
    rewrite He. change (Z.max 0 (Z.opp 971)) with 0.
    change (Z.max 0 971) with 971.
    eval_pow 1025. eval_pow 971. eval_pow 53. eval_pow 0. lia. }
  set (m0 := div_rne n d) in *.
  assert (P52 : 0 < 2 ^ 52) by reflexivity.
  destruct (m0 =? 2 ^ 53) eqn:C.
  - change (2 ^ 52) with (Zpos (2 ^ 52)%positive).
    destruct (e + 1 <=? 971) eqn:C2; [apply Z.leb_le in C2; lia | reflexivity].
  - apply Z.eqb_neq in C.
    destruct (e <=? 971) eqn:C2.
    + exfalso. apply Z.leb_le in C2. assert (He : e = 971) by lia.
      specialize (Hedge He). lia.
    + destruct m0 as [|p|p]; try lia. reflexivity.
Qed.

End PyFloatFacts.

(** ** The arithmetic agrees with [SpecFloat] *)

Example arithmetic_agrees_with_SpecFloat :
  agree2 sample_floats PyFloat.fmul (SFmul 53 1024) = true /\
  agree2 sample_floats PyFloat.fdiv (SFdiv 53 1024) = true /\
  agree2 sample_floats PyFloat.fadd (SFadd 53 1024) = true /\
  agree2 sample_floats PyFloat.fsub (SFsub 53 1024) = true /\
  forallb (fun x => same_float (PyFloat.fsqrt x) (SFsqrt 53 1024 x))
    sample_floats = true /\
  forallb (fun n => same_float (PyFloat.of_Z n)
                      (binary_normalize 53 1024 n 0 false))
    [0; 1; -1; 3; 2 ^ 53 + 1; 2 ^ 53 + 3; 2 ^ 54 + 2; 2 ^ 54 + 6; 10 ^ 30;
     - 10 ^ 30] = true /\
  forallb (fun x => Bool.eqb (valid_float x) (valid_binary 53 1024 x))
    sample_floats = true.
Proof. conj_compute. Qed.

Example extremes_agree_with_SpecFloat :
  agree2 extreme_floats PyFloat.fmul (SFmul 53 1024) = true /\
  agree2 extreme_floats PyFloat.fdiv (SFdiv 53 1024) = true /\
  agree2 extreme_floats PyFloat.fadd (SFadd 53 1024) = true /\
  forallb (fun x => same_float (PyFloat.fsqrt x) (SFsqrt 53 1024 x))
    extreme_floats = true /\
  forallb (fun n => same_float (PyFloat.of_Z n)
                      (binary_normalize 53 1024 n 0 false))
    [2 ^ 1024 - 2 ^ 970 - 1; 2 ^ 1024 - 2 ^ 970; 2 ^ 1024] = true /\
  forallb (fun x => Bool.eqb (valid_float x) (valid_binary 53 1024 x))
    extreme_floats = true.
Proof. conj_compute. Qed.

(** ** [format_size] on large values *)

Import PyFloat PyFloatFacts.

Lemma round_ratio_pos (a b : Z) : 0 < a -> round_ratio a b = round_pos false a b.
Proof. intros H. destruct a; try lia. reflexivity. Qed.

Lemma of_Z_1024 : of_Z 1024 = S754_finite false (2 ^ 52) (-42).
Proof. reflexivity. Qed.

(** The first division of a large [int]. *)
Lemma py_truediv_int_1024 (n k : Z) :
  0 <= k -> 1024 * 2 ^ k <= n -> n < 2 ^ 1034 - 2 ^ 980 ->
  exists m e,
    py_truediv (Int n) (Int 1024) = Ok (Flt (S754_finite false m e)) /\
    normal m e /\ k - 52 <= e.
Proof.
  intros Hk Hn Hov.
  pose proof (pow2_pos k Hk) as Pk.
  assert (Hpos : 0 < n) by lia.
  destruct (round_pos_normal false n 1024 k) as (m & e & E & Hnorm & He);
    try lia.
  - unfold ge_pow. rewrite (Z.max_r 0 k), (Z.max_l 0 (- k)) by lia.
    rewrite Z.pow_0_r. lia.
  - exists m, e. split; [|auto].
    unfold py_truediv. cbn [Z.eqb].
    destruct n as [|p|p]; try lia.
    cbn [Z.eqb Z.sgn Z.abs]. rewrite Z.mul_1_r.
    unfold round_ratio. rewrite E. reflexivity.
Qed.

Lemma py_lt_int_1024 (n : Z) : 1024 <= n -> py_lt (Int n) (Int 1024) = false.
Proof.
  intros H. unfold py_lt. cbn [xval_of xcompare Z.min Z.sub Z.compare Z.opp
                                 Z.add Z.pow Z.pow_pos Pos.iter].
  rewrite !Z.mul_1_r.
  destruct (n ?= 1024) eqn:C; try reflexivity.
  exfalso. cmp_lt C. lia.
Qed.

(** A normal float of exponent at least -42 is at least 1024. *)
Lemma py_lt_float_1024 (m : positive) (e : Z) :
  normal m e -> -42 <= e ->
  py_lt (Flt (S754_finite false m e)) (Int 1024) = false.
Proof.
  intros [[Hm1 Hm2] _] He. unfold py_lt. cbn [xval_of xcompare signedm].
  destruct (Zpos m * 2 ^ (e - Z.min e 0) ?= 1024 * 2 ^ (0 - Z.min e 0)) eqn:C;
    try reflexivity.
  exfalso. cmp_lt C.
  destruct (Z.le_gt_cases 0 e) as [H|H].
  - replace (Z.min e 0) with 0 in C by lia.
    replace (e - 0) with e in C by lia. cbn [Z.sub Z.add Z.opp Z.pow] in C.
    pose proof (pow2_pos e H). eval_pow 52. nia.
  - replace (Z.min e 0) with e in C by lia.
    replace (e - e) with 0 in C by lia. rewrite Z.pow_0_r in C.
    assert (2 ^ (0 - e) <= 2 ^ 42) by (apply pow2_le; lia).
    eval_pow 52. eval_pow 42. lia.
Qed.

(** Dividing a float by 1024 lowers its exponent by 10. *)
Lemma py_truediv_float_1024 (m : positive) (e : Z) :
  normal m e -> -1064 <= e ->
  py_truediv (Flt (S754_finite false m e)) (Int 1024) =
    Ok (Flt (S754_finite false m (e - 10))).
Proof.
  intros Hn He. destruct Hn as [Hm [He1 He2]].
  unfold py_truediv, to_float, res_bind. rewrite of_Z_1024.
  cbn [is_inf is_zero fdiv xorb].
  f_equal. f_equal.
  pose proof (pow2_max_pos (e - -42)) as P1.
  pose proof (pow2_max_pos (-42 - e)) as P2.
  apply round_pos_exact.
  - nia.
  - assert (0 < Zpos (2 ^ 52)) by reflexivity. nia.
  - split; [exact Hm | lia].
  - change (Zpos (2 ^ 52)) with (2 ^ 52).
    rewrite <- !Z.mul_assoc. f_equal.
    rewrite (Z.mul_comm (2 ^ 52)), <- !Z.mul_assoc.
    rewrite <- !Z.pow_add_r by lia.
    f_equal. lia.
Qed.

Lemma format_size_loop_big (us : list string) :
  forall (m : positive) (e : Z),
    normal m e ->
    10 * Z.of_nat (List.length us) - 52 <= e ->
    format_size_loop us (Flt (S754_finite false m e)) =
      Ok (fmt_float (S754_finite false m (e - 10 * Z.of_nat (List.length us)))
            ++ "YiB")%string.
Proof.
  induction us as [|u us IH]; intros m e Hn He.
  - cbn [format_size_loop List.length Z.of_nat]. 
    replace (e - 10 * 0) with e by lia. reflexivity.
  - cbn [format_size_loop].
    change (List.length (u :: us)) with (S (List.length us)) in *.
    rewrite Nat2Z.inj_succ in *.
    rewrite py_lt_float_1024 by (auto; lia).
    rewrite py_truediv_float_1024 by (auto; lia).
    cbn [res_bind].
    destruct Hn as [Hm [He1 He2]].
    rewrite IH; [|split; [exact Hm | lia] | lia].
    f_equal. f_equal. f_equal. f_equal. lia.
Qed.

(** The loop stops at the first unit at which the value is under 1024, or
    after the last one. *)
Lemma format_size_loop_spec (us : list string) :
  forall (size : num) (s : string),
    format_size_loop us size = Ok s ->
    exists (k : nat) (v : num) (t : string),
      (k <= List.length us)%nat /\
      divided k size = Ok v /\
      (forall j, (j < k)%nat ->
         exists vj, divided j size = Ok vj /\ py_lt vj (Int 1024) = false) /\
      ((k < List.length us)%nat -> py_lt v (Int 1024) = true) /\
      fmt_g4 v = Ok t /\
      s = (t ++ nth k (us ++ ["YiB"]) "")%string.
Proof.
  induction us as [|u us IH]; intros size s H; cbn [format_size_loop] in H.
  - destruct (fmt_g4 size) as [t|ex] eqn:Et; [|discriminate].
    cbn [res_bind] in H. injection H as <-.
    exists 0%nat, size, t. cbn [List.length divided nth app].
    repeat split; auto; intros; lia.
  - destruct (py_lt size (Int 1024)) eqn:Elt.
    + destruct (fmt_g4 size) as [t|ex] eqn:Et; [|discriminate].
      cbn [res_bind] in H. injection H as <-.
      exists 0%nat, size, t. cbn [List.length divided nth app].
      repeat split; auto; intros; lia.
    + destruct (py_truediv size (Int 1024)) as [size'|ex] eqn:Ed; [|discriminate].
      cbn [res_bind] in H.
      destruct (IH size' s H) as (k & v & t & Hk & Hd & Hbig & Hsmall & Ht & Hs).
      exists (S k), v, t. cbn [List.length divided nth app].
      rewrite Ed. cbn [res_bind].
      split; [lia|]. split; [exact Hd|]. split; [|split; [|auto]].
      * intros [|j] Hj.
        -- exists size. auto.
        -- cbn [divided]. rewrite Ed. cbn [res_bind]. apply Hbig. lia.
      * intros Hlt. apply Hsmall. lia.
Qed.

Lemma format_size_loop_cons (u : string) (us : list string) (size : num) :
  format_size_loop (u :: us) size =
    if py_lt size (Int 1024) then s <- fmt_g4 size ;; Ok (s ++ u)%string
    else size' <- py_truediv size (Int 1024) ;; format_size_loop us size'.
Proof. reflexivity. Qed.

Lemma format_size_int_YiB (n : Z) :
  1024 ^ 8 <= n < 2 ^ 1034 - 2 ^ 980 ->
  exists t, format_size (Int n) = Ok (t ++ "YiB")%string.
Proof.
  intros [Hlo Hhi].
  change (1024 ^ 8) with 1208925819614629174706176 in Hlo.
  assert (H70 : 1024 * 2 ^ 70 <= n) by (eval_pow 70; lia).
  destruct (py_truediv_int_1024 n 70 ltac:(lia) H70 Hhi)
    as (m & e & Ed & Hn & He).
  unfold format_size, units. rewrite format_size_loop_cons.
  rewrite py_lt_int_1024 by lia.
  rewrite Ed. cbn [res_bind].
  rewrite format_size_loop_big; [eauto | exact Hn | cbn [List.length]; lia].
Qed.

Lemma format_size_float_YiB (x : spec_float) :
  valid_float x = true ->
  py_ge (Flt x) (Int (1024 ^ 8)) = true ->
  exists t, format_size (Flt x) = Ok (t ++ "YiB")%string.
Proof.
  intros Hv Hge. destruct x as [s|s| |s m e].
  - discriminate Hge.
  - destruct s; [discriminate Hge|]. exists "inf"%string. reflexivity.
  - discriminate Hge.
  - unfold py_ge in Hge. cbn [xval_of xcompare] in Hge.
    assert (Hcmp : 1024 ^ 8 * 2 ^ (0 - Z.min e 0)
                   <= signedm s m * 2 ^ (e - Z.min e 0)).
    { destruct (signedm s m * 2 ^ (e - Z.min e 0)
                ?= 1024 ^ 8 * 2 ^ (0 - Z.min e 0)) eqn:C; try discriminate.
      - apply Z.compare_eq in C. lia.
      - apply Z.compare_gt_iff in C. lia. }
    change (1024 ^ 8) with (2 ^ 80) in Hcmp.
    cbn [valid_float] in Hv.
    pose proof (pow2_pos (e - Z.min e 0) ltac:(lia)) as P1.
    pose proof (pow2_pos (0 - Z.min e 0) ltac:(lia)) as P2.
    assert (P80 : 0 < 2 ^ 80) by reflexivity.
    destruct s; [exfalso; cbn [signedm] in Hcmp; nia|]. cbn [signedm] in Hcmp.
    assert (Hm53 : Zpos m < 2 ^ 53).
    { apply orb_prop in Hv. destruct Hv as [Hv|Hv].
      - apply andb_prop in Hv. destruct Hv as [Hv _].
        apply andb_prop in Hv. destruct Hv as [Hv _].
        apply andb_prop in Hv. destruct Hv as [_ Hv].
        apply Z.ltb_lt in Hv. exact Hv.
      - apply andb_prop in Hv. destruct Hv as [Hv _].
        apply Z.ltb_lt in Hv. eval_pow 52. eval_pow 53. lia. }
    assert (He : 28 <= e).
    { destruct (Z.le_gt_cases 28 e) as [H|H]; [exact H|]. exfalso.
      destruct (Z.le_gt_cases 0 e) as [H0|H0].
      - replace (Z.min e 0) with 0 in * by lia.
        replace (e - 0) with e in * by lia.
        change (2 ^ (0 - 0)) with 1 in *.
        assert (2 ^ e <= 2 ^ 27) by (apply pow2_le; lia).
        eval_pow 80. eval_pow 53. eval_pow 27. nia.
      - replace (Z.min e 0) with e in * by lia.
        replace (e - e) with 0 in * by lia. rewrite Z.pow_0_r in Hcmp.
        assert (2 ^ 0 <= 2 ^ (0 - e)) by (apply pow2_le; lia).
        eval_pow 80. eval_pow 53. eval_pow 0. nia. }
    assert (Hn : normal m e).
    { apply orb_prop in Hv. destruct Hv as [Hv|Hv].
      - apply andb_prop in Hv. destruct Hv as [Hv H4].
        apply andb_prop in Hv. destruct Hv as [Hv H3].
        apply andb_prop in Hv. destruct Hv as [H1 H2].
        apply Z.leb_le in H1, H3, H4. apply Z.ltb_lt in H2.
        split; lia.
      - apply andb_prop in Hv. destruct Hv as [_ Hv].
        apply Z.eqb_eq in Hv. lia. }
    unfold format_size, units.
    rewrite format_size_loop_big; [eauto | exact Hn | cbn [List.length]; lia].
Qed.

(** From [2 ** 1034 - 2 ** 980] on the first division overflows. *)
Lemma format_size_int_overflow (n : Z) :
  2 ^ 1034 - 2 ^ 980 <= n ->
  format_size (Int n) =
    Raise (OverflowError "integer division result too large for a float").
Proof.
  intros Hn.
  assert (Hbig : 1024 <= n) by (eval_pow 1034; eval_pow 980; lia).
  unfold format_size, units. rewrite format_size_loop_cons.
  rewrite py_lt_int_1024 by exact Hbig.
  unfold py_truediv. cbn [Z.eqb].
  destruct (n =? 0) eqn:C; [apply Z.eqb_eq in C; lia|].
  cbn [Z.sgn Z.abs]. rewrite Z.mul_1_r, round_ratio_pos by lia.
  rewrite round_pos_overflow; [reflexivity | lia | lia |].
  eval_pow 1034. eval_pow 980. eval_pow 1025. eval_pow 971. lia.
Qed.

(** C8, counterexample: an [int] of at least [1024 ** 8] whose quotient by
    1024 is beyond the largest float does not render: the first division
    raises [OverflowError]. *)
Lemma format_size_overflow_counterexample :
  1024 ^ 8 <= 2 ^ 1034 /\
  format_size (Int (2 ^ 1034)) =
    Raise (OverflowError "integer division result too large for a float").
Proof.
  split; [vm_compute; discriminate | vm_compute; reflexivity].
Qed.

(** C8, as the code has it: [format_size] divides by 1024 from unit to unit
    (B, KiB, ..., ZiB) until the value is under 1024 or the eight units are
    used up, and returns the value to four significant digits followed by
    the label reached; 0 gives [0B], 1024 gives [1KiB], 1024 ** 2 gives
    [1MiB]; an [int] from 1024 ** 8 up to, but not including,
    2 ** 1034 - 2 ** 980 and a float of at least 1024 ** 8 (infinity
    included) render with the label [YiB]; an [int] from
    2 ** 1034 - 2 ** 980 on raises [OverflowError]. *)
Theorem format_size_spec :
  (forall (size : num) (s : string),
     format_size size = Ok s ->
     exists (k : nat) (v : num) (t : string),
       (k <= 8)%nat /\
       divided k size = Ok v /\
       (forall j, (j < k)%nat ->
          exists vj, divided j size = Ok vj /\ py_lt vj (Int 1024) = false) /\
       ((k < 8)%nat -> py_lt v (Int 1024) = true) /\
       fmt_g4 v = Ok t /\
       s = (t ++ nth k labels "")%string) /\
  format_size (Int 0) = Ok "0B"%string /\
  format_size (Int 1024) = Ok "1KiB"%string /\
  format_size (Int (1024 ^ 2)) = Ok "1MiB"%string /\
  (forall n : Z,
     1024 ^ 8 <= n < 2 ^ 1034 - 2 ^ 980 ->
     exists t, format_size (Int n) = Ok (t ++ "YiB")%string) /\
  (forall x : spec_float,
     valid_float x = true ->
     py_ge (Flt x) (Int (1024 ^ 8)) = true ->
     exists t, format_size (Flt x) = Ok (t ++ "YiB")%string) /\
  (forall n : Z,
     2 ^ 1034 - 2 ^ 980 <= n ->
     format_size (Int n) =
       Raise (OverflowError "integer division result too large for a float")).
Proof.
  split; [|split; [|split; [|split; [|split; [|split]]]]].
  - intros size s H. apply (format_size_loop_spec units size s H).
  - vm_compute. reflexivity.
  - vm_compute. reflexivity.
  - vm_compute. reflexivity.
  - apply format_size_int_YiB.
  - apply format_size_float_YiB.
  - apply format_size_int_overflow.
Qed.

Lemma format_size_spec_witness :
  exists t, format_size (Int (2 ^ 100)) = Ok (t ++ "YiB")%string.
Proof.
  apply (proj1 (proj2 (proj2 (proj2 (proj2 format_size_spec))))).
  vm_compute. split; [discriminate | reflexivity].
Defined.

(** The examples of the docstring. *)
Example format_size_docstring :
  format_size (Int 1) = Ok "1B"%string /\
  format_size (Int 1024) = Ok "1KiB"%string /\
  format_size (Int (2 ^ 100)) = Ok "1.049e+06YiB"%string.
Proof. conj_compute. Qed.

(** ** Exact sums, means and deviations *)

Lemma float_of_small_mantissa (k : Z) :
  0 < k < 2 ^ 53 ->
  exists m,
    float_of_small k = S754_finite false m (Z.log2 k - 52) /\
    Zpos m = k * 2 ^ (52 - Z.log2 k) /\
    normal m (Z.log2 k - 52) /\ 0 <= Z.log2 k <= 52.
Proof.
  intros Hk. destruct (small_normal k Hk) as (Hn & Hz & Hlg).
  exists (Z.to_pos (k * 2 ^ (52 - Z.log2 k))). auto.
Qed.

(** Adding two integers whose sum has at most 53 bits is exact. *)
Lemma fadd_small (a b : Z) :
  0 < a -> 0 < b -> a + b < 2 ^ 53 ->
  fadd (of_Z a) (of_Z b) = of_Z (a + b).
Proof.
  intros Ha Hb Hab.
  rewrite !of_Z_small by lia.
  destruct (float_of_small_mantissa a ltac:(lia)) as (ma & -> & Hma & _ & Hla).
  destruct (float_of_small_mantissa b ltac:(lia)) as (mb & -> & Hmb & _ & Hlb).
  cbn [fadd signedm]. rewrite Hma, Hmb.
  set (ea := Z.log2 a - 52). set (eb := Z.log2 b - 52).
  set (e := Z.min ea eb).
  assert (He : e <= 0) by lia.
  assert (Ea : a * 2 ^ (52 - Z.log2 a) * 2 ^ (ea - e) = a * 2 ^ (- e)).
  { rewrite <- Z.mul_assoc, <- Z.pow_add_r by lia. do 2 f_equal. lia. }
  assert (Eb : b * 2 ^ (52 - Z.log2 b) * 2 ^ (eb - e) = b * 2 ^ (- e)).
  { rewrite <- Z.mul_assoc, <- Z.pow_add_r by lia. do 2 f_equal. lia. }
  rewrite Ea, Eb. unfold round_dyadic.
  replace (Z.max 0 e) with 0 by lia. replace (Z.max 0 (- e)) with (- e) by lia.
  rewrite Z.pow_0_r, Z.mul_1_r, <- Z.mul_add_distr_r.
  pose proof (pow2_pos (- e) ltac:(lia)) as P.
  rewrite round_ratio_pos by nia.
  apply round_pos_small; lia.
Qed.

Lemma fadd_zero_l (x : spec_float) :
  is_zero x = false -> fadd (S754_zero false) x = x.
Proof. destruct x; try reflexivity. discriminate. Qed.

Lemma fadd_zero_r (x : spec_float) :
  is_zero x = false -> fadd x (S754_zero false) = x.
Proof. destruct x; try reflexivity. discriminate. Qed.

Lemma of_Z_small_not_zero (k : Z) : 0 < k < 2 ^ 53 -> is_zero (of_Z k) = false.
Proof. intros H. rewrite of_Z_small by exact H. reflexivity. Qed.

(** The same with zeros allowed. *)
Lemma fadd_exact (a b : Z) :
  0 <= a -> 0 <= b -> a + b < 2 ^ 53 ->
  fadd (of_Z a) (of_Z b) = of_Z (a + b).
Proof.
  intros Ha Hb Hab.
  destruct (Z.eq_dec a 0) as [->|Na]; destruct (Z.eq_dec b 0) as [->|Nb].
  - reflexivity.
  - change (of_Z 0) with (S754_zero false).
    rewrite fadd_zero_l by (apply of_Z_small_not_zero; lia). reflexivity.
  - change (of_Z 0) with (S754_zero false).
    rewrite fadd_zero_r by (apply of_Z_small_not_zero; lia).
    rewrite Z.add_0_r. reflexivity.
  - apply fadd_small; lia.
Qed.

(** *** Sums of non-negative integers *)

Lemma sum_Z_nonneg (l : list Z) : Forall (fun v => 0 <= v) l -> 0 <= sum_Z l.
Proof.
  induction 1 as [|x l Hx _ IH]; [reflexivity|].
  rewrite sum_Z_cons. lia.
Qed.

Lemma sum_Z_In_le (l : list Z) (x : Z) :
  Forall (fun v => 0 <= v) l -> In x l -> x <= sum_Z l.
Proof.
  induction 1 as [|y l Hy Hl IH]; intros Hin; [destruct Hin|].
  rewrite sum_Z_cons. pose proof (sum_Z_nonneg l Hl).
  destruct Hin as [->|Hin]; [lia|]. specialize (IH Hin). lia.
Qed.

Lemma Forall_firstn_skipn {A : Type} (P : A -> Prop) (n : nat) (l : list A) :
  Forall P l -> Forall P (firstn n l) /\ Forall P (skipn n l).
Proof.
  intros H. rewrite <- (firstn_skipn n l) in H.
  apply Forall_app in H. exact H.
Qed.

Lemma sum_Z_firstn_skipn (n : nat) (l : list Z) :
  sum_Z (firstn n l) + sum_Z (skipn n l) = sum_Z l.
Proof. rewrite <- sum_Z_app, firstn_skipn. reflexivity. Qed.

(** Adding one by one, from an exact start. *)
Lemma fold_fadd_exact (l : list Z) (a : Z) :
  0 <= a -> Forall (fun v => 0 <= v) l -> a + sum_Z l < 2 ^ 53 ->
  fold_left fadd (map of_Z l) (of_Z a) = of_Z (a + sum_Z l).
Proof.
  revert a. induction l as [|x l IH]; intros a Ha Hl Hb.
  - cbn [map fold_left]. change (sum_Z []) with 0. rewrite Z.add_0_r. reflexivity.
  - apply Forall_cons_iff in Hl. destruct Hl as [Hx Hl].
    pose proof (sum_Z_nonneg l Hl) as Hs.
    rewrite sum_Z_cons in Hb |- *.
    cbn [map fold_left]. rewrite fadd_exact by lia.
    rewrite IH by (assumption || lia). f_equal. lia.
Qed.

(** The accumulators stay exact. *)
Lemma add_each_length {A : Type} (add : A -> A -> A) (r a : list A) :
  List.length (add_each add r a) = List.length r.
Proof.
  revert a. induction r as [|x r IH]; intros [|y a]; cbn [add_each List.length];
    try reflexivity.
  rewrite IH. reflexivity.
Qed.

Lemma add_each_sum (r a : list Z) :
  (List.length a <= List.length r)%nat ->
  sum_Z (add_each Z.add r a) = sum_Z r + sum_Z a.
Proof.
  revert a. induction r as [|x r IH]; intros [|y a] Hl; cbn [add_each];
    cbn [List.length] in Hl; try (change (sum_Z []) with 0; lia).
  rewrite !sum_Z_cons, IH by lia. lia.
Qed.

Lemma add_each_nonneg (r a : list Z) :
  Forall (fun v => 0 <= v) r -> Forall (fun v => 0 <= v) a ->
  Forall (fun v => 0 <= v) (add_each Z.add r a).
Proof.
  intros Hr. revert a. induction Hr as [|x r Hx Hr IH]; intros a Ha.
  - destruct a; constructor.
  - destruct Ha as [|y a Hy Ha]; cbn [add_each].
    + constructor; assumption.
    + constructor; [lia | apply IH; exact Ha].
Qed.

Lemma add_each_exact (r a : list Z) :
  Forall (fun v => 0 <= v) r -> Forall (fun v => 0 <= v) a ->
  sum_Z r + sum_Z a < 2 ^ 53 ->
  add_each fadd (map of_Z r) (map of_Z a) = map of_Z (add_each Z.add r a).
Proof.
  intros Hr. revert a. induction Hr as [|x r Hx Hr IH]; intros a Ha Hb.
  - destruct a; reflexivity.
  - destruct Ha as [|y a Hy Ha]; cbn [add_each map]; [reflexivity|].
    rewrite !sum_Z_cons in Hb.
    pose proof (sum_Z_nonneg r Hr). pose proof (sum_Z_nonneg a Ha).
    rewrite fadd_exact by lia. rewrite IH by (assumption || lia). reflexivity.
Qed.

Lemma add_accumulators_exact (r : list Z) :
  List.length r = 8%nat -> Forall (fun v => 0 <= v) r -> sum_Z r < 2 ^ 53 ->
  add_accumulators fadd (S754_zero false) (map of_Z r) = of_Z (sum_Z r).
Proof.
  intros Hl Hr Hb.
  destruct r as [|r0 [|r1 [|r2 [|r3 [|r4 [|r5 [|r6 [|r7 [|r8 r]]]]]]]]];
    try discriminate Hl.
  repeat (apply Forall_cons_iff in Hr; let H := fresh "N" in destruct Hr as [H Hr]).
  rewrite !sum_Z_cons in Hb |- *. change (sum_Z []) with 0 in Hb |- *.
  cbn [map add_accumulators].
  rewrite !fadd_exact by lia. f_equal. lia.
Qed.

Lemma unrolled_exact (groups : nat) (r a : list Z) :
  List.length r = 8%nat ->
  Forall (fun v => 0 <= v) r -> Forall (fun v => 0 <= v) a ->
  sum_Z r + sum_Z a < 2 ^ 53 ->
  unrolled fadd (S754_zero false) groups (map of_Z r) (map of_Z a)
  = of_Z (sum_Z r + sum_Z a).
Proof.
  revert r a. induction groups as [|g IH]; intros r a Hl Hr Ha Hb.
  - cbn [unrolled].
    pose proof (sum_Z_nonneg r Hr). pose proof (sum_Z_nonneg a Ha).
    rewrite add_accumulators_exact by (assumption || lia).
    apply fold_fadd_exact; assumption.
  - cbn [unrolled].
    destruct (Forall_firstn_skipn _ 8 a Ha) as [Hf Hs].
    pose proof (sum_Z_firstn_skipn 8 a) as E.
    pose proof (sum_Z_nonneg r Hr). pose proof (sum_Z_nonneg _ Hf).
    pose proof (sum_Z_nonneg _ Hs).
    assert (Hlen : (List.length (firstn 8 a) <= List.length r)%nat).
    { rewrite Hl. apply firstn_le_length. }
    rewrite skipn_map, firstn_map.
    rewrite add_each_exact by (assumption || lia).
    rewrite IH.
    + rewrite add_each_sum by exact Hlen. f_equal. lia.
    + rewrite add_each_length. exact Hl.
    + apply add_each_nonneg; assumption.
    + exact Hs.
    + rewrite add_each_sum by exact Hlen. lia.
Qed.

(** numpy's pairwise sum of non-negative integers is their sum, as long as
    the sum has at most 53 bits. *)
Lemma pairwise_sum_exact (fuel : nat) (a : list Z) :
  (List.length a <= fuel)%nat ->
  Forall (fun v => 0 <= v) a -> sum_Z a < 2 ^ 53 ->
  pairwise_sum fadd (S754_zero false) fuel (map of_Z a) = of_Z (sum_Z a).
Proof.
  revert a. induction fuel as [|fuel IH]; intros a Hlen Ha Hb.
  - destruct a; [reflexivity | cbn [List.length] in Hlen; lia].
  - cbn [pairwise_sum]. rewrite length_map.
    destruct (Nat.ltb_spec (List.length a) 8) as [H8|H8].
    + change (S754_zero false) with (of_Z 0).
      rewrite fold_fadd_exact by (assumption || lia). reflexivity.
    + destruct (Nat.leb_spec (List.length a) 128) as [H128|H128].
      * destruct (Forall_firstn_skipn _ 8 a Ha) as [Hf Hs].
        rewrite skipn_map, firstn_map.
        rewrite unrolled_exact.
        -- rewrite sum_Z_firstn_skipn. reflexivity.
        -- rewrite firstn_length_le by lia. reflexivity.
        -- exact Hf.
        -- exact Hs.
        -- rewrite sum_Z_firstn_skipn. exact Hb.
      * set (n2 := (List.length a / 2 - (List.length a / 2) mod 8)%nat).
        assert (Hn2 : (0 < n2 < List.length a)%nat).
        { pose proof (Nat.div_mod_eq (List.length a) 2).
          pose proof (Nat.mod_upper_bound (List.length a) 2 ltac:(lia)).
          pose proof (Nat.mod_upper_bound (List.length a / 2) 8 ltac:(lia)).
          unfold n2. lia. }
        destruct (Forall_firstn_skipn _ n2 a Ha) as [Hf Hs].
        pose proof (sum_Z_firstn_skipn n2 a) as E.
        pose proof (sum_Z_nonneg _ Hf). pose proof (sum_Z_nonneg _ Hs).
        rewrite skipn_map, firstn_map.
        rewrite !IH; try assumption; try lia.
        -- rewrite fadd_exact by lia. f_equal. exact E.
        -- rewrite length_skipn. lia.
        -- rewrite firstn_length_le by lia. lia.
Qed.

(** The runs of a buffered reduction are the array, piece by piece. *)
Lemma buffers_concat {A : Type} (fuel : nat) (a : list A) :
  List.concat (buffers fuel a) = a.
Proof.
  revert a. induction fuel as [|fuel IH]; intros [|x a]; try reflexivity.
  - cbn [buffers List.concat]. apply app_nil_r.
  - cbn [buffers List.concat]. rewrite IH. apply firstn_skipn.
Qed.

Lemma buffers_map {A B : Type} (f : A -> B) (fuel : nat) (a : list A) :
  buffers fuel (map f a) = map (map f) (buffers fuel a).
Proof.
  revert a. induction fuel as [|fuel IH]; intros [|x a]; try reflexivity.
  cbn [buffers map].
  change (f x :: map f a) with (map f (x :: a)).
  rewrite skipn_map, firstn_map, IH. reflexivity.
Qed.

Lemma fold_runs_exact (runs : list (list Z)) (acc : Z) :
  0 <= acc -> Forall (Forall (fun v => 0 <= v)) runs ->
  acc + sum_Z (List.concat runs) < 2 ^ 53 ->
  fold_left
    (fun out run =>
       fadd out (pairwise_sum fadd (S754_zero false) (List.length run) run))
    (map (map of_Z) runs) (of_Z acc)
  = of_Z (acc + sum_Z (List.concat runs)).
Proof.
  revert acc. induction runs as [|run runs IH]; intros acc Hacc Hr Hb.
  - cbn [map fold_left List.concat]. change (sum_Z []) with 0.
    rewrite Z.add_0_r. reflexivity.
  - apply Forall_cons_iff in Hr. destruct Hr as [Hrun Hr].
    cbn [List.concat] in Hb |- *. rewrite sum_Z_app in Hb |- *.
    assert (Hrest : 0 <= sum_Z (List.concat runs))
      by (apply sum_Z_nonneg, Forall_concat; exact Hr).
    pose proof (sum_Z_nonneg run Hrun) as Hs.
    cbn [map fold_left]. rewrite length_map.
    rewrite pairwise_sum_exact by (assumption || lia).
    rewrite fadd_exact by lia.
    rewrite IH by (assumption || lia). f_equal. lia.
Qed.

(** [add.reduce] over non-negative integers converted to float64 is their
    sum, buffered or not, as long as the sum has at most 53 bits. *)
Lemma add_reduce_exact (buffered : bool) (a : list Z) :
  Forall (fun v => 0 <= v) a -> sum_Z a < 2 ^ 53 ->
  add_reduce buffered (map of_Z a) = of_Z (sum_Z a).
Proof.
  intros Ha Hb. pose proof (sum_Z_nonneg a Ha) as Hs.
  unfold add_reduce. change (S754_zero false) with (of_Z 0) at 2.
  destruct buffered.
  - rewrite length_map, buffers_map.
    rewrite fold_runs_exact; rewrite ?buffers_concat; try lia.
    + reflexivity.
    + apply Forall_concat. rewrite buffers_concat. exact Ha.
  - change [map of_Z a] with (map (map of_Z) [a]).
    rewrite fold_runs_exact; cbn [List.concat]; rewrite ?app_nil_r; try lia.
    + reflexivity.
    + constructor; [exact Ha | constructor].
Qed.

(** *** Quotients *)

Lemma ge_pow_scale (a b c k : Z) :
  0 < c -> (ge_pow (a * c) (b * c) k <-> ge_pow a b k).
Proof. intros Hc. unfold ge_pow. split; intros H; nia. Qed.

Lemma ilog2_ratio_scale (a b c : Z) :
  0 < a -> 0 < b -> 0 < c -> ilog2_ratio (a * c) (b * c) = ilog2_ratio a b.
Proof.
  intros Ha Hb Hc.
  destruct (ilog2_ratio_spec a b Ha Hb) as [HL HL1].
  apply ilog2_ratio_unique; try nia.
  - apply ge_pow_scale; assumption.
  - intros H. apply HL1. apply (ge_pow_scale a b c); assumption.
Qed.

Lemma div_rne_scale (n d c : Z) :
  0 < d -> 0 < c -> div_rne (n * c) (d * c) = div_rne n d.
Proof.
  intros Hd Hc. unfold div_rne.
  rewrite Z.div_mul_cancel_r, Z.mul_mod_distr_r by lia.
  replace (2 * (n mod d * c)) with (2 * (n mod d) * c) by ring.
  assert (E : (2 * (n mod d) * c ?= d * c) = (2 * (n mod d) ?= d)).
  { destruct (Z.compare_spec (2 * (n mod d)) d);
      [apply Z.compare_eq_iff | apply Z.compare_lt_iff | apply Z.compare_gt_iff];
      nia. }
  rewrite E. reflexivity.
Qed.

(** Rounding a quotient does not depend on the fraction that stands for
    it. *)
Lemma round_pos_scale (s : bool) (a b c : Z) :
  0 < a -> 0 < b -> 0 < c -> round_pos s (a * c) (b * c) = round_pos s a b.
Proof.
  intros Ha Hb Hc. unfold round_pos.
  rewrite ilog2_ratio_scale by assumption.
  set (e := Z.max (ilog2_ratio a b - 52) (-1074)).
  pose proof (pow2_max_pos e) as Pe.
  replace (a * c * 2 ^ Z.max 0 (- e)) with (a * 2 ^ Z.max 0 (- e) * c) by ring.
  replace (b * c * 2 ^ Z.max 0 e) with (b * 2 ^ Z.max 0 e * c) by ring.
  rewrite div_rne_scale by nia. reflexivity.
Qed.

(** Dividing two integers of at most 53 bits gives the float nearest to
    their quotient. *)
Lemma fdiv_exact (x n : Z) :
  0 <= x < 2 ^ 53 -> 0 < n < 2 ^ 53 ->
  fdiv (of_Z x) (of_Z n) = round_ratio x n.
Proof.
  intros Hx Hn.
  destruct (Z.eq_dec x 0) as [->|Nx].
  - rewrite (of_Z_small n) by lia.
    destruct (float_of_small_mantissa n ltac:(lia)) as (m & -> & _).
    reflexivity.
  - rewrite round_ratio_pos by lia.
    rewrite !of_Z_small by lia.
    destruct (float_of_small_mantissa x ltac:(lia)) as (mx & -> & Hmx & _ & Hlx).
    destruct (float_of_small_mantissa n ltac:(lia)) as (my & -> & Hmy & _ & Hly).
    cbn [fdiv xorb]. rewrite Hmx, Hmy.
    set (ex := Z.log2 x - 52). set (ey := Z.log2 n - 52).
    replace (52 - Z.log2 x) with (- ex) by lia.
    replace (52 - Z.log2 n) with (- ey) by lia.
    set (c := 2 ^ (- ey) * 2 ^ Z.max 0 (ey - ex)).
    assert (Hc : 0 < c).
    { pose proof (pow2_pos (- ey) ltac:(lia)).
      pose proof (pow2_max_pos (ey - ex)). unfold c. nia. }
    replace (n * 2 ^ (- ey) * 2 ^ Z.max 0 (ey - ex)) with (n * c)
      by (unfold c; ring).
    replace (x * 2 ^ (- ex) * 2 ^ Z.max 0 (ex - ey)) with (x * c).
    + apply round_pos_scale; lia.
    + unfold c. rewrite <- !Z.mul_assoc, <- !Z.pow_add_r by lia.
      replace (- ey + Z.max 0 (ey - ex)) with (- ex + Z.max 0 (ex - ey)) by lia.
      reflexivity.
Qed.

(** Dividing the exact sum of equal sizes by their number gives the size
    back. *)
Lemma fdiv_small (n s : Z) :
  0 < n -> 0 < s -> n * s < 2 ^ 53 ->
  fdiv (of_Z (n * s)) (of_Z n) = of_Z s.
Proof.
  intros Hn Hs Hb.
  rewrite fdiv_exact by nia. rewrite round_ratio_pos by nia.
  rewrite (Z.mul_comm n s), round_pos_small by nia.
  symmetry. apply of_Z_small. nia.
Qed.

(** *** Differences and squares *)

Lemma round_ratio_neg (a b : Z) : a < 0 -> round_ratio a b = round_pos true (- a) b.
Proof. intros Ha. destruct a; try lia. reflexivity. Qed.

Lemma round_pos_fopp (s : bool) (a b : Z) :
  fopp (round_pos s a b) = round_pos (negb s) a b.
Proof.
  unfold round_pos.
  destruct (if _ =? _ then 2 ^ 52 else _) as [|q|q]; try reflexivity.
  destruct (_ <=? 971); reflexivity.
Qed.

Lemma of_Z_opp (n : Z) : n <> 0 -> of_Z (- n) = fopp (of_Z n).
Proof.
  intros Hn. unfold of_Z, round_ratio. destruct n as [|p|p]; [congruence| |].
  - cbn [Z.opp]. rewrite round_pos_fopp. reflexivity.
  - cbn [Z.opp]. rewrite round_pos_fopp. reflexivity.
Qed.

Lemma fsub_self (m : positive) (e : Z) :
  fsub (S754_finite false m e) (S754_finite false m e) = S754_zero false.
Proof.
  unfold fsub. cbn [fopp negb fadd signedm].
  replace (e - Z.min e e) with 0 by lia. rewrite Z.pow_0_r.
  replace (Z.pos m * 1 + Z.neg m * 1) with 0 by lia.
  reflexivity.
Qed.

(** The difference of two non-negative integers of at most 53 bits is
    exact. *)
Lemma fsub_exact (a b : Z) :
  0 <= a < 2 ^ 53 -> 0 <= b < 2 ^ 53 ->
  fsub (of_Z a) (of_Z b) = of_Z (a - b).
Proof.
  intros Ha Hb.
  destruct (Z.eq_dec b 0) as [->|Nb].
  { rewrite Z.sub_0_r. destruct (Z.eq_dec a 0) as [->|Na]; [reflexivity|].
    rewrite of_Z_small by lia.
    destruct (float_of_small_mantissa a ltac:(lia)) as (m & -> & _).
    reflexivity. }
  destruct (Z.eq_dec a 0) as [->|Na].
  { rewrite Z.sub_0_l, of_Z_opp by exact Nb.
    rewrite (of_Z_small b) by lia.
    destruct (float_of_small_mantissa b ltac:(lia)) as (m & -> & _).
    reflexivity. }
  destruct (Z.eq_dec a b) as [->|Nab].
  { rewrite Z.sub_diag, (of_Z_small b) by lia.
    destruct (float_of_small_mantissa b ltac:(lia)) as (m & -> & _).
    apply fsub_self. }
  assert (Hd : of_Z (a - b) =
               if a - b <? 0 then fopp (float_of_small (b - a))
               else float_of_small (a - b)).
  { destruct (Z.ltb_spec (a - b) 0) as [Hlt|Hge].
    - replace (a - b) with (- (b - a)) by lia.
      rewrite of_Z_opp, of_Z_small by lia. reflexivity.
    - apply of_Z_small. lia. }
  rewrite Hd. rewrite !of_Z_small by lia.
  destruct (float_of_small_mantissa a ltac:(lia)) as (ma & -> & Hma & _ & Hla).
  destruct (float_of_small_mantissa b ltac:(lia)) as (mb & -> & Hmb & _ & Hlb).
  unfold fsub. cbn [fopp negb fadd signedm].
  change (Z.neg mb) with (- Z.pos mb). rewrite Hma, Hmb.
  set (ea := Z.log2 a - 52). set (eb := Z.log2 b - 52).
  set (e := Z.min ea eb).
  assert (He : e <= 0) by lia.
  assert (Ea : a * 2 ^ (52 - Z.log2 a) * 2 ^ (ea - e) = a * 2 ^ (- e)).
  { rewrite <- Z.mul_assoc, <- Z.pow_add_r by lia. do 2 f_equal. lia. }
  assert (Eb : b * 2 ^ (52 - Z.log2 b) * 2 ^ (eb - e) = b * 2 ^ (- e)).
  { rewrite <- Z.mul_assoc, <- Z.pow_add_r by lia. do 2 f_equal. lia. }
  rewrite Z.mul_opp_l, Ea, Eb. unfold round_dyadic.
  replace (Z.max 0 e) with 0 by lia. replace (Z.max 0 (- e)) with (- e) by lia.
  rewrite Z.pow_0_r, Z.mul_1_r.
  pose proof (pow2_pos (- e) ltac:(lia)) as P.
  replace (a * 2 ^ (- e) + - (b * 2 ^ (- e))) with ((a - b) * 2 ^ (- e)) by ring.
  destruct (Z.ltb_spec (a - b) 0) as [Hlt|Hge].
  - rewrite round_ratio_neg by nia.
    replace (- ((a - b) * 2 ^ (- e))) with ((b - a) * 2 ^ (- e)) by ring.
    rewrite <- (round_pos_small (b - a) (2 ^ (- e))) by lia.
    rewrite round_pos_fopp. reflexivity.
  - rewrite round_ratio_pos by nia.
    apply round_pos_small; lia.
Qed.

(** The square of an integer is exact when it has at most 53 bits. *)
Lemma fmul_square_small (d : Z) :
  0 < d -> d * d < 2 ^ 53 ->
  fmul (of_Z d) (of_Z d) = of_Z (d * d).
Proof.
  intros Hd Hb.
  rewrite (of_Z_small (d * d)) by nia.
  rewrite (of_Z_small d) by nia.
  destruct (float_of_small_mantissa d ltac:(nia)) as (m & -> & Hm & _ & Hl).
  cbn [fmul xorb].
  set (e := Z.log2 d - 52) in *.
  replace (Z.max 0 (e + e)) with 0 by lia.
  replace (Z.max 0 (- (e + e))) with (- e + - e) by lia.
  rewrite Z.pow_0_r, Z.mul_1_r, Pos2Z.inj_mul, Hm.
  replace (52 - Z.log2 d) with (- e) by lia.
  pose proof (pow2_pos (- e) ltac:(lia)) as P.
  replace (d * 2 ^ (- e) * (d * 2 ^ (- e))) with (d * d * 2 ^ (- e + - e))
    by (rewrite Z.pow_add_r by lia; ring).
  apply round_pos_small; [nia|].
  apply pow2_pos. lia.
Qed.

Lemma fmul_fopp_fopp (x : spec_float) :
  fmul (fopp x) (fopp x) = fmul x x.
Proof. destruct x as [[]|[]| |[] m e]; reflexivity. Qed.

Lemma fmul_square_exact (d : Z) :
  d * d < 2 ^ 53 -> fmul (of_Z d) (of_Z d) = of_Z (d * d).
Proof.
  intros Hb.
  destruct (Z.lt_trichotomy d 0) as [H|[->|H]].
  - replace d with (- - d) at 1 2 by lia.
    rewrite of_Z_opp, fmul_fopp_fopp by lia.
    replace (d * d) with (- d * - d) in * by ring.
    apply fmul_square_small; lia.
  - reflexivity.
  - apply fmul_square_small; assumption.
Qed.

(** *** The mean and the variance *)

Lemma array_dtype_int64 (a : list Z) :
  a <> [] ->
  Forall (fun v => - 2 ^ 63 <= v < 2 ^ 63) a -> array_dtype a = int64.
Proof.
  intros Hne H. unfold array_dtype.
  destruct a as [|x a']; [congruence|]. set (a := x :: a') in *.
  assert (E : forallb (fun v => (- 2 ^ 63 <=? v) && (v <? 2 ^ 63)) a = true).
  { apply forallb_forall. intros v Hv.
    rewrite Forall_forall in H. specialize (H v Hv).
    apply andb_true_iff. split; [apply Z.leb_le | apply Z.ltb_lt]; lia. }
  rewrite E. reflexivity.
Qed.

Lemma small_sizes_int64 (a : list Z) :
  a <> [] ->
  Forall (fun v => 0 <= v) a -> sum_Z a < 2 ^ 53 -> array_dtype a = int64.
Proof.
  intros Hne Ha Hb. apply array_dtype_int64; [exact Hne|].
  apply Forall_forall. intros v Hv.
  pose proof (sum_Z_In_le a v Ha Hv).
  rewrite Forall_forall in Ha. specialize (Ha v Hv). lia.
Qed.

Lemma sum_f8_exact (a : list Z) :
  Forall (fun v => 0 <= v) a -> sum_Z a < 2 ^ 53 ->
  sum_f8 a = of_Z (sum_Z a).
Proof. intros Ha Hb. unfold sum_f8. apply add_reduce_exact; assumption. Qed.

(** The mean of non-negative sizes whose sum has at most 53 bits is the
    float nearest to the exact mean. *)
Lemma np_average_exact (a : list Z) :
  a <> [] -> Forall (fun v => 0 <= v) a ->
  sum_Z a < 2 ^ 53 -> Z.of_nat (List.length a) < 2 ^ 53 ->
  np_average a = Ok (round_ratio (sum_Z a) (Z.of_nat (List.length a))).
Proof.
  intros Hne Ha Hb Hn.
  assert (Hlen : 0 < Z.of_nat (List.length a))
    by (destruct a; [congruence | cbn [List.length]; lia]).
  pose proof (sum_Z_nonneg a Ha) as Hs.
  unfold np_average, mean.
  rewrite small_sizes_int64, sum_f8_exact by assumption.
  rewrite fdiv_exact by lia. reflexivity.
Qed.

(** When the mean is an integer [mu] and the squared deviations add up to
    at most 53 bits, the variance is the float nearest to the exact mean
    of the squared deviations. *)
Lemma np_var_exact (a : list Z) (mu : Z) :
  a <> [] -> Forall (fun v => 0 <= v) a ->
  sum_Z a < 2 ^ 53 -> Z.of_nat (List.length a) < 2 ^ 53 ->
  sum_Z a = mu * Z.of_nat (List.length a) ->
  sum_Z (map (fun v => (v - mu) * (v - mu)) a) < 2 ^ 53 ->
  np_var a =
    Ok (round_ratio (sum_Z (map (fun v => (v - mu) * (v - mu)) a))
          (Z.of_nat (List.length a))).
Proof.
  intros Hne Ha Hb Hn Hmu Hsq.
  assert (Hlen : 0 < Z.of_nat (List.length a))
    by (destruct a; [congruence | cbn [List.length]; lia]).
  pose proof (sum_Z_nonneg a Ha) as Hs.
  assert (Hmu0 : 0 <= mu < 2 ^ 53) by nia.
  assert (Hmean : mean a = Ok (of_Z mu)).
  { change (mean a) with (np_average a).
    rewrite np_average_exact by assumption. f_equal.
    destruct (Z.eq_dec mu 0) as [->|Nmu].
    - rewrite Hmu. reflexivity.
    - rewrite Hmu, round_ratio_pos by nia.
      rewrite round_pos_small by lia. symmetry. apply of_Z_small. lia. }
  assert (Hsqs : Forall (fun v => 0 <= v) (map (fun v => (v - mu) * (v - mu)) a)).
  { apply Forall_forall. intros q Hq. apply in_map_iff in Hq.
    destruct Hq as (v & <- & _). apply Z.square_nonneg. }
  unfold np_var. rewrite Hmean. cbn [res_bind].
  rewrite small_sizes_int64 by assumption.
  rewrite map_map.
  rewrite (map_ext_in _ (fun v => of_Z ((v - mu) * (v - mu)))).
  - rewrite <- (map_map (fun v => (v - mu) * (v - mu)) of_Z).
    rewrite add_reduce_exact by assumption.
    rewrite fdiv_exact; [reflexivity | | lia].
    split; [apply sum_Z_nonneg; exact Hsqs | exact Hsq].
  - intros v Hv.
    pose proof (sum_Z_In_le a v Ha Hv) as Hle.
    assert (H0 : 0 <= v) by (rewrite Forall_forall in Ha; exact (Ha v Hv)).
    rewrite fsub_exact by lia.
    apply fmul_square_exact.
    assert (Hin : In ((v - mu) * (v - mu)) (map (fun v => (v - mu) * (v - mu)) a))
      by (apply in_map_iff; exists v; auto).
    pose proof (sum_Z_In_le _ _ Hsqs Hin). lia.
Qed.

(** Eight sizes are added in pairs. *)
Lemma add_reduce_eight (buffered : bool) (f0 f1 f2 f3 f4 f5 f6 f7 : spec_float) :
  add_reduce buffered [f0; f1; f2; f3; f4; f5; f6; f7] =
    fadd (S754_zero false)
      (fadd (fadd (fadd f0 f1) (fadd f2 f3)) (fadd (fadd f4 f5) (fadd f6 f7))).
Proof. destruct buffered; reflexivity. Qed.

Lemma np_average_eight (x0 x1 x2 x3 x4 x5 x6 x7 : Z) :
  Forall (fun v => - 2 ^ 63 <= v < 2 ^ 63) [x0; x1; x2; x3; x4; x5; x6; x7] ->
  np_average [x0; x1; x2; x3; x4; x5; x6; x7] =
    Ok (fdiv
          (fadd (S754_zero false)
             (fadd (fadd (fadd (of_Z x0) (of_Z x1)) (fadd (of_Z x2) (of_Z x3)))
                   (fadd (fadd (of_Z x4) (of_Z x5)) (fadd (of_Z x6) (of_Z x7)))))
          (of_Z 8)).
Proof.
  intros H. unfold np_average, mean, sum_f8.
  rewrite array_dtype_int64 by (discriminate || exact H). cbn [map].
  rewrite add_reduce_eight. reflexivity.
Qed.

Lemma map_repeat {A B : Type} (f : A -> B) (x : A) (n : nat) :
  map f (repeat x n) = repeat (f x) n.
Proof. induction n as [|n IH]; simpl; [reflexivity | rewrite IH; reflexivity]. Qed.

Lemma sum_Z_repeat (s : Z) (n : nat) : sum_Z (repeat s n) = Z.of_nat n * s.
Proof.
  induction n as [|n IH]; [reflexivity|].
  cbn [repeat]. rewrite sum_Z_cons, IH. lia.
Qed.

(** The mean of [n] equal sizes is the size and their variance is zero, as
    long as the float64 sum is exact. *)
Lemma np_stats_repeat (s : Z) (n : nat) :
  (0 < n)%nat -> 0 <= s -> Z.of_nat n < 2 ^ 53 -> Z.of_nat n * s < 2 ^ 53 ->
  np_average (repeat s n) = Ok (of_Z s) /\
  np_var (repeat s n) = Ok (S754_zero false).
Proof.
  intros Hn Hs HN Hb.
  assert (Hne : repeat s n <> []) by (destruct n; [lia | discriminate]).
  assert (Ha : Forall (fun v => 0 <= v) (repeat s n)).
  { apply Forall_forall. intros v Hv. apply repeat_spec in Hv. lia. }
  assert (Hsq : sum_Z (map (fun v => (v - s) * (v - s)) (repeat s n)) = 0).
  { rewrite map_repeat, sum_Z_repeat. nia. }
  split.
  - rewrite np_average_exact;
      rewrite ?sum_Z_repeat, ?repeat_length; try assumption.
    f_equal. destruct (Z.eq_dec s 0) as [->|Ns].
    + rewrite Z.mul_0_r. reflexivity.
    + rewrite round_ratio_pos by nia.
      rewrite (Z.mul_comm (Z.of_nat n) s), round_pos_small by lia.
      symmetry. apply of_Z_small. nia.
  - rewrite (np_var_exact _ s);
      rewrite ?sum_Z_repeat, ?repeat_length, ?Hsq; try assumption; try lia.
    reflexivity.
Qed.

(** ** Signs *)

Lemma round_pos_sign (s : bool) (a b : Z) :
  round_pos s a b <> S754_nan /\ sign_of (round_pos s a b) = s.
Proof.
  unfold round_pos.
  destruct (if _ =? _ then 2 ^ 52 else _) as [|p|p]; simpl;
    try (split; [discriminate | reflexivity]).
  destruct (_ <=? 971); simpl; split; try discriminate; reflexivity.
Qed.

Lemma round_pos_plus (a b : Z) : plus_signed (round_pos false a b) = true.
Proof.
  destruct (round_pos_sign false a b) as [Hn Hs].
  destruct (round_pos false a b) as [s|s| |s m e]; simpl in *; subst;
    try reflexivity; congruence.
Qed.

Lemma of_Z_plus (n : Z) : 0 <= n -> plus_signed (of_Z n) = true.
Proof.
  intros H. unfold of_Z, round_ratio. destruct n as [|p|p]; try lia.
  - reflexivity.
  - apply round_pos_plus.
Qed.

Lemma sqrt_domain_plus (x : spec_float) : plus_signed x = true -> sqrt_domain x = true.
Proof. destruct x as [[|]|[|]| |[|] m e]; simpl; congruence. Qed.

Lemma fmul_square_domain (d : spec_float) :
  d = S754_nan \/ plus_signed (fmul d d) = true.
Proof.
  destruct d as [s|s| |s m e]; simpl; auto; right.
  - destruct s; reflexivity.
  - destruct s; reflexivity.
  - rewrite xorb_nilpotent. apply round_pos_plus.
Qed.

Lemma fadd_nan_l (y : spec_float) : fadd S754_nan y = S754_nan.
Proof. reflexivity. Qed.

Lemma fadd_nan_r (x : spec_float) : fadd x S754_nan = S754_nan.
Proof. destruct x as [s|s| |s m e]; reflexivity. Qed.

Lemma fadd_plus (x y : spec_float) :
  plus_signed x = true -> plus_signed y = true -> plus_signed (fadd x y) = true.
Proof.
  destruct x as [[|]|[|]| |[|] mx ex]; cbn [plus_signed negb]; try discriminate;
    destruct y as [[|]|[|]| |[|] my ey];
    cbn [plus_signed negb fadd Bool.eqb andb]; try discriminate; auto.
  intros _ _. unfold round_dyadic, signedm.
  set (e := Z.min ex ey).
  assert (H1 : 0 < 2 ^ (ex - e)) by (apply pow2_pos; lia).
  assert (H2 : 0 < 2 ^ (ey - e)) by (apply pow2_pos; lia).
  pose proof (pow2_max_pos e) as H3.
  rewrite round_ratio_pos by nia. apply round_pos_plus.
Qed.

(** Sums of squares: a NaN or a float with the sign bit clear stays one
    under addition, in whatever order the terms are added. *)
Lemma fadd_no_minus (x y : spec_float) :
  no_minus x -> no_minus y -> no_minus (fadd x y).
Proof.
  intros [->|Hx] [->|Hy].
  - left. reflexivity.
  - left. reflexivity.
  - left. apply fadd_nan_r.
  - right. apply fadd_plus; assumption.
Qed.

Lemma squares_no_minus (l : list spec_float) :
  Forall no_minus (map (fun d => fmul d d) l).
Proof.
  apply Forall_forall. intros x Hx. apply in_map_iff in Hx.
  destruct Hx as (d & <- & _).
  destruct (fmul_square_domain d) as [->|Hd]; [left; reflexivity | right; exact Hd].
Qed.

Section closed_sums.

Context {A : Type} (add : A -> A -> A) (zero : A) (P : A -> Prop).
Hypothesis P_add : forall x y, P x -> P y -> P (add x y).
Hypothesis P_zero : P zero.

Lemma fold_left_closed (l : list A) (acc : A) :
  Forall P l -> P acc -> P (fold_left add l acc).
Proof.
  intros Hl. revert acc. induction Hl as [|x l Hx _ IH]; intros acc Hacc.
  - exact Hacc.
  - cbn [fold_left]. apply IH, P_add; assumption.
Qed.

Lemma add_each_closed (r a : list A) :
  Forall P r -> Forall P a -> Forall P (add_each add r a).
Proof.
  intros Hr. revert a. induction Hr as [|x r Hx Hr IH]; intros a Ha.
  - destruct a; constructor.
  - destruct Ha as [|y a Hy Ha]; cbn [add_each].
    + constructor; assumption.
    + constructor; [apply P_add; assumption | apply IH; exact Ha].
Qed.

Lemma add_accumulators_closed (r : list A) :
  Forall P r -> P (add_accumulators add zero r).
Proof.
  intros Hr.
  destruct r as [|r0 [|r1 [|r2 [|r3 [|r4 [|r5 [|r6 [|r7 [|r8 r]]]]]]]]];
    try exact P_zero.
  repeat (apply Forall_cons_iff in Hr; let H := fresh "N" in destruct Hr as [H Hr]).
  cbn [add_accumulators]. repeat apply P_add; assumption.
Qed.

Lemma unrolled_closed (groups : nat) (r a : list A) :
  Forall P r -> Forall P a -> P (unrolled add zero groups r a).
Proof.
  revert r a. induction groups as [|g IH]; intros r a Hr Ha; cbn [unrolled].
  - apply fold_left_closed; [exact Ha | apply add_accumulators_closed; exact Hr].
  - destruct (Forall_firstn_skipn P 8 a Ha) as [Hf Hs].
    apply IH; [apply add_each_closed; assumption | exact Hs].
Qed.

Lemma pairwise_sum_closed (fuel : nat) (a : list A) :
  Forall P a -> P (pairwise_sum add zero fuel a).
Proof.
  revert a. induction fuel as [|fuel IH]; intros a Ha; cbn [pairwise_sum];
    destruct (List.length a <? 8)%nat;
    try (apply fold_left_closed; assumption);
    destruct (List.length a <=? 128)%nat;
    try (destruct (Forall_firstn_skipn P 8 a Ha) as [Hf Hs];
         apply unrolled_closed; assumption).
  - exact P_zero.
  - match goal with
    | |- P (add (pairwise_sum _ _ _ (firstn ?n a)) _) =>
        destruct (Forall_firstn_skipn P n a Ha) as [Hf Hs]
    end.
    apply P_add; apply IH; assumption.
Qed.

End closed_sums.

Lemma add_reduce_no_minus (buffered : bool) (a : list spec_float) :
  Forall no_minus a -> no_minus (add_reduce buffered a).
Proof.
  intros Ha. unfold add_reduce.
  assert (Hz : no_minus (S754_zero false)) by (right; reflexivity).
  assert (G : forall runs acc,
             Forall (Forall no_minus) runs -> no_minus acc ->
             no_minus
               (fold_left
                  (fun out run =>
                     fadd out
                       (pairwise_sum fadd (S754_zero false) (List.length run) run))
                  runs acc)).
  { induction runs as [|run runs IH]; intros acc Hr Hacc; [exact Hacc|].
    apply Forall_cons_iff in Hr. destruct Hr as [Hrun Hr].
    cbn [fold_left]. apply IH; [exact Hr|].
    apply fadd_no_minus; [exact Hacc|].
    apply pairwise_sum_closed; [exact fadd_no_minus | exact Hz | exact Hrun]. }
  apply G; [|exact Hz].
  destruct buffered.
  - apply Forall_concat. rewrite buffers_concat. exact Ha.
  - constructor; [exact Ha | constructor].
Qed.

Lemma fdiv_plus_domain (x y : spec_float) :
  no_minus x -> plus_signed y = true -> sqrt_domain (fdiv x y) = true.
Proof.
  intros [->|Hx] Hy; [reflexivity|].
  destruct x as [[|]|[|]| |[|] mx ex]; simpl in Hx; try discriminate;
    destruct y as [[|]|[|]| |[|] my ey]; simpl in Hy; try discriminate;
    try reflexivity.
  simpl. apply sqrt_domain_plus, round_pos_plus.
Qed.

(** A variance [np.var] returns is a sum of squares divided by a count: it
    is in the domain of the square root. *)
Lemma np_var_sqrt_domain (others : list Z) (v : spec_float) :
  np_var others = Ok v -> sqrt_domain v = true.
Proof.
  unfold np_var. destruct (mean others) as [arrmean|e]; [|discriminate].
  cbn [res_bind].
  assert (Hn : plus_signed (of_Z (Z.of_nat (List.length others))) = true)
    by (apply of_Z_plus; lia).
  assert (Hreg : forall x : list spec_float,
             Ok (fdiv (add_reduce false (map (fun d => fmul d d) x))
                   (of_Z (Z.of_nat (List.length others)))) = Ok v ->
             sqrt_domain v = true).
  { intros x E. injection E as <-.
    apply fdiv_plus_domain; [|exact Hn].
    apply add_reduce_no_minus, squares_no_minus. }
  destruct (array_dtype others); try apply Hreg.
  destruct (map_res _ others) as [x|e]; [|discriminate].
  cbn [res_bind]. intros E. injection E as <-.
  apply fdiv_plus_domain; [|exact Hn].
  pose proof (squares_no_minus x) as Hsq.
  destruct (map (fun d => fmul d d) x) as [|x0 x'].
  - right. reflexivity.
  - apply Forall_cons_iff in Hsq. destruct Hsq as [H0 Hsq].
    apply fold_left_closed; [exact fadd_no_minus | exact Hsq | exact H0].
Qed.

Lemma math_sqrt_in_domain (x : spec_float) :
  sqrt_domain x = true -> math_sqrt x = Ok (fsqrt x).
Proof.
  intros H. unfold math_sqrt.
  destruct x as [s|[|]| |[|] m e]; try reflexivity; discriminate H.
Qed.

Lemma math_sqrt_np_var (others : list Z) (v : spec_float) :
  np_var others = Ok v -> math_sqrt v = Ok (fsqrt v).
Proof. intros H. eapply math_sqrt_in_domain, np_var_sqrt_domain, H. Qed.

(** ** Sorting *)

Section sorting.
Context {A : Type} (key : A -> Z).

Lemma insert_desc_perm (x : A) (l : list A) :
  Permutation (insert_desc key x l) (x :: l).
Proof.
  induction l as [|y l IH]; simpl.
  - apply Permutation_refl.
  - destruct (key x <? key y).
    + eapply Permutation_trans; [apply perm_skip, IH | apply perm_swap].
    + apply Permutation_refl.
Qed.

Lemma sorted_desc_perm (l : list A) : Permutation (sorted_desc key l) l.
Proof.
  induction l as [|x l IH]; simpl.
  - constructor.
  - eapply Permutation_trans; [apply insert_desc_perm | apply perm_skip, IH].
Qed.

Lemma insert_desc_sorted (x : A) (l : list A) :
  StronglySorted (fun a b => key b <= key a) l ->
  StronglySorted (fun a b => key b <= key a) (insert_desc key x l).
Proof.
  induction 1 as [|y l Hs IH Hy]; simpl.
  - constructor; constructor.
  - destruct (key x <? key y) eqn:E.
    + apply Z.ltb_lt in E. constructor; [exact IH|].
      eapply Permutation_Forall;
        [apply Permutation_sym, insert_desc_perm|].
      constructor; [lia | exact Hy].
    + apply Z.ltb_ge in E. constructor.
      * constructor; assumption.
      * constructor; [exact E|].
        eapply Forall_impl; [|exact Hy]. simpl. intros; lia.
Qed.

Lemma sorted_desc_sorted (l : list A) :
  StronglySorted (fun a b => key b <= key a) (sorted_desc key l).
Proof.
  induction l as [|x l IH]; simpl.
  - constructor.
  - apply insert_desc_sorted, IH.
Qed.

Lemma sorted_desc_length (l : list A) :
  List.length (sorted_desc key l) = List.length l.
Proof. apply Permutation_length, sorted_desc_perm. Qed.

Lemma sorted_desc_nil_inv (l : list A) : sorted_desc key l = [] -> l = [].
Proof.
  intros H. apply (f_equal (@List.length A)) in H.
  rewrite sorted_desc_length in H. destruct l; [reflexivity | discriminate].
Qed.
End sorting.

Lemma insert_desc_map {A B : Type} (key : B -> Z) (f : A -> B) (x : A)
    (l : list A) :
  insert_desc key (f x) (map f l) = map f (insert_desc (fun a => key (f a)) x l).
Proof.
  induction l as [|y l IH]; simpl.
  - reflexivity.
  - destruct (key (f x) <? key (f y)); simpl; [rewrite IH|]; reflexivity.
Qed.

(** Sorting children paired with something sorts the children. *)
Lemma sorted_desc_map {A B : Type} (key : B -> Z) (f : A -> B) (l : list A) :
  sorted_desc key (map f l) = map f (sorted_desc (fun a => key (f a)) l).
Proof.
  induction l as [|x l IH]; simpl.
  - reflexivity.
  - rewrite IH. apply insert_desc_map.
Qed.

(** ** The loop over the sorted children *)

Lemma for_children_map {S : Type} (render : node -> M S unit) (min_size : num)
    (l : list node) (others : list Z) :
  for_children min_size (map (fun sub => (node_size sub, render sub)) l) others
  = for_subpaths render min_size l others.
Proof.
  revert others. induction l as [|x l IH]; intros others; simpl.
  - reflexivity.
  - destruct (py_ge (Int (node_size x)) min_size).
    + unfold st_bind. rewrite IH. reflexivity.
    + apply IH.
Qed.

(** The loop renders the admitted children in order and collects the sizes
    of the others, in order. *)
Lemma for_subpaths_split {S : Type} (render : node -> M S unit) (min_size : num)
    (l : list node) (others : list Z) (s : S) :
  for_subpaths render min_size l others s =
    (for_each render
       (filter (fun c => py_ge (Int (node_size c)) min_size) l) ;>
     st_ret (others ++
               map node_size
                 (filter (fun c => negb (py_ge (Int (node_size c)) min_size)) l))%list)
      s.
Proof.
  revert others s. induction l as [|x l IH]; intros others s; simpl.
  - unfold st_bind, st_ret. simpl. rewrite app_nil_r. reflexivity.
  - destruct (py_ge (Int (node_size x)) min_size); simpl.
    + unfold st_bind at 1 2 3. destruct (render x s) as [[[]|e] s1].
      * rewrite IH. reflexivity.
      * reflexivity.
    + rewrite IH. rewrite <- app_assoc. reflexivity.
Qed.

(** ** The renderers, one directory at a time *)

Lemma st_bind_ext {S A B : Type} (m : M S A) (k1 k2 : A -> M S B) :
  (forall a s, k1 a s = k2 a s) ->
  forall s, st_bind m k1 s = st_bind m k2 s.
Proof.
  intros H s. unfold st_bind. destruct (m s) as [[a|e] s']; [apply H | reflexivity].
Qed.

Lemma print_tree_Directory (name : string) (size : Z) (content : list node)
    (threshold : num) (level : nat) (file : string) :
  print_tree (Directory name size content) threshold level file =
    (line <~ lift (tree_header (Directory name size content) (str_mul "|" level)) ;;
     print line ;>
     match sorted_desc node_size content with
     | [] => print (str_mul "|" level ++ "  (empty)")
     | _ :: _ =>
         min_size <~ lift (min_size_of size threshold (List.length content)) ;;
         others <~ for_subpaths (fun sub => print_tree sub threshold (S level))
                     min_size (sorted_desc node_size content) [] ;;
         match others with
         | [] => st_ret tt
         | _ :: _ =>
             line <~ lift (others_line (str_mul "|" level) others) ;; print line
         end
     end) file.
Proof.
  cbn [print_tree].
  rewrite (sorted_desc_map fst
             (fun sub => (node_size sub, print_tree sub threshold (S level)))).
  cbn [fst].
  change (fun a : node => node_size a) with node_size.
  apply st_bind_ext; intros ? ?. apply st_bind_ext; intros ? ?.
  destruct (sorted_desc node_size content) as [|c0 l] eqn:E.
  - reflexivity.
  - cbn [map].
    change ((node_size c0, print_tree c0 threshold (S level))
              :: map (fun sub => (node_size sub, print_tree sub threshold (S level))) l)
      with (map (fun sub => (node_size sub, print_tree sub threshold (S level)))
              (c0 :: l)).
    rewrite length_map, <- E, sorted_desc_length.
    apply st_bind_ext; intros ? ?. rewrite for_children_map. reflexivity.
Qed.

Lemma print_html_tree_elements_Directory (name : string) (size : Z)
    (content : list node) (threshold : num) (level : nat) (st : hstate) :
  print_html_tree_elements (Directory name size content) threshold level st =
    (builder_write (FolderOpen (str_mul " " level)) ;>
     id <~ counter_next ;;
     fs <~ lift (format_size (Int size)) ;;
     builder_write (FolderLabel (str_mul " " level) id (html_escape name)
                      (html_escape fs)) ;>
     min_size <~ match sorted_desc node_size content with
                 | [] => builder_write (EmptyDiv (str_mul " " level)) ;>
                         st_ret (Int 0)
                 | _ :: _ =>
                     lift (min_size_of size threshold (List.length content))
                 end ;;
     others <~ for_subpaths
                 (fun sub => print_html_tree_elements sub threshold (S level))
                 min_size (sorted_desc node_size content) [] ;;
     match others with
     | [] => st_ret tt
     | _ :: _ =>
         line <~ lift (others_div (str_mul " " level) others) ;;
         builder_write line
     end ;>
     builder_write (FolderClose (str_mul " " level))) st.
Proof.
  cbn [print_html_tree_elements].
  rewrite (sorted_desc_map fst
             (fun sub =>
                (node_size sub, print_html_tree_elements sub threshold (S level)))).
  cbn [fst].
  change (fun a : node => node_size a) with node_size.
  do 4 (apply st_bind_ext; intros ? ?).
  destruct (sorted_desc node_size content) as [|c0 l] eqn:E.
  - cbn [map]. apply st_bind_ext; intros ? ?. reflexivity.
  - cbn [map].
    change ((node_size c0, print_html_tree_elements c0 threshold (S level))
              :: map (fun sub =>
                        (node_size sub,
                         print_html_tree_elements sub threshold (S level))) l)
      with (map (fun sub =>
                   (node_size sub, print_html_tree_elements sub threshold (S level)))
              (c0 :: l)).
    rewrite length_map, <- E, sorted_desc_length.
    apply st_bind_ext; intros ? ?. rewrite for_children_map. reflexivity.
Qed.

Lemma st_bind_ret_then {S A B : Type} (m : M S unit) (v : A) (k : A -> M S B)
    (s : S) :
  st_bind (st_bind m (fun _ => st_ret v)) k s = st_bind m (fun _ => k v) s.
Proof.
  unfold st_bind, st_ret. destruct (m s) as [[[]|e] s']; reflexivity.
Qed.

Lemma for_subpaths_shown_deferred {S B : Type} (render : node -> M S unit)
    (min_size : num) (content : list node) (k : list Z -> M S B) (s : S) :
  (others <~ for_subpaths render min_size (sorted_desc node_size content) [] ;;
   k others) s =
  (for_each render (shown min_size content) ;> k (deferred min_size content)) s.
Proof.
  unfold shown, deferred.
  rewrite <- (st_bind_ret_then
                (for_each render
                   (filter (fun c => py_ge (Int (node_size c)) min_size)
                      (sorted_desc node_size content)))).
  unfold st_bind at 1 3.
  rewrite for_subpaths_split. reflexivity.
Qed.

(** The plain-text renderer on a directory that has children. *)
Lemma print_tree_rule (name : string) (size : Z) (content : list node)
    (threshold : num) (level : nat) (file : string) :
  content <> [] ->
  print_tree (Directory name size content) threshold level file =
    (line <~ lift (tree_header (Directory name size content)
                     (str_mul "|" level)) ;;
     print line ;>
     min_size <~ lift (x <- py_mul (Int size) threshold ;;
                       py_truediv x (Int (Z.of_nat (List.length content)))) ;;
     for_each (fun sub => print_tree sub threshold (S level))
       (shown min_size content) ;>
     match deferred min_size content with
     | [] => st_ret tt
     | _ :: _ =>
         line <~ lift (others_line (str_mul "|" level)
                         (deferred min_size content)) ;;
         print line
     end) file.
Proof.
  intros Hne.
  assert (Hs : sorted_desc node_size content <> [])
    by (intros H; apply Hne; eapply sorted_desc_nil_inv; exact H).
  rewrite print_tree_Directory.
  apply st_bind_ext; intros line s1. apply st_bind_ext; intros u s2.
  destruct (sorted_desc node_size content) as [|c0 l] eqn:E; [contradiction|].
  rewrite <- E.
  change (min_size_of size threshold (List.length content))
    with (x <- py_mul (Int size) threshold ;;
          py_truediv x (Int (Z.of_nat (List.length content)))).
  apply st_bind_ext; intros min_size s3.
  rewrite (for_subpaths_shown_deferred
             (fun sub => print_tree sub threshold (S level)) min_size content
             (fun others =>
                match others with
                | [] => st_ret tt
                | _ :: _ =>
                    line <~ lift (others_line (str_mul "|" level) others) ;;
                    print line
                end)).
  reflexivity.
Qed.

(** The document renderer on a directory that has children. *)
Lemma print_html_tree_elements_rule (name : string) (size : Z)
    (content : list node) (threshold : num) (level : nat) (st : hstate) :
  content <> [] ->
  print_html_tree_elements (Directory name size content) threshold level st =
    (builder_write (FolderOpen (str_mul " " level)) ;>
     id <~ counter_next ;;
     fs <~ lift (format_size (Int size)) ;;
     builder_write (FolderLabel (str_mul " " level) id (html_escape name)
                      (html_escape fs)) ;>
     min_size <~ lift (x <- py_mul (Int size) threshold ;;
                       py_truediv x (Int (Z.of_nat (List.length content)))) ;;
     for_each (fun sub => print_html_tree_elements sub threshold (S level))
       (shown min_size content) ;>
     match deferred min_size content with
     | [] => st_ret tt
     | _ :: _ =>
         line <~ lift (others_div (str_mul " " level)
                         (deferred min_size content)) ;;
         builder_write line
     end ;>
     builder_write (FolderClose (str_mul " " level))) st.
Proof.
  intros Hne.
  assert (Hs : sorted_desc node_size content <> [])
    by (intros H; apply Hne; eapply sorted_desc_nil_inv; exact H).
  rewrite print_html_tree_elements_Directory.
  apply st_bind_ext; intros u1 s1. apply st_bind_ext; intros id s2.
  apply st_bind_ext; intros fs s3. apply st_bind_ext; intros u2 s4.
  destruct (sorted_desc node_size content) as [|c0 l] eqn:E; [contradiction|].
  rewrite <- E.
  change (min_size_of size threshold (List.length content))
    with (x <- py_mul (Int size) threshold ;;
          py_truediv x (Int (Z.of_nat (List.length content)))).
  apply st_bind_ext; intros min_size s5.
  rewrite (for_subpaths_shown_deferred
             (fun sub => print_html_tree_elements sub threshold (S level))
             min_size content
             (fun others =>
                match others with
                | [] => st_ret tt
                | _ :: _ =>
                    line <~ lift (others_div (str_mul " " level) others) ;;
                    builder_write line
                end ;>
                builder_write (FolderClose (str_mul " " level)))).
  reflexivity.
Qed.

(** What the summary line of the plain-text renderer and the summary
    element of the document renderer hold, given the four figures. *)
Lemma others_summary (level_str level_str' : string) (others : list Z)
    (total avg stddev : string) (a v : spec_float) :
  format_size (Int (sum_Z others)) = Ok total ->
  np_average others = Ok a ->
  format_size (Flt a) = Ok avg ->
  np_var others = Ok v ->
  format_size (Flt (fsqrt v)) = Ok stddev ->
  others_line level_str others =
    Ok (level_str ++ "|+ " ++ total ++ " ("
          ++ string_of_Z (Z.of_nat (List.length others))
          ++ " others) avg=" ++ avg ++ " stddev=" ++ stddev) /\
  others_div level_str' others =
    Ok (OthersDiv level_str' (html_escape total)
          (Z.of_nat (List.length others)) (html_escape avg)
          (html_escape stddev)).
Proof.
  intros Ht Ea Ha Ev Hs.
  assert (E : others_stats others =
              Ok (total, Z.of_nat (List.length others), avg, stddev)).
  { unfold others_stats.
    rewrite Ht. cbn [res_bind]. rewrite Ea. cbn [res_bind].
    rewrite Ha. cbn [res_bind]. rewrite Ev. cbn [res_bind].
    rewrite (math_sqrt_np_var others v Ev). cbn [res_bind].
    rewrite Hs. reflexivity. }
  unfold others_line, others_div. rewrite E. split; reflexivity.
Qed.

(** C2: for a directory node with at least one child, both renderers compute
    [min_size = size * threshold / len(content)], render (one level deeper,
    largest first) exactly the children at least [min_size] large, and then,
    if some child was smaller, write one summary.  The summary holds the
    total of the deferred sizes, their number, their mean and the square
    root of their variance, each size through [format_size]: the text of
    the line and of the element is given in full.  The mean and the
    variance are numpy's float64 figures: for non-negative sizes whose sum
    has at most 53 bits the mean is the float nearest to the exact
    arithmetic mean, and, when that mean is an integer and the squared
    deviations add up to at most 53 bits, the variance is the float nearest
    to the exact population variance (the squared deviations divided by the
    number of sizes, with no correction).  Beyond 53 bits the float64 sum
    depends on the order of the additions, which is numpy's: eight sizes,
    for one, are added in pairs. *)
Theorem directory_render_rule (name : string) (size : Z) (content : list node)
    (threshold : num) (level : nat) :
  content <> [] ->
  descending (sorted_desc node_size content) /\
  Permutation (sorted_desc node_size content) content /\
  (forall file,
     print_tree (Directory name size content) threshold level file =
       (line <~ lift (tree_header (Directory name size content)
                        (str_mul "|" level)) ;;
        print line ;>
        min_size <~ lift (x <- py_mul (Int size) threshold ;;
                          py_truediv x (Int (Z.of_nat (List.length content)))) ;;
        for_each (fun sub => print_tree sub threshold (S level))
          (shown min_size content) ;>
        match deferred min_size content with
        | [] => st_ret tt
        | _ :: _ =>
            line <~ lift (others_line (str_mul "|" level)
                            (deferred min_size content)) ;;
            print line
        end) file) /\
  (forall st,
     print_html_tree_elements (Directory name size content) threshold level st =
       (builder_write (FolderOpen (str_mul " " level)) ;>
        id <~ counter_next ;;
        fs <~ lift (format_size (Int size)) ;;
        builder_write (FolderLabel (str_mul " " level) id (html_escape name)
                         (html_escape fs)) ;>
        min_size <~ lift (x <- py_mul (Int size) threshold ;;
                          py_truediv x (Int (Z.of_nat (List.length content)))) ;;
        for_each (fun sub => print_html_tree_elements sub threshold (S level))
          (shown min_size content) ;>
        match deferred min_size content with
        | [] => st_ret tt
        | _ :: _ =>
            line <~ lift (others_div (str_mul " " level)
                            (deferred min_size content)) ;;
            builder_write line
        end ;>
        builder_write (FolderClose (str_mul " " level))) st) /\
  (forall others total a avg v stddev,
     format_size (Int (sum_Z others)) = Ok total ->
     np_average others = Ok a ->
     format_size (Flt a) = Ok avg ->
     np_var others = Ok v ->
     format_size (Flt (fsqrt v)) = Ok stddev ->
     others_line (str_mul "|" level) others =
       Ok (str_mul "|" level ++ "|+ " ++ total ++ " ("
             ++ string_of_Z (Z.of_nat (List.length others))
             ++ " others) avg=" ++ avg ++ " stddev=" ++ stddev) /\
     exists line,
       others_div (str_mul " " level) others = Ok line /\
       chunk_text line =
         str_mul " " level
           ++ q " <div class=`others`><span class=`size`>("
           ++ html_escape total ++ ")</span> ("
           ++ string_of_Z (Z.of_nat (List.length others))
           ++ " others avg=" ++ html_escape avg
           ++ " stddev=" ++ html_escape stddev ++ ")</div>" ++ nl) /\
  (forall others,
     others <> [] -> Forall (fun v => 0 <= v) others ->
     sum_Z others < 2 ^ 53 -> Z.of_nat (List.length others) < 2 ^ 53 ->
     np_average others =
       Ok (round_ratio (sum_Z others) (Z.of_nat (List.length others))) /\
     forall mu,
       sum_Z others = mu * Z.of_nat (List.length others) ->
       sum_Z (map (fun v => (v - mu) * (v - mu)) others) < 2 ^ 53 ->
       np_var others =
         Ok (round_ratio
               (sum_Z (map (fun v => (v - mu) * (v - mu)) others))
               (Z.of_nat (List.length others)))) /\
  (forall x0 x1 x2 x3 x4 x5 x6 x7,
     Forall (fun v => - 2 ^ 63 <= v < 2 ^ 63) [x0; x1; x2; x3; x4; x5; x6; x7] ->
     np_average [x0; x1; x2; x3; x4; x5; x6; x7] =
       Ok (fdiv
             (fadd (S754_zero false)
                (fadd (fadd (fadd (of_Z x0) (of_Z x1))
                            (fadd (of_Z x2) (of_Z x3)))
                      (fadd (fadd (of_Z x4) (of_Z x5))
                            (fadd (of_Z x6) (of_Z x7)))))
             (of_Z 8))).
Proof.
  intros Hne.
  split; [apply sorted_desc_sorted|].
  split; [apply sorted_desc_perm|].
  split; [|split; [|split; [|split]]].
  - intros file. apply print_tree_rule. exact Hne.
  - intros st. apply print_html_tree_elements_rule. exact Hne.
  - intros others total a avg v stddev Ht Ea Ha Ev Hs.
    destruct (others_summary (str_mul "|" level) (str_mul " " level) others
                total avg stddev a v Ht Ea Ha Ev Hs) as [Hl Hd].
    split; [exact Hl|].
    eexists. split; [exact Hd | reflexivity].
  - intros others Ho Hnn Hsum Hlen.
    split; [apply np_average_exact; assumption|].
    intros mu Hmu Hsq. apply np_var_exact; assumption.
  - intros x0 x1 x2 x3 x4 x5 x6 x7. apply np_average_eight.
Qed.

(** A directory of 1016 bytes with children of 6, 1000 and 10 bytes: the
    largest is shown; the other two, 16 bytes together, have the mean 8 and
    the variance 4.  And the summary of [eight_sizes], whose mean, added in
    pairs, is 1001.5 PiB and prints as 1002PiB. *)
Lemma directory_render_rule_witness :
  print_tree (Directory "S" 1016 [File "c" 6; File "a" 1000; File "b" 10])
    default_threshold 0 "" =
    (Ok tt,
     lines ["+ 1016B S"; "|+ 1000B a"; "|+ 16B (2 others) avg=8B stddev=2B"]) /\
  snd (print_html_tree_elements
         (Directory "S" 1016 [File "c" 6; File "a" 1000; File "b" 10])
         default_threshold 0 (mk_hstate 0 [])) =
    mk_hstate 1
      [FolderOpen ""; FolderLabel "" 0 "S" "1016B"; FileDiv " " "1000B" "a";
       OthersDiv "" "16B" 2 "8B" "2B"; FolderClose ""] /\
  others_line "" [10; 6] = Ok "|+ 16B (2 others) avg=8B stddev=2B" /\
  np_average [10; 6] = Ok (of_Z 8) /\
  np_var [10; 6] = Ok (of_Z 4) /\
  np_average eight_sizes = Ok (of_Z (2003 * 2 ^ 49)) /\
  others_line "" eight_sizes =
    Ok "|+ 7.824EiB (8 others) avg=1002PiB stddev=557.9B".
Proof.
  destruct (directory_render_rule "S" 1016
              [File "c" 6; File "a" 1000; File "b" 10] default_threshold 0)
    as (_ & _ & Htree & Hdoc & Hsummary & Hfigures & Hpairs); [discriminate|].
  destruct (Hfigures [10; 6]) as [Hmean Hvar];
    [discriminate | repeat constructor; lia | vm_compute; reflexivity
    | vm_compute; reflexivity |].
  specialize (Hvar 8 eq_refl ltac:(vm_compute; reflexivity)).
  destruct (Hsummary [10; 6] "16B" (of_Z 8) "8B" (of_Z 4) "2B")
    as [Hline _]; try (vm_compute; reflexivity).
  assert (Hmean8 : np_average eight_sizes = Ok (of_Z (2003 * 2 ^ 49))).
  { unfold eight_sizes. rewrite Hpairs by (repeat constructor; lia).
    vm_compute. reflexivity. }
  destruct (Hsummary eight_sizes "7.824EiB" (of_Z (2003 * 2 ^ 49)) "1002PiB"
              (of_Z 311296) "557.9B")
    as [Hline8 _]; try (vm_compute; reflexivity).
  split; [rewrite Htree; vm_compute; reflexivity|].
  split; [rewrite Hdoc; vm_compute; reflexivity|].
  split; [exact Hline|].
  split; [exact Hmean|].
  split; [exact Hvar|].
  split; [exact Hmean8 | exact Hline8].
Defined.

(** Added from left to right, the same eight sizes would have the mean
    printed as 1001PiB. *)
Example eight_sizes_left_to_right :
  format_size
    (Flt (fdiv (fold_left fadd (map of_Z eight_sizes) (S754_zero false))
            (of_Z 8)))
  = Ok "1001PiB".
Proof. vm_compute. reflexivity. Qed.

(** The end-to-end scenario: [a] is shown, [b] and [sub] are summarised. *)
Example print_tree_R :
  print_tree tree_R default_threshold 0 "" =
    (Ok tt,
     lines ["+ 1015B R"; "|+ 1000B a";
            "|+ 15B (2 others) avg=7.5B stddev=2.5B"]).
Proof. vm_compute. reflexivity. Qed.

Example print_tree_empty :
  print_tree tree_empty default_threshold 0 "" =
    (Ok tt, lines ["+ 0B d"; "  (empty)"]).
Proof. vm_compute. reflexivity. Qed.

Example print_html_tree_elements_R :
  print_html_tree_elements tree_R default_threshold 0 (mk_hstate 0 []) =
    (Ok tt,
     mk_hstate 1
       [FolderOpen ""; FolderLabel "" 0 "R" "1015B"; FileDiv " " "1000B" "a";
        OthersDiv "" "15B" 2 "7.5B" "2.5B"; FolderClose ""]).
Proof. vm_compute. reflexivity. Qed.

(** ** Rendering twice *)

(** C6 on the code: two calls of [print_html_tree] on the same tree with the
    same threshold, each printing to an empty file, give different
    documents: the first pass numbers its toggle 0, the second 1, because
    both draw from the one [itertools.count()] that is the default value of
    [counter]. *)
Theorem print_html_tree_twice_differs :
  exists doc1 doc2,
    print_html_tree tree_empty default_threshold 0 (mk_rstate 0 "") =
      (Ok tt, mk_rstate 1 doc1) /\
    print_html_tree tree_empty default_threshold 0 (mk_rstate 1 "") =
      (Ok tt, mk_rstate 2 doc2) /\
    doc1 <> doc2.
Proof.
  eexists. eexists. split; [vm_compute; reflexivity|].
  split; [vm_compute; reflexivity|].
  apply String.eqb_neq. vm_compute. reflexivity.
Qed.


(** ** Toggle identifiers *)

Lemma toggle_ids_app (b1 b2 : list chunk) :
  toggle_ids (b1 ++ b2) = (toggle_ids b1 ++ toggle_ids b2)%list.
Proof. apply flat_map_app. Qed.

Lemma ids_in_nil (lo hi : nat) : ids_in lo hi [].
Proof. split; constructor. Qed.

Lemma ids_in_app (a b c : nat) (l1 l2 : list nat) :
  ids_in a b l1 -> ids_in b c l2 -> (a <= b)%nat -> (b <= c)%nat ->
  ids_in a c (l1 ++ l2).
Proof.
  intros [S1 F1] [S2 F2] Hab Hbc. split.
  - induction l1 as [|x l1 IH]; simpl; [exact S2|].
    inversion S1 as [|? ? S1' Hx]; subst.
    inversion F1 as [|? ? Fx F1']; subst.
    constructor; [apply IH; assumption|].
    apply Forall_app. split; [exact Hx|].
    eapply Forall_impl; [|exact F2]. simpl. intros; lia.
  - apply Forall_app. split.
    + eapply Forall_impl; [|exact F1]. simpl. intros; lia.
    + eapply Forall_impl; [|exact F2]. simpl. intros; lia.
Qed.

Lemma StronglySorted_lt_NoDup (l : list nat) : StronglySorted lt l -> NoDup l.
Proof.
  induction 1 as [|x l Hs IH Hx]; constructor; [|exact IH].
  intros Hin. rewrite Forall_forall in Hx. specialize (Hx x Hin). lia.
Qed.

(** ** What a step of the document renderer does to its state *)

Lemma extends_ret {A : Type} (Q : chunk -> Prop) (a : A) :
  extends Q (st_ret a : M hstate A).
Proof.
  intros st. exists []. simpl. rewrite app_nil_r.
  repeat split; auto using ids_in_nil; constructor.
Qed.

Lemma extends_lift {A : Type} (Q : chunk -> Prop) (r : res A) :
  extends Q (lift r : M hstate A).
Proof.
  intros st. exists []. simpl. rewrite app_nil_r.
  repeat split; auto using ids_in_nil; constructor.
Qed.

Lemma extends_bind {A B : Type} (Q : chunk -> Prop) (m : M hstate A)
    (k : A -> M hstate B) :
  extends Q m -> (forall a, extends Q (k a)) -> extends Q (st_bind m k).
Proof.
  intros Hm Hk st. unfold st_bind.
  destruct (Hm st) as (new1 & Hb1 & Hc1 & Hi1 & Hq1).
  destruct (m st) as [[a|e] st1]; simpl in *.
  - destruct (Hk a st1) as (new2 & Hb2 & Hc2 & Hi2 & Hq2).
    exists (new1 ++ new2)%list. rewrite Hb2, Hb1, app_assoc.
    split; [reflexivity|]. split; [lia|]. split.
    + rewrite toggle_ids_app. eapply ids_in_app; eauto.
    + apply Forall_app; auto.
  - exists new1. auto.
Qed.

Lemma extends_bind_lift {A B : Type} (Q : chunk -> Prop) (r : res A)
    (k : A -> M hstate B) :
  (forall a, r = Ok a -> extends Q (k a)) -> extends Q (st_bind (lift r) k).
Proof.
  intros Hk st. unfold st_bind, lift. destruct r as [a|e].
  - apply (Hk a eq_refl).
  - exists []. simpl. rewrite app_nil_r.
    repeat split; auto using ids_in_nil; constructor.
Qed.

Lemma extends_write (Q : chunk -> Prop) (c : chunk) :
  Q c -> toggle_ids [c] = [] -> extends Q (builder_write c).
Proof.
  intros Hq Hid st. exists [c]. unfold builder_write. cbn [snd builder counter].
  rewrite Hid. split; [reflexivity|]. split; [lia|].
  split; [apply ids_in_nil | constructor; [exact Hq | constructor]].
Qed.

(** The toggle: the identifier is drawn, the size is formatted, the label
    is written, and the rest of the directory follows. *)
Lemma extends_label {B : Type} (Q : chunk -> Prop) (level_str name : string)
    (r : res string) (rest : M hstate B) :
  (forall id size, Q (FolderLabel level_str id name size)) ->
  extends Q rest ->
  extends Q
    (id <~ counter_next ;;
     fs <~ lift r ;;
     builder_write (FolderLabel level_str id name (html_escape fs)) ;> rest).
Proof.
  intros Hq Hrest st. unfold st_bind, counter_next, lift, builder_write.
  destruct r as [fs|e]; cbn [fst snd builder counter].
  - destruct (Hrest (mk_hstate (S (counter st))
                       (builder st
                          ++ [FolderLabel level_str (counter st) name
                                (html_escape fs)])%list))
      as (new & Hb & Hc & Hi & Hn).
    cbn [builder counter] in Hb, Hc, Hi.
    exists (FolderLabel level_str (counter st) name (html_escape fs) :: new).
    split; [rewrite Hb, <- app_assoc; reflexivity|].
    split; [lia|]. split; [|constructor; auto].
    change (toggle_ids (FolderLabel level_str (counter st) name (html_escape fs)
                          :: new))
      with ([counter st] ++ toggle_ids new)%list.
    eapply ids_in_app; [|exact Hi|lia|exact Hc].
    split; repeat constructor; lia.
  - exists []. rewrite app_nil_r. split; [reflexivity|]. split; [lia|].
    split; [apply ids_in_nil | constructor].
Qed.

Lemma extends_for_subpaths (Q : chunk -> Prop) (render : node -> M hstate unit)
    (min_size : num) (l : list node) :
  (forall x, In x l -> extends Q (render x)) ->
  forall others, extends Q (for_subpaths render min_size l others).
Proof.
  induction l as [|x l IH]; intros Hr others; simpl.
  - apply extends_ret.
  - destruct (py_ge (Int (node_size x)) min_size).
    + apply extends_bind; [apply Hr; left; reflexivity|].
      intros _. apply IH. intros; apply Hr; right; assumption.
    + apply IH. intros; apply Hr; right; assumption.
Qed.

Lemma extends_mono {A : Type} (Q Q' : chunk -> Prop) (m : M hstate A) :
  (forall c, Q c -> Q' c) -> extends Q m -> extends Q' m.
Proof.
  intros Himp Hm st. destruct (Hm st) as (new & Hb & Hc & Hi & Hq).
  exists new. repeat split; try assumption; try apply Hi.
  eapply Forall_impl; eauto.
Qed.

Lemma extends_pointwise {A : Type} (Q : chunk -> Prop) (m m' : M hstate A) :
  (forall st, m st = m' st) -> extends Q m' -> extends Q m.
Proof.
  intros E Hm st. rewrite E. apply Hm.
Qed.

Lemma named_from_other (path : node) (c : chunk) :
  chunk_name c = None -> named_from path c.
Proof. intros H name Hn. rewrite H in Hn. discriminate. Qed.

Lemma named_from_below (name : string) (size : Z) (content : list node)
    (x : node) (c : chunk) :
  In x content -> named_from x c -> named_from (Directory name size content) c.
Proof.
  intros Hin Hc nm Hnm. destruct (Hc nm Hnm) as (n & Hsub & ->).
  exists n. split; [|reflexivity]. eapply subnode_below; eauto.
Qed.

Lemma others_div_inv (level_str : string) (others : list Z) (line : chunk) :
  others_div level_str others = Ok line ->
  exists size num_ avg stddev, line = OthersDiv level_str size num_ avg stddev.
Proof.
  unfold others_div, res_bind.
  destruct (others_stats others) as [[[[total num_] avg] stddev]|e];
    [|discriminate].
  intros H. injection H as <-. eauto.
Qed.

Lemma folder_rest_extends (Q : chunk -> Prop) (render : node -> M hstate unit)
    (size : Z) (content : list node) (threshold : num) (level : nat) :
  (forall c, chunk_name c = None -> Q c) ->
  (forall x, In x content -> extends Q (render x)) ->
  extends Q (folder_rest render size content threshold level).
Proof.
  intros Hother Hrender. unfold folder_rest.
  apply extends_bind.
  - destruct (sorted_desc node_size content).
    + apply extends_bind; [|intros; apply extends_ret].
      apply extends_write; [apply Hother|]; reflexivity.
    + apply extends_lift.
  - intros min_size. apply extends_bind.
    + apply extends_for_subpaths. intros x Hx. apply Hrender.
      eapply Permutation_in; [apply sorted_desc_perm | exact Hx].
    + intros others. apply extends_bind.
      * destruct others as [|o others]; [apply extends_ret|].
        apply extends_bind_lift. intros line Hline.
        apply others_div_inv in Hline.
        destruct Hline as (sz & n & avg & sd & ->).
        apply extends_write; [apply Hother|]; reflexivity.
      * intros _. apply extends_write; [apply Hother|]; reflexivity.
Qed.

(** Every run of the document renderer, finished or cut short by an
    exception, extends the builder by chunks whose toggles carry increasing
    identifiers and whose names are escaped names of the tree. *)
Lemma print_html_tree_elements_extends (path : node) :
  forall threshold level,
    extends (named_from path) (print_html_tree_elements path threshold level).
Proof.
  induction path as [name size | name size content IH] using node_ind';
    intros threshold level.
  - cbn [print_html_tree_elements].
    apply extends_bind; [apply extends_lift|]. intros fs.
    apply extends_write; [|reflexivity].
    intros nm Hnm. simpl in Hnm. injection Hnm as <-.
    exists (File name size). split; [constructor | reflexivity].
  - eapply extends_pointwise;
      [intros st; apply print_html_tree_elements_Directory|].
    apply extends_bind;
      [apply extends_write; [apply named_from_other|]; reflexivity|].
    intros _. apply extends_label.
    { intros id sz nm Hnm. simpl in Hnm.
      injection Hnm as <-. exists (Directory name size content).
      split; [constructor | reflexivity]. }
    apply (folder_rest_extends (named_from (Directory name size content))
             (fun sub => print_html_tree_elements sub threshold (S level))).
    + apply named_from_other.
    + intros x Hin. rewrite Forall_forall in IH.
      eapply extends_mono; [|apply (IH x Hin)].
      intros c. apply named_from_below. exact Hin.
Qed.

(** The document renderer on a directory, up to the label. *)
Lemma print_html_tree_elements_Directory_run (name : string) (size : Z)
    (content : list node) (threshold : num) (level : nat) (st : hstate) :
  print_html_tree_elements (Directory name size content) threshold level st =
    match format_size (Int size) with
    | Ok fs =>
        folder_rest (fun sub => print_html_tree_elements sub threshold (S level))
          size content threshold level
          (mk_hstate (S (counter st))
             ((builder st ++ [FolderOpen (str_mul " " level)])
                ++ [FolderLabel (str_mul " " level) (counter st)
                      (html_escape name) (html_escape fs)])%list)
    | Raise ex =>
        (Raise ex,
         mk_hstate (S (counter st))
           (builder st ++ [FolderOpen (str_mul " " level)])%list)
    end.
Proof.
  rewrite print_html_tree_elements_Directory.
  unfold folder_rest, st_bind at 1 2 3 4, builder_write at 1 2, counter_next, lift.
  cbn [fst snd counter builder].
  destruct (format_size (Int size)); reflexivity.
Qed.

(** A pass over a directory that completes has written the toggle of the
    root, numbered with the value the counter had, and has moved the counter
    on. *)
Lemma directory_pass_toggle (name : string) (size : Z) (content : list node)
    (threshold : num) (level : nat) (st : hstate) :
  fst (print_html_tree_elements (Directory name size content) threshold level st)
    = Ok tt ->
  exists fs new,
    builder (snd (print_html_tree_elements (Directory name size content)
                    threshold level st)) =
      (builder st ++
       FolderOpen (str_mul " " level)
         :: FolderLabel (str_mul " " level) (counter st) (html_escape name) fs
         :: new)%list /\
    (counter st <
     counter (snd (print_html_tree_elements (Directory name size content)
                     threshold level st)))%nat.
Proof.
  rewrite print_html_tree_elements_Directory_run.
  destruct (format_size (Int size)) as [fs|ex]; [|discriminate].
  intros _.
  assert (Hch : forall x, In x content ->
                  extends (fun _ : chunk => True)
                    (print_html_tree_elements x threshold (S level))).
  { intros x _. eapply extends_mono;
      [|apply print_html_tree_elements_extends]. auto. }
  pose proof (folder_rest_extends (fun _ => True)
                (fun sub => print_html_tree_elements sub threshold (S level))
                size content threshold level (fun _ _ => I) Hch) as Hrest.
  destruct (Hrest (mk_hstate (S (counter st))
                     ((builder st ++ [FolderOpen (str_mul " " level)])
                        ++ [FolderLabel (str_mul " " level) (counter st)
                              (html_escape name) (html_escape fs)])%list))
    as (new & Hb & Hc & _).
  cbn [builder counter] in Hb, Hc.
  exists (html_escape fs), new.
  split.
  - rewrite Hb, <- !app_assoc. reflexivity.
  - lia.
Qed.

(** After a pass over a directory that completes, a second pass from the
    same counter object writes other chunks than the first: its toggles are
    numbered from where the first pass stopped. *)
Lemma second_pass_renumbers (name : string) (size : Z) (content : list node)
    (threshold : num) (level : nat) (g : rstate) :
  fst (print_html_tree (Directory name size content) threshold level g) = Ok tt ->
  (default_counter g <
   default_counter
     (snd (print_html_tree (Directory name size content) threshold level g)))%nat
  /\
  pass_chunks (Directory name size content) threshold level
    (default_counter
       (snd (print_html_tree (Directory name size content) threshold level g)))
  <> pass_chunks (Directory name size content) threshold level
       (default_counter g).
Proof.
  intros Hok.
  assert (Hok' :
    fst (print_html_tree_elements (Directory name size content) threshold level
           (mk_hstate (default_counter g) [])) = Ok tt).
  { unfold print_html_tree in Hok.
    destruct (print_html_tree_elements (Directory name size content) threshold
                level (mk_hstate (default_counter g) [])) as [[[]|ex] st1];
      [reflexivity | discriminate Hok]. }
  destruct (directory_pass_toggle name size content threshold level
              (mk_hstate (default_counter g) []) Hok')
    as (fs & new & Hb & Hc).
  cbn [builder counter app] in Hb, Hc.
  assert (Ec :
    default_counter
      (snd (print_html_tree (Directory name size content) threshold level g)) =
    counter (snd (print_html_tree_elements (Directory name size content)
                    threshold level (mk_hstate (default_counter g) [])))).
  { unfold print_html_tree.
    destruct (print_html_tree_elements (Directory name size content) threshold
                level (mk_hstate (default_counter g) [])) as [[[]|ex] st1];
      reflexivity. }
  rewrite Ec. split; [exact Hc|].
  set (c1 := counter (snd (print_html_tree_elements
                             (Directory name size content) threshold level
                             (mk_hstate (default_counter g) [])))) in *.
  intros Heq.
  destruct (print_html_tree_elements_extends (Directory name size content)
              threshold level (mk_hstate c1 []))
    as (new2 & Hb2 & _ & [_ Hrange] & _).
  cbn [builder counter app] in Hb2, Hrange.
  unfold pass_chunks in Heq. rewrite Hb2, Hb in Heq. subst new2.
  cbn [toggle_ids flat_map app] in Hrange.
  apply Forall_inv in Hrange. lia.
Qed.

(** ** [html.escape] *)

Lemma string_app_assoc (s1 s2 s3 : string) :
  (s1 ++ s2) ++ s3 = s1 ++ (s2 ++ s3).
Proof.
  induction s1 as [|x s1 IH]; simpl; [reflexivity | rewrite IH; reflexivity].
Qed.

Lemma replace_char_app (c : ascii) (by_ s1 s2 : string) :
  replace_char c by_ (s1 ++ s2) = replace_char c by_ s1 ++ replace_char c by_ s2.
Proof.
  induction s1 as [|x s1 IH]; simpl.
  - reflexivity.
  - rewrite IH. symmetry. apply string_app_assoc.
Qed.

Lemma html_escape_app (s1 s2 : string) :
  html_escape (s1 ++ s2) = html_escape s1 ++ html_escape s2.
Proof. unfold html_escape. rewrite !replace_char_app. reflexivity. Qed.

Lemma html_escape_cons (x : ascii) (s : string) :
  html_escape (String x s) = html_escape (String x EmptyString) ++ html_escape s.
Proof. apply (html_escape_app (String x EmptyString) s). Qed.

Lemma escaped_ok_escape_char (x : ascii) (t : string) :
  escaped_ok (html_escape (String x EmptyString) ++ t) = escaped_ok t.
Proof.
  destruct x as [b0 b1 b2 b3 b4 b5 b6 b7].
  destruct b0, b1, b2, b3, b4, b5, b6, b7; reflexivity.
Qed.

Lemma escaped_ok_html_escape (s : string) : escaped_ok (html_escape s) = true.
Proof.
  induction s as [|x s IH].
  - reflexivity.
  - rewrite html_escape_cons, escaped_ok_escape_char. exact IH.
Qed.

(** ** One pass of the document renderer *)

(** C9: in one pass of the document renderer (the text [print_html_tree]
    prints is the template around the chunks of the pass), no two toggles
    carry the same identifier, and every name that appears is the
    [html.escape] of the name of a node of the tree, in which no [<], [>] or
    quote occurs and an ampersand only opens an entity.  This holds for a
    pass that an exception cuts short as well. *)
Theorem document_pass_escaped_unique (path : node) (threshold : num)
    (level : nat) (g : rstate) :
  (fst (print_html_tree path threshold level g) = Ok tt ->
   file (snd (print_html_tree path threshold level g)) =
     file g
       ++ html_template
            (getvalue (pass_chunks path threshold level (default_counter g)))
       ++ nl) /\
  NoDup (toggle_ids (pass_chunks path threshold level (default_counter g))) /\
  forall c name,
    In c (pass_chunks path threshold level (default_counter g)) ->
    chunk_name c = Some name ->
    escaped_ok name = true /\
    exists n, subnode n path /\ name = html_escape (node_name n).
Proof.
  unfold pass_chunks.
  destruct (print_html_tree_elements_extends path threshold level
              (mk_hstate (default_counter g) []))
    as (new & Hb & _ & [Hsorted _] & Hnames).
  cbn [builder] in Hb. rewrite app_nil_l in Hb.
  split; [|split].
  - unfold print_html_tree.
    destruct (print_html_tree_elements path threshold level
                (mk_hstate (default_counter g) [])) as [[u|e] st]; simpl.
    + reflexivity.
    + discriminate.
  - rewrite Hb. apply StronglySorted_lt_NoDup. exact Hsorted.
  - intros c name Hin Hname. rewrite Hb in Hin.
    rewrite Forall_forall in Hnames.
    destruct (Hnames c Hin name Hname) as (n & Hsub & ->).
    split; [apply escaped_ok_html_escape | eauto].
Qed.

Lemma document_pass_escaped_unique_witness :
  escaped_ok "&lt;b&gt;&amp;" = true /\
  exists n,
    subnode n tree_markup /\ "&lt;b&gt;&amp;" = html_escape (node_name n).
Proof.
  refine (proj2 (proj2 (document_pass_escaped_unique tree_markup
                          default_threshold 0 (mk_rstate 0 "")))
            (FolderLabel "" 0 "&lt;b&gt;&amp;" "40B") "&lt;b&gt;&amp;" _ _).
  - vm_compute. right. left. reflexivity.
  - reflexivity.
Defined.

Example print_html_tree_elements_markup :
  pass_chunks tree_markup default_threshold 0 0 =
    [FolderOpen ""; FolderLabel "" 0 "&lt;b&gt;&amp;" "40B";
     FileDiv " " "30B" "&lt;script&gt;alert(&#x27;x&#x27;)&lt;/script&gt;";
     OthersDiv "" "10B" 1 "10B" "0B"; FolderClose ""].
Proof. vm_compute. reflexivity. Qed.

(** ** Children of equal size *)

Import PyFloat PyFloatFacts.

Lemma mul_compare_r (n m p : Z) : 0 < p -> (n * p ?= m * p) = (n ?= m).
Proof.
  intros Hp. destruct (n ?= m) eqn:C.
  - apply Z.compare_eq in C. subst. apply Z.compare_refl.
  - apply Z.compare_lt_iff. cmp_lt C. nia.
  - apply Z.compare_gt_iff. apply Z.compare_gt_iff in C. nia.
Qed.

(** A float that is a small integer prints like the integer. *)
Lemma format_size_float_of_int (s : Z) :
  0 <= s < 2 ^ 53 -> format_size (Flt (of_Z s)) = format_size (Int s).
Proof.
  intros [Hs0 Hs53].
  destruct (Z.eq_dec s 0) as [->|Hne]; [vm_compute; reflexivity|].
  assert (Hs : 0 < s < 2 ^ 53) by lia.
  rewrite of_Z_small by exact Hs.
  destruct (float_of_small_mantissa s Hs) as (m & Em & Hm & Hn & Hlg).
  rewrite Em. set (e := Z.log2 s - 52) in *.
  replace (52 - Z.log2 s) with (- e) in Hm by lia.
  assert (He : e <= 0) by lia.
  pose proof (pow2_pos (- e) ltac:(lia)) as P.
  unfold format_size, units. rewrite !format_size_loop_cons.
  assert (Elt : py_lt (Flt (S754_finite false m e)) (Int 1024)
                = py_lt (Int s) (Int 1024)).
  { unfold py_lt. cbn [xval_of xcompare signedm].
    replace (Z.min e 0) with e by lia. replace (e - e) with 0 by lia.
    replace (Z.min 0 0) with 0 by lia. replace (0 - 0) with 0 by lia.
    rewrite Z.pow_0_r, !Z.mul_1_r, Hm.
    replace (0 - e) with (- e) by lia.
    rewrite mul_compare_r by exact P. reflexivity. }
  rewrite Elt.
  destruct (py_lt (Int s) (Int 1024)).
  - unfold fmt_g4, to_float, res_bind. rewrite of_Z_small by exact Hs.
    rewrite Em. reflexivity.
  - rewrite py_truediv_float_1024 by (auto; lia).
    assert (Ed : py_truediv (Int s) (Int 1024)
                 = Ok (Flt (S754_finite false m (e - 10)))).
    { unfold py_truediv. cbn [Z.eqb].
      destruct (s =? 0) eqn:C; [apply Z.eqb_eq in C; lia|].
      cbn [Z.sgn Z.abs]. rewrite Z.mul_1_r, round_ratio_pos by lia.
      rewrite (round_pos_exact false s 1024 m (e - 10)); [reflexivity|lia|lia| |].
      - destruct Hn as [Hm' He']. split; [exact Hm' | lia].
      - replace (Z.max 0 (- (e - 10))) with (- e + 10) by lia.
        replace (Z.max 0 (e - 10)) with 0 by lia.
        rewrite Hm, Z.pow_add_r by lia. eval_pow 10. eval_pow 0. ring. }
    rewrite Ed. reflexivity.
Qed.

Lemma sorted_desc_const {A : Type} (key : A -> Z) (s : Z) (l : list A) :
  Forall (fun c => key c = s) l -> sorted_desc key l = l.
Proof.
  induction 1 as [|x l Hx Hl IH]; [reflexivity|].
  cbn [sorted_desc fold_right]. fold (sorted_desc key l). rewrite IH.
  destruct l as [|y l']; [reflexivity|].
  cbn [insert_desc]. pose proof (Forall_inv Hl) as Hy. cbn beta in Hy.
  rewrite Hx, Hy, Z.ltb_irrefl. reflexivity.
Qed.

Lemma filter_all {A : Type} (f : A -> bool) (l : list A) :
  Forall (fun c => f c = true) l -> filter f l = l.
Proof.
  induction 1 as [|x l Hx Hl IH]; [reflexivity|].
  cbn [filter]. rewrite Hx, IH. reflexivity.
Qed.

Lemma filter_none {A : Type} (f : A -> bool) (l : list A) :
  Forall (fun c => f c = false) l -> filter f l = [].
Proof.
  induction 1 as [|x l Hx Hl IH]; [reflexivity|].
  cbn [filter]. rewrite Hx, IH. reflexivity.
Qed.

Lemma map_const_repeat {A B : Type} (f : A -> B) (b : B) (l : list A) :
  Forall (fun c => f c = b) l -> map f l = repeat b (List.length l).
Proof.
  induction 1 as [|x l Hx Hl IH]; [reflexivity|].
  cbn [map List.length repeat]. rewrite Hx, IH. reflexivity.
Qed.

(** Children of equal size pass the admission test together or fail it
    together. *)
Lemma shown_deferred_equal (content : list node) (s : Z) (min_size : num) :
  Forall (fun c => node_size c = s) content ->
  (py_ge (Int s) min_size = true ->
   shown min_size content = content /\ deferred min_size content = []) /\
  (py_ge (Int s) min_size = false ->
   shown min_size content = [] /\
   deferred min_size content = repeat s (List.length content)).
Proof.
  intros Hall. unfold shown, deferred.
  rewrite (sorted_desc_const node_size s content Hall).
  split; intros Hge.
  - rewrite filter_all, filter_none; [auto| |];
      (eapply Forall_impl; [|exact Hall]); cbn beta; intros c ->;
      rewrite Hge; reflexivity.
  - rewrite filter_none, filter_all;
      [split; [reflexivity | apply map_const_repeat; exact Hall]| |];
      (eapply Forall_impl; [|exact Hall]); cbn beta; intros c ->;
      rewrite Hge; reflexivity.
Qed.

(** The summary of [n] equal sizes. *)
Lemma others_stats_repeat (s : Z) (n : nat) :
  (0 < n)%nat -> 0 <= s -> Z.of_nat n < 2 ^ 53 -> Z.of_nat n * s < 2 ^ 53 ->
  others_stats (repeat s n) =
    (total <- format_size (Int (Z.of_nat n * s)) ;;
     avg <- format_size (Int s) ;;
     Ok (total, Z.of_nat n, avg, "0B"%string)).
Proof.
  intros Hn Hs HN Hb.
  destruct (np_stats_repeat s n Hn Hs HN Hb) as [Ea Ev].
  unfold others_stats. rewrite Ea, Ev, sum_Z_repeat, repeat_length.
  cbn [res_bind]. rewrite format_size_float_of_int by nia.
  destruct (format_size (Int (Z.of_nat n * s))) as [total|ex]; [|reflexivity].
  cbn [res_bind].
  destruct (format_size (Int s)) as [avg|ex]; reflexivity.
Qed.

Lemma st_bind_lift_Ok {S A B : Type} (a : A) (k : A -> M S B) (s : S) :
  st_bind (lift (Ok a)) k s = k a s.
Proof. reflexivity. Qed.

Lemma st_bind_assoc {S A B C : Type} (m : M S A) (k1 : A -> M S B)
    (k2 : B -> M S C) (s : S) :
  st_bind (st_bind m k1) k2 s = st_bind m (fun a => st_bind (k1 a) k2) s.
Proof.
  unfold st_bind. destruct (m s) as [[a|e] s']; reflexivity.
Qed.

Lemma st_bind_ret_unit {S : Type} (m : M S unit) (s : S) :
  st_bind m (fun _ => st_ret tt) s = m s.
Proof.
  unfold st_bind, st_ret. destruct (m s) as [[[]|e] s']; reflexivity.
Qed.

(** C7, as the code has it: with [n] children of one size [s], either every
    child passes the admission test [s >= min_size], and then every child is
    rendered and no summary is written, or none does, and then no child is
    rendered and one summary is written for all [n]; when the sizes are
    non-negative and their sum has at most 53 bits, the summary reads total
    [n * s], count [n], average [s] and standard deviation 0. *)
Theorem equal_children_rule (name : string) (size : Z) (content : list node)
    (threshold : num) (level : nat) (s : Z) (min_size : num) :
  content <> [] ->
  Forall (fun c => node_size c = s) content ->
  min_size_of size threshold (List.length content) = Ok min_size ->
  (py_ge (Int s) min_size = true ->
   shown min_size content = content /\
   deferred min_size content = [] /\
   (forall file,
      print_tree (Directory name size content) threshold level file =
        (line <~ lift (tree_header (Directory name size content)
                         (str_mul "|" level)) ;;
         print line ;>
         for_each (fun sub => print_tree sub threshold (S level)) content)
          file) /\
   (forall st,
      print_html_tree_elements (Directory name size content) threshold level st =
        (builder_write (FolderOpen (str_mul " " level)) ;>
         id <~ counter_next ;;
         fs <~ lift (format_size (Int size)) ;;
         builder_write (FolderLabel (str_mul " " level) id (html_escape name)
                          (html_escape fs)) ;>
         for_each (fun sub => print_html_tree_elements sub threshold (S level))
           content ;>
         builder_write (FolderClose (str_mul " " level))) st)) /\
  (py_ge (Int s) min_size = false ->
   shown min_size content = [] /\
   deferred min_size content = repeat s (List.length content) /\
   (forall file,
      print_tree (Directory name size content) threshold level file =
        (line <~ lift (tree_header (Directory name size content)
                         (str_mul "|" level)) ;;
         print line ;>
         line <~ lift (others_line (str_mul "|" level)
                         (repeat s (List.length content))) ;;
         print line) file) /\
   (forall st,
      print_html_tree_elements (Directory name size content) threshold level st =
        (builder_write (FolderOpen (str_mul " " level)) ;>
         id <~ counter_next ;;
         fs <~ lift (format_size (Int size)) ;;
         builder_write (FolderLabel (str_mul " " level) id (html_escape name)
                          (html_escape fs)) ;>
         line <~ lift (others_div (str_mul " " level)
                         (repeat s (List.length content))) ;;
         builder_write line ;>
         builder_write (FolderClose (str_mul " " level))) st) /\
   (0 <= s ->
    Z.of_nat (List.length content) < 2 ^ 53 ->
    Z.of_nat (List.length content) * s < 2 ^ 53 ->
    others_stats (repeat s (List.length content)) =
      (total <- format_size (Int (Z.of_nat (List.length content) * s)) ;;
       avg <- format_size (Int s) ;;
       Ok (total, Z.of_nat (List.length content), avg, "0B"%string)))).
Proof.
  intros Hne Hall Hmin.
  destruct (shown_deferred_equal content s min_size Hall) as [Hyes Hno].
  change (min_size_of size threshold (List.length content))
    with (x <- py_mul (Int size) threshold ;;
          py_truediv x (Int (Z.of_nat (List.length content)))) in Hmin.
  assert (Hlen : (0 < List.length content)%nat)
    by (destruct content; [contradiction | cbn; lia]).
  split; intros Hge.
  - destruct (Hyes Hge) as [Es Ed]. split; [exact Es|]. split; [exact Ed|].
    split.
    + intros file. rewrite print_tree_rule by exact Hne.
      apply st_bind_ext; intros line s1. apply st_bind_ext; intros u s2.
      rewrite Hmin, st_bind_lift_Ok, Es, Ed. apply st_bind_ret_unit.
    + intros st. rewrite print_html_tree_elements_rule by exact Hne.
      apply st_bind_ext; intros u1 s1. apply st_bind_ext; intros id s2.
      apply st_bind_ext; intros fs s3. apply st_bind_ext; intros u2 s4.
      rewrite Hmin, st_bind_lift_Ok, Es, Ed.
      apply st_bind_ext; intros u3 s5.
      unfold st_bind at 1. reflexivity.
  - destruct (Hno Hge) as [Es Ed]. split; [exact Es|]. split; [exact Ed|].
    destruct (repeat s (List.length content)) as [|o os] eqn:Er.
    { destruct (List.length content); [lia | discriminate Er]. }
    split; [|split].
    + intros file. rewrite print_tree_rule by exact Hne.
      apply st_bind_ext; intros line s1. apply st_bind_ext; intros u s2.
      rewrite Hmin, st_bind_lift_Ok, Es, Ed. reflexivity.
    + intros st. rewrite print_html_tree_elements_rule by exact Hne.
      apply st_bind_ext; intros u1 s1. apply st_bind_ext; intros id s2.
      apply st_bind_ext; intros fs s3. apply st_bind_ext; intros u2 s4.
      rewrite Hmin, st_bind_lift_Ok, Es, Ed.
      apply (st_bind_assoc
               (lift (others_div (str_mul " " level) (o :: os)))
               (fun line => builder_write line)
               (fun _ => builder_write (FolderClose (str_mul " " level)))).
    + intros Hs HN Hb. rewrite <- Er.
      apply others_stats_repeat; assumption.
Qed.

(** C7, counterexample: three children of 100 bytes in a directory of 300
    with the default threshold 1.2 have [threshold / 3 <= 1], yet none is
    rendered and all three go into the summary ([min_size] is 120); one
    child of size 0 in a directory of size 0 with threshold 2 has
    [threshold / 1 > 1], yet it is rendered and there is no summary
    ([min_size] is 0). *)
Lemma equal_children_counterexample :
  ratio_le_one default_threshold 3 = true /\
  print_tree tree_equal3 default_threshold 0 "" =
    (Ok tt,
     lines ["+ 300B d"; "|+ 300B (3 others) avg=100B stddev=0B"]) /\
  ratio_le_one (Int 2) 1 = false /\
  print_tree tree_zero1 (Int 2) 0 "" =
    (Ok tt, lines ["+ 0B d"; "|+ 0B a"]).
Proof. conj_compute. Qed.

Lemma equal_children_rule_witness :
  deferred (Flt (PyFloat.of_Z 120)) [File "a" 100; File "b" 100; File "c" 100]
  = repeat 100 3.
Proof.
  refine (proj1 (proj2 (proj2 (equal_children_rule "d" 300
                                 [File "a" 100; File "b" 100; File "c" 100]
                                 default_threshold 0 100
                                 (Flt (PyFloat.of_Z 120)) _ _ _) _))).
  - discriminate.
  - repeat constructor.
  - vm_compute. reflexivity.
  - vm_compute. reflexivity.
Defined.

(** * Further properties of the scanner *)

(** ** The loop of [Directory.__init__] *)

(** The loop over a listing in two parts: the second part runs only when
    the first ran to its end. *)
Lemma iter_body_app (scan : entry -> globals -> node * globals)
    (l1 l2 : list entry) :
  forall content size g,
    iter_body scan (l1 ++ l2) content size g =
      match iter_body scan l1 content size g with
      | (content', Completed size', g') => iter_body scan l2 content' size' g'
      | other => other
      end.
Proof.
  induction l1 as [|p l1 IH]; intros content size g; simpl.
  - reflexivity.
  - destruct (e_is_symlink p) as [[|]|]; simpl.
    + destruct (e_lstat p); simpl; [apply IH | reflexivity].
    + destruct (e_is_dir p) as [[|]|]; simpl.
      * destruct (scan p g) as [obj g1]. apply IH.
      * destruct (File_init p g) as [obj g1]. apply IH.
      * reflexivity.
    + reflexivity.
Qed.

(** An entry that does not answer stops the loop where it stands. *)
Lemma iter_body_not_quiet (scan : entry -> globals -> node * globals)
    (p : entry) (rest : list entry) (content : list node) (size : Z)
    (g : globals) :
  quiet p = false ->
  exists ex, iter_body scan (p :: rest) content size g = (content, Caught ex, g).
Proof.
  unfold quiet. simpl.
  destruct (e_is_symlink p) as [[|]|ex].
  - destruct (e_lstat p) as [st|ex]; [discriminate|]. intros _. eauto.
  - destruct (e_is_dir p) as [[|]|ex]; try discriminate. intros _. eauto.
  - intros _. eauto.
Qed.

(** The loop has no [return] of its own. *)
Lemma iter_body_not_Returned (scan : entry -> globals -> node * globals)
    (l : list entry) :
  forall content size g,
    snd (fst (iter_body scan l content size g)) <> Returned.
Proof.
  induction l as [|p l IH]; intros content size g; simpl.
  - discriminate.
  - destruct (e_is_symlink p) as [[|]|]; simpl; try discriminate.
    + destruct (e_lstat p); simpl; [apply IH | discriminate].
    + destruct (e_is_dir p) as [[|]|]; simpl; try discriminate.
      * destruct (scan p g) as [obj g1]. apply IH.
      * destruct (File_init p g) as [obj g1]. apply IH.
Qed.

(** What the loop appends: one node for each entry that is not a symlink,
    in listing order, as far as the loop got. *)
Lemma iter_body_trace (scan : entry -> globals -> node * globals)
    (l : list entry) :
  forall content size g,
  exists new done todo,
    fst (fst (iter_body scan l content size g)) = (content ++ new)%list /\
    filter not_symlink l = (done ++ todo)%list /\
    Forall2 (fun p c =>
               e_is_symlink p = FsOk false /\
               ((e_is_dir p = FsOk true /\ exists g0, c = fst (scan p g0)) \/
                (e_is_dir p = FsOk false /\ exists g0, c = fst (File_init p g0))))
            done new /\
    (forall s, snd (fst (iter_body scan l content size g)) = Completed s ->
               todo = []).
Proof.
  induction l as [|p l IH]; intros content size g.
  - exists [], [], []. simpl. rewrite app_nil_r. auto.
  - simpl. unfold not_symlink at 1.
    destruct (e_is_symlink p) as [[|]|ex] eqn:Es.
    + destruct (e_lstat p) as [st|ex].
      * apply IH.
      * exists [], [], (filter not_symlink l). simpl. rewrite app_nil_r.
        repeat split; auto. discriminate.
    + destruct (e_is_dir p) as [[|]|ex] eqn:Ed.
      * destruct (scan p g) as [obj g1] eqn:E.
        destruct (IH (content ++ [obj])%list (size + node_size obj) g1)
          as (new & done & todo & Hc & Hf & H2 & Ht).
        exists (obj :: new), (p :: done), todo.
        rewrite Hc, <- app_assoc, Hf. simpl. repeat split; auto.
        constructor; [|exact H2]. split; [exact Es|]. left.
        split; [exact Ed|]. exists g. rewrite E. reflexivity.
      * destruct (File_init p g) as [obj g1] eqn:E.
        destruct (IH (content ++ [obj])%list (size + node_size obj) g1)
          as (new & done & todo & Hc & Hf & H2 & Ht).
        exists (obj :: new), (p :: done), todo.
        rewrite Hc, <- app_assoc, Hf. simpl. repeat split; auto.
        constructor; [|exact H2]. split; [exact Es|]. right.
        split; [exact Ed|]. exists g. rewrite E. reflexivity.
      * exists [], [], (p :: filter not_symlink l). simpl. rewrite app_nil_r.
        repeat split; auto. discriminate.
    + exists [], [], (filter not_symlink l). simpl. rewrite app_nil_r.
      repeat split; auto. discriminate.
Qed.

(** [Directory_scan] on a directory whose stats agree and whose listing
    succeeds. *)
Lemma Directory_scan_listing (p n : string) (sy di : fsres bool)
    (s1 s2 : stat_result) (l : list entry) (g : globals) :
  (st_ino s2 =? st_ino s1) = true ->
  Directory_scan (Entry p n sy di (FsOk s1) (FsOk s2) (FsOk l)) g =
    match iter_body Directory_scan l [] (st_size s1) (report_progress p g) with
    | (content, Returned, g') => (Directory n 0 content, g')
    | (content, Completed size, g') => (Directory n size content, incr_scanned g')
    | (content, Caught ex, g') =>
        (Directory n 0 content, incr_scanned (logging_error ex g'))
    end.
Proof.
  intros H. simpl. rewrite H. simpl.
  destruct (iter_body Directory_scan l [] (st_size s1) (report_progress p g))
    as [[content how] g']. reflexivity.
Qed.

(** The ways [Directory_scan] ends without entering the loop. *)
Lemma Directory_scan_cases (e : entry) (g : globals) :
  (exists ex, Directory_scan e g =
     (Directory (e_name e) 0 [],
      incr_scanned (logging_error ex (report_progress (e_path e) g)))) \/
  (identity_mismatch e = true /\
   Directory_scan e g =
     (Directory (e_name e) 0 [], report_progress (e_path e) g)) \/
  (exists s1 s2 l,
     e_lstat e = FsOk s1 /\ e_stat e = FsOk s2 /\ e_iterdir e = FsOk l /\
     (st_ino s2 =? st_ino s1) = true /\
     Directory_scan e g =
       match iter_body Directory_scan l [] (st_size s1)
               (report_progress (e_path e) g) with
       | (content, Returned, g') => (Directory (e_name e) 0 content, g')
       | (content, Completed size, g') =>
           (Directory (e_name e) size content, incr_scanned g')
       | (content, Caught ex, g') =>
           (Directory (e_name e) 0 content, incr_scanned (logging_error ex g'))
       end).
Proof.
  destruct e as [p n sy di ls st it].
  destruct ls as [s1|ex]; [|left; exists ex; reflexivity].
  destruct st as [s2|ex]; [|left; exists ex; reflexivity].
  destruct (st_ino s2 =? st_ino s1) eqn:Ei.
  - destruct it as [l|ex].
    + right. right. exists s1, s2, l. repeat split; auto.
      apply Directory_scan_listing. exact Ei.
    + left. exists ex. simpl. rewrite Ei. reflexivity.
  - right. left. unfold identity_mismatch. simpl. rewrite Ei. auto.
Qed.

(** ** What a scan does to the module's globals *)

Section scan_globals.
Variable R : globals -> globals -> Prop.
Hypothesis R_refl : forall g, R g g.
Hypothesis R_trans : forall g1 g2 g3, R g1 g2 -> R g2 g3 -> R g1 g3.
Hypothesis R_incr : forall g, R g (incr_scanned g).
Hypothesis R_log : forall ex g, R g (logging_error ex g).
Hypothesis R_report : forall p g, R g (report_progress p g).

Lemma File_init_globals (p : entry) (g : globals) : R g (snd (File_init p g)).
Proof.
  unfold File_init. destruct (e_lstat p); simpl.
  - apply R_incr.
  - eapply R_trans; [apply R_log | apply R_incr].
Qed.

Lemma iter_body_globals (scan : entry -> globals -> node * globals)
    (l : list entry) :
  Forall (fun p => forall g, R g (snd (scan p g))) l ->
  forall content size g, R g (snd (iter_body scan l content size g)).
Proof.
  induction l as [|p l IH]; intros Hl content size g; simpl.
  - apply R_refl.
  - inversion Hl as [|? ? Hp Hl']; subst.
    destruct (e_is_symlink p) as [[|]|]; simpl; try apply R_refl.
    + destruct (e_lstat p); simpl; [apply IH; assumption | apply R_refl].
    + destruct (e_is_dir p) as [[|]|]; simpl; try apply R_refl.
      * pose proof (Hp g) as H1. destruct (scan p g) as [obj g1].
        eapply R_trans; [exact H1 | apply IH; assumption].
      * pose proof (File_init_globals p g) as H1.
        destruct (File_init p g) as [obj g1].
        eapply R_trans; [exact H1 | apply IH; assumption].
Qed.

Lemma Directory_scan_globals (e : entry) :
  forall g, R g (snd (Directory_scan e g)).
Proof.
  induction e as [p n sy di ls st it IH] using entry_ind'.
  intros g.
  destruct (Directory_scan_cases (Entry p n sy di ls st it) g)
    as [(ex & ->) | [(_ & ->) | (s1 & s2 & l & _ & _ & El & _ & ->)]]; simpl.
  - eapply R_trans; [apply R_report|]. eapply R_trans; [apply R_log | apply R_incr].
  - apply R_report.
  - simpl in El. subst it.
    pose proof (iter_body_globals Directory_scan l IH [] (st_size s1)
                  (report_progress p g)) as H1.
    destruct (iter_body Directory_scan l [] (st_size s1) (report_progress p g))
      as [[content how] g1]. simpl in H1.
    assert (H0 : R g g1) by (eapply R_trans; [apply R_report | exact H1]).
    destruct how; simpl.
    + exact H0.
    + eapply R_trans; [exact H0 | apply R_incr].
    + eapply R_trans; [exact H0|].
      eapply R_trans; [apply R_log | apply R_incr].
Qed.
End scan_globals.

Lemma bookkeeping_refl (g : globals) : bookkeeping g g.
Proof.
  exists [], []. rewrite !app_nil_r. simpl. repeat split; auto; lia.
Qed.

Lemma bookkeeping_trans (g1 g2 g3 : globals) :
  bookkeeping g1 g2 -> bookkeeping g2 g3 -> bookkeeping g1 g3.
Proof.
  intros (a1 & b1 & L1 & O1 & S1 & N1 & I1) (a2 & b2 & L2 & O2 & S2 & N2 & I2).
  exists (a1 ++ a2)%list, (b1 ++ b2)%list.
  rewrite L2, L1, O2, O1, !app_assoc, length_app, Nat2Z.inj_add.
  repeat split; auto; lia.
Qed.

Lemma bookkeeping_incr (g : globals) : bookkeeping g (incr_scanned g).
Proof.
  exists [], []. rewrite !app_nil_r. simpl. repeat split; auto; lia.
Qed.

Lemma bookkeeping_log (ex : string) (g : globals) :
  bookkeeping g (logging_error ex g).
Proof.
  exists [ex], []. rewrite !app_nil_r. simpl. repeat split; auto; lia.
Qed.

Lemma bookkeeping_report (p : string) (g : globals) :
  bookkeeping g (report_progress p g).
Proof.
  unfold report_progress. destruct (next_report_num g <? scanned g) eqn:E.
  - apply Z.ltb_lt in E.
    exists [], [(string_of_Z (scanned g) ++ " Scanning " ++ p ++ " ..." ++ cr)%string].
    rewrite !app_nil_r. simpl. unfold report_every. repeat split; auto; lia.
  - apply bookkeeping_refl.
Qed.

Lemma Directory_scan_bookkeeping (e : entry) (g : globals) :
  bookkeeping g (snd (Directory_scan e g)).
Proof.
  apply Directory_scan_globals;
    auto using bookkeeping_refl, bookkeeping_incr, bookkeeping_log,
               bookkeeping_report.
  exact bookkeeping_trans.
Qed.

(** X1: a scan only adds to the module's records: the log and the progress
    output it finds are kept as a prefix of what it leaves, and the count of
    scanned entries does not go down. *)
Theorem scan_keeps_records (e : entry) (g : globals) :
  exists newlog newout,
    log (snd (Directory_scan e g)) = (log g ++ newlog)%list /\
    stdout (snd (Directory_scan e g)) = (stdout g ++ newout)%list /\
    scanned g <= scanned (snd (Directory_scan e g)).
Proof.
  destruct (Directory_scan_bookkeeping e g)
    as (newlog & newout & L & O & S & _).
  exists newlog, newout. auto.
Qed.

(** X2: progress reporting.  Each progress line a scan prints moves
    [next_report_num] by [report_every]; and when the report point starts
    less than [report_every] ahead of [scanned] (as it does when the module
    is loaded), it ends so, which bounds the number of lines printed by the
    number of entries scanned. *)
Theorem progress_lines_bounded (e : entry) (g : globals) :
  next_report_num g < scanned g + report_every ->
  exists newout,
    stdout (snd (Directory_scan e g)) = (stdout g ++ newout)%list /\
    next_report_num (snd (Directory_scan e g)) =
      next_report_num g + report_every * Z.of_nat (List.length newout) /\
    next_report_num g + report_every * Z.of_nat (List.length newout)
      < scanned (snd (Directory_scan e g)) + report_every.
Proof.
  intros H0.
  destruct (Directory_scan_bookkeeping e g)
    as (newlog & newout & _ & O & _ & N & I).
  exists newout. split; [exact O|]. split; [exact N|].
  rewrite <- N. apply I. exact H0.
Qed.

Lemma progress_lines_bounded_witness :
  exists newout,
    stdout (snd (Directory_scan fs_sample globals0)) = (stdout globals0 ++ newout)%list /\
    next_report_num (snd (Directory_scan fs_sample globals0)) =
      next_report_num globals0 + report_every * Z.of_nat (List.length newout) /\
    next_report_num globals0 + report_every * Z.of_nat (List.length newout)
      < scanned (snd (Directory_scan fs_sample globals0)) + report_every.
Proof.
  apply (progress_lines_bounded fs_sample globals0).
  vm_compute. reflexivity.
Defined.

(** ** Counting what was scanned *)

Lemma iter_body_count (scan : entry -> globals -> node * globals)
    (l : list entry) :
  Forall (fun p => scanned_as_dir p = true ->
                   forall g, scanned (snd (scan p g)) =
                             scanned g + node_count (fst (scan p g))) l ->
  forall content size g,
    scanned (snd (iter_body scan l content size g))
      + sum_Z (map node_count content) =
    scanned g
      + sum_Z (map node_count (fst (fst (iter_body scan l content size g)))).
Proof.
  induction l as [|p l IH]; intros Hl content size g; simpl.
  - reflexivity.
  - inversion Hl as [|? ? Hp Hl']; subst. unfold scanned_as_dir in Hp.
    destruct (e_is_symlink p) as [[|]|]; simpl; try reflexivity.
    + destruct (e_lstat p); simpl; [apply IH; assumption | reflexivity].
    + destruct (e_is_dir p) as [[|]|]; simpl; try reflexivity.
      * pose proof (Hp eq_refl g) as H1. destruct (scan p g) as [obj g1].
        simpl in H1.
        pose proof (IH Hl' (content ++ [obj])%list (size + node_size obj) g1) as H2.
        rewrite map_app, sum_Z_app in H2. simpl in H2.
        rewrite sum_Z_cons in H2. change (sum_Z []) with 0 in H2. lia.
      * assert (H1 : scanned (snd (File_init p g)) =
                     scanned g + node_count (fst (File_init p g))).
        { unfold File_init. destruct (e_lstat p); reflexivity. }
        destruct (File_init p g) as [obj g1]. simpl in H1.
        pose proof (IH Hl' (content ++ [obj])%list (size + node_size obj) g1) as H2.
        rewrite map_app, sum_Z_app in H2. simpl in H2.
        rewrite sum_Z_cons in H2. change (sum_Z []) with 0 in H2. lia.
Qed.

Lemma report_progress_scanned (p : string) (g : globals) :
  scanned (report_progress p g) = scanned g.
Proof.
  unfold report_progress. destruct (next_report_num g <? scanned g); reflexivity.
Qed.

(** X3: where the scan meets no junction, [scanned] goes up by exactly the
    number of nodes of the tree built: every file and every directory is
    counted once, whether or not it could be read. *)
Theorem scan_counts_every_node (e : entry) :
  no_junction e = true ->
  forall g,
    scanned (snd (Directory_scan e g)) =
      scanned g + node_count (fst (Directory_scan e g)).
Proof.
  induction e as [p n sy di ls st it IH] using entry_ind'.
  intros Hj g.
  destruct (Directory_scan_cases (Entry p n sy di ls st it) g)
    as [(ex & E) | [(Hm & E) | (s1 & s2 & l & E1 & E2 & El & Ei & E)]].
  - rewrite E. simpl. rewrite report_progress_scanned.
    change (sum_Z []) with 0. lia.
  - exfalso. unfold identity_mismatch in Hm. simpl in Hm, Hj.
    rewrite Hm in Hj. discriminate Hj.
  - simpl in E1, E2, El. subst ls st it. simpl in Hj.
    apply andb_prop in Hj. destruct Hj as [_ Hl].
    assert (Hc : Forall (fun p0 => scanned_as_dir p0 = true ->
                   forall g0, scanned (snd (Directory_scan p0 g0)) =
                              scanned g0 + node_count (fst (Directory_scan p0 g0))) l).
    { rewrite forallb_forall in Hl. rewrite Forall_forall in IH |- *.
      intros p0 Hin Hd. apply IH; [exact Hin|].
      pose proof (Hl p0 Hin) as H0. rewrite Hd in H0. exact H0. }
    pose proof (iter_body_count Directory_scan l Hc [] (st_size s1)
                  (report_progress p g)) as H1.
    pose proof (iter_body_not_Returned Directory_scan l [] (st_size s1)
                  (report_progress p g)) as H2.
    rewrite report_progress_scanned in H1. simpl in H1.
    change (sum_Z []) with 0 in H1.
    cbn [e_path e_name] in E. rewrite E.
    destruct (iter_body Directory_scan l [] (st_size s1) (report_progress p g))
      as [[content how] g1]. simpl in H1, H2.
    destruct how; [simpl; congruence | |];
      cbn [snd fst scanned incr_scanned logging_error node_count]; lia.
Qed.

Lemma scan_counts_every_node_witness :
  scanned (snd (Directory_scan fs_sample globals0)) =
    scanned globals0 + node_count (fst (Directory_scan fs_sample globals0)).
Proof.
  apply (scan_counts_every_node fs_sample). vm_compute. reflexivity.
Defined.

(** ** Where the nodes come from *)

Lemma Forall2_In_r {A B : Type} (R : A -> B -> Prop) (l1 : list A) (l2 : list B)
    (c : B) :
  Forall2 R l1 l2 -> In c l2 -> exists p, In p l1 /\ R p c.
Proof.
  induction 1 as [|a b l1 l2 Hab H IH]; intros Hin.
  - destruct Hin.
  - destruct Hin as [<-|Hin].
    + exists a. split; [left; reflexivity | exact Hab].
    + destruct (IH Hin) as (p & Hp & Hr). exists p. split; [right|]; assumption.
Qed.

Lemma Forall2_map_eq {A B C : Type} (f : A -> C) (h : B -> C) (l1 : list A)
    (l2 : list B) :
  Forall2 (fun a b => f a = h b) l1 l2 -> map f l1 = map h l2.
Proof.
  induction 1 as [|a b l1 l2 Hab H IH]; simpl; [reflexivity|].
  rewrite Hab, IH. reflexivity.
Qed.

Lemma sub_entry_trans (a b c : entry) :
  sub_entry a b -> sub_entry b c -> sub_entry a c.
Proof.
  intros Hab Hbc. induction Hbc as [|e l p El Hin Hbp IH].
  - exact Hab.
  - eapply sub_entry_below; eauto.
Qed.

Lemma listed_below_child (q p e : entry) (l : list entry) :
  e_iterdir e = FsOk l -> In p l -> listed_below q p -> listed_below q e.
Proof.
  intros El Hin (parent & l' & Hs & El' & Hin').
  exists parent, l'. split; [|split; assumption].
  eapply sub_entry_below; eauto.
Qed.

Lemma Directory_scan_is_Directory (e : entry) (g : globals) :
  is_Directory (fst (Directory_scan e g)) = true.
Proof.
  destruct (Directory_scan_shape e g) as (size & content & -> & _). reflexivity.
Qed.

(** X4: every node of a scanned tree other than its root stands for an entry
    listed at or below the scanned path that answered [is_symlink()] with
    [False]: a symlink never becomes a node.  The node carries the entry's
    name, and it is a directory node exactly when [is_dir()] answered
    [True]. *)
Theorem scan_nodes_from_entries (e : entry) :
  forall g n,
    subnode n (fst (Directory_scan e g)) ->
    n = fst (Directory_scan e g) \/
    exists p,
      listed_below p e /\ node_name n = e_name p /\
      e_is_symlink p = FsOk false /\ e_is_dir p = FsOk (is_Directory n).
Proof.
  induction e as [ps nm sy di ls st it IH] using entry_ind'.
  intros g n Hn.
  destruct (Directory_scan_shape (Entry ps nm sy di ls st it) g)
    as (size & content & E & Hc).
  rewrite E in Hn |- *.
  inversion Hn as [|? ? ? c Hin Hsub]; subst; [left; reflexivity|].
  right.
  destruct Hc as [->|(l & s & g1 & El & Ec)]; [destruct Hin|].
  simpl in El. subst it.
  destruct (iter_body_trace Directory_scan l [] s g1)
    as (new & done & todo & Hnew & Hf & H2 & _).
  rewrite Hnew in Ec. simpl in Ec. subst content.
  destruct (Forall2_In_r _ _ _ _ H2 Hin) as (p & Hp & Hs & Hk).
  assert (Hpl : In p l).
  { assert (Hpf : In p (filter not_symlink l))
      by (rewrite Hf; apply in_or_app; left; exact Hp).
    apply filter_In in Hpf. tauto. }
  assert (Hhere : listed_below p (Entry ps nm sy di ls st (FsOk l))).
  { exists (Entry ps nm sy di ls st (FsOk l)), l.
    split; [constructor | split; [reflexivity | exact Hpl]]. }
  destruct Hk as [(Hd & g0 & ->) | (Hd & g0 & ->)].
  - rewrite Forall_forall in IH.
    destruct (IH p Hpl g0 n Hsub) as [-> | (q & Hq & Hrest)].
    + exists p. rewrite Directory_scan_name, Directory_scan_is_Directory. auto.
    + exists q. split; [|exact Hrest].
      eapply listed_below_child; [reflexivity | exact Hpl | exact Hq].
  - destruct (File_init_node p g0) as (sz & Ef). rewrite Ef in Hsub.
    apply subnode_File_inv in Hsub. subst n.
    exists p. simpl. auto.
Qed.

Lemma scan_nodes_from_entries_witness :
  File "c" 5 = fst (Directory_scan fs_sample globals0) \/
  exists p,
    listed_below p fs_sample /\ node_name (File "c" 5) = e_name p /\
    e_is_symlink p = FsOk false /\ e_is_dir p = FsOk (is_Directory (File "c" 5)).
Proof.
  apply (scan_nodes_from_entries fs_sample globals0 (File "c" 5)).
  change (fst (Directory_scan fs_sample globals0))
    with (Directory "R" 9204 [File "a" 1000; Directory "sub" 4101 [File "c" 5]]).
  eapply subnode_below; [right; left; reflexivity|].
  eapply subnode_below; [left; reflexivity|]. constructor.
Defined.

(** X7: the children of a directory scanned without an error of its own are
    its entries that are not symlinks, one node each, in the order
    [iterdir()] gave them; a child is a directory node exactly when
    [is_dir()] answered [True] for its entry. *)
Theorem clean_scan_children (e : entry) (l : list entry) (g : globals) :
  scan_clean e = true ->
  e_iterdir e = FsOk l ->
  map node_name (node_content (fst (Directory_scan e g))) =
    map e_name (filter not_symlink l) /\
  map is_Directory (node_content (fst (Directory_scan e g))) =
    map scanned_as_dir (filter not_symlink l).
Proof.
  destruct e as [ps nm sy di ls st it]. intros Hc El.
  cbn [e_iterdir] in El. subst it.
  unfold scan_clean, identity_ok in Hc. simpl in Hc.
  destruct ls as [s1|]; [|discriminate Hc].
  destruct st as [s2|]; [|discriminate Hc].
  apply andb_prop in Hc. destruct Hc as [Hi Hq].
  rewrite Directory_scan_listing by exact Hi.
  destruct (iter_body_quiet Directory_scan l Hq [] (st_size s1)
              (report_progress ps g)) as (new & g' & E).
  destruct (iter_body_trace Directory_scan l [] (st_size s1)
              (report_progress ps g)) as (new' & done & todo & Hnew & Hf & H2 & Ht).
  rewrite E in Hnew, Ht |- *. simpl in Hnew, Ht |- *.
  subst new'.
  rewrite (Ht _ eq_refl), app_nil_r in Hf. rewrite Hf.
  split; symmetry; apply Forall2_map_eq; eapply Forall2_impl; try exact H2;
    intros p c (Hs & [(Hd & g0 & ->) | (Hd & g0 & ->)]);
    unfold scanned_as_dir; rewrite ?Hs, ?Hd;
    rewrite ?Directory_scan_name, ?Directory_scan_is_Directory; auto;
    destruct (File_init_node p g0) as (sz & ->); reflexivity.
Qed.

Lemma clean_scan_children_witness :
  map node_name (node_content (fst (Directory_scan fs_sample globals0))) =
    map e_name (filter not_symlink
                  [ Entry "R/a" "a" (FsOk false) (FsOk false)
                      (FsOk (mk_stat 1000 3)) (FsOk (mk_stat 1000 3))
                      (FsErr "ENOTDIR");
                    Entry "R/l" "l" (FsOk true) (FsOk true)
                      (FsOk (mk_stat 7 4)) (FsOk (mk_stat 4096 2)) (FsOk []);
                    Entry "R/sub" "sub" (FsOk false) (FsOk true)
                      (FsOk (mk_stat 4096 5)) (FsOk (mk_stat 4096 5))
                      (FsOk [ Entry "R/sub/c" "c" (FsOk false) (FsOk false)
                                (FsOk (mk_stat 5 6)) (FsOk (mk_stat 5 6))
                                (FsErr "ENOTDIR") ]) ]).
Proof.
  refine (proj1 (clean_scan_children fs_sample _ globals0 _ _));
    reflexivity.
Defined.

(** ** Sizes *)

Lemma sizes_nonneg_lstat (p : entry) (st : stat_result) :
  sizes_nonneg p = true -> e_lstat p = FsOk st -> 0 <= st_size st.
Proof.
  destruct p as [ps nm sy di ls s2 it]. simpl. intros H ->.
  apply andb_prop in H. destruct H as [H _]. apply Z.leb_le. exact H.
Qed.

Lemma File_init_nonneg (p : entry) (g : globals) :
  sizes_nonneg p = true -> nonneg_tree (fst (File_init p g)).
Proof.
  intros Hp n Hn. unfold File_init in Hn.
  destruct (e_lstat p) as [st|] eqn:E; simpl in Hn;
    apply subnode_File_inv in Hn; subst n; simpl; [|lia].
  eapply sizes_nonneg_lstat; eauto.
Qed.

Lemma iter_body_nonneg (scan : entry -> globals -> node * globals)
    (l : list entry) :
  Forall (fun p => sizes_nonneg p = true /\
                   forall g, nonneg_tree (fst (scan p g))) l ->
  forall content size g,
    0 <= size -> Forall nonneg_tree content ->
    Forall nonneg_tree (fst (fst (iter_body scan l content size g))) /\
    forall s, snd (fst (iter_body scan l content size g)) = Completed s -> 0 <= s.
Proof.
  induction l as [|p l IH]; intros Hl content size g Hs Hc; simpl.
  - split; [exact Hc|]. intros s E. injection E as <-. exact Hs.
  - inversion Hl as [|? ? (Hp & Hscan) Hl']; subst.
    destruct (e_is_symlink p) as [[|]|]; simpl;
      try (split; [exact Hc | discriminate]).
    + destruct (e_lstat p) as [st|] eqn:E; simpl;
        [|split; [exact Hc | discriminate]].
      pose proof (sizes_nonneg_lstat p st Hp E).
      apply IH; [assumption | lia | assumption].
    + destruct (e_is_dir p) as [[|]|]; simpl;
        try (split; [exact Hc | discriminate]).
      * pose proof (Hscan g) as H1. destruct (scan p g) as [obj g1]. simpl in H1.
        pose proof (H1 obj (subnode_here obj)).
        apply IH; [assumption | lia |].
        apply Forall_app. split; [exact Hc | constructor; [exact H1 | constructor]].
      * pose proof (File_init_nonneg p g Hp) as H1.
        destruct (File_init p g) as [obj g1]. simpl in H1.
        pose proof (H1 obj (subnode_here obj)).
        apply IH; [assumption | lia |].
        apply Forall_app. split; [exact Hc | constructor; [exact H1 | constructor]].
Qed.

Lemma nonneg_tree_Directory (name : string) (size : Z) (content : list node) :
  0 <= size -> Forall nonneg_tree content ->
  nonneg_tree (Directory name size content).
Proof.
  intros Hs Hc n Hn.
  inversion Hn as [|? ? ? c Hin Hsub]; subst; [exact Hs|].
  rewrite Forall_forall in Hc. exact (Hc c Hin n Hsub).
Qed.

(** X5: on a file system that reports no negative size, no node of a
    scanned tree has a negative size, whatever errors the scan met. *)
Theorem scan_sizes_nonneg (e : entry) :
  sizes_nonneg e = true ->
  forall g n, subnode n (fst (Directory_scan e g)) -> 0 <= node_size n.
Proof.
  induction e as [ps nm sy di ls st it IH] using entry_ind'.
  intros He g.
  change (nonneg_tree (fst (Directory_scan (Entry ps nm sy di ls st it) g))).
  destruct (Directory_scan_cases (Entry ps nm sy di ls st it) g)
    as [(ex & E) | [(Hm & E) | (s1 & s2 & l & E1 & E2 & El & Ei & E)]].
  - rewrite E. apply nonneg_tree_Directory; [lia | constructor].
  - rewrite E. apply nonneg_tree_Directory; [lia | constructor].
  - simpl in E1, E2, El. subst ls st it.
    cbn [e_path e_name] in E. rewrite E.
    simpl in He. apply andb_prop in He. destruct He as [H1 Hl].
    apply Z.leb_le in H1.
    assert (Hall : Forall (fun p => sizes_nonneg p = true /\
                     forall g0, nonneg_tree (fst (Directory_scan p g0))) l).
    { rewrite forallb_forall in Hl. rewrite Forall_forall in IH |- *.
      intros p Hin. split; [apply Hl; exact Hin|].
      intros g0. exact (IH p Hin (Hl p Hin) g0). }
    destruct (iter_body_nonneg Directory_scan l Hall [] (st_size s1)
                (report_progress ps g) H1 (Forall_nil _)) as [Hc Hs].
    destruct (iter_body Directory_scan l [] (st_size s1) (report_progress ps g))
      as [[content how] g1]. simpl in Hc, Hs.
    destruct how; simpl; apply nonneg_tree_Directory; auto; try lia.
Qed.

Lemma scan_sizes_nonneg_witness :
  0 <= node_size (fst (Directory_scan fs_sample globals0)).
Proof.
  apply (scan_sizes_nonneg fs_sample eq_refl globals0). constructor.
Defined.

(** The size the loop ends with when every entry answers. *)
Lemma iter_body_usage (scan : entry -> globals -> node * globals)
    (f : entry -> Z) (l : list entry) :
  Forall (fun p => scanned_as_dir p = true ->
                   forall g, node_size (fst (scan p g)) = f p) l ->
  forallb quiet l = true ->
  forall content size g,
    snd (fst (iter_body scan l content size g)) =
      Completed (size + sum_Z (map (fun p => if scanned_as_dir p then f p
                                             else own_size p) l)).
Proof.
  induction l as [|p l IH]; intros Hl Hq content size g.
  - simpl. change (sum_Z []) with 0. f_equal. lia.
  - inversion Hl as [|? ? Hp Hl']; subst.
    simpl in Hq. apply andb_prop in Hq. destruct Hq as [Hqp Hq].
    cbn [map]. rewrite sum_Z_cons. simpl.
    unfold quiet in Hqp. unfold scanned_as_dir in Hp |- * at 1. unfold own_size at 1.
    destruct (e_is_symlink p) as [[|]|]; try discriminate.
    + destruct (e_lstat p) as [st|]; try discriminate.
      rewrite IH by assumption. f_equal. lia.
    + destruct (e_is_dir p) as [[|]|]; try discriminate.
      * pose proof (Hp eq_refl g) as H1. destruct (scan p g) as [obj g1].
        simpl in H1. rewrite IH by assumption. f_equal. lia.
      * assert (H1 : node_size (fst (File_init p g)) =
                     match e_lstat p with FsOk st => st_size st | FsErr _ => 0 end).
        { unfold File_init. destruct (e_lstat p); reflexivity. }
        destruct (File_init p g) as [obj g1]. simpl in H1.
        rewrite IH by assumption. f_equal. lia.
Qed.

(** X8: when every directory from the scanned path down is scanned without
    an error of its own, the size of the root node is the sum of the
    link-stat sizes of everything at or below the path: each directory,
    each file and each symlink counted once, no symlink followed. *)
Theorem scan_total_is_disk_usage (e : entry) :
  deep_clean e = true ->
  forall g, node_size (fst (Directory_scan e g)) = disk_usage e.
Proof.
  induction e as [ps nm sy di ls st it IH] using entry_ind'.
  intros He g. simpl in He.
  destruct ls as [s1|]; [|discriminate He].
  destruct st as [s2|]; [|discriminate He].
  apply andb_prop in He. destruct He as [Hi Hl].
  destruct it as [l|]; [|discriminate Hl].
  rewrite Directory_scan_listing by exact Hi.
  assert (Hq : forallb quiet l = true).
  { rewrite forallb_forall in Hl |- *. intros p Hin.
    pose proof (Hl p Hin) as H0. apply andb_prop in H0. tauto. }
  assert (Hall : Forall (fun p => scanned_as_dir p = true ->
                   forall g0, node_size (fst (Directory_scan p g0)) = disk_usage p) l).
  { rewrite forallb_forall in Hl. rewrite Forall_forall in IH |- *.
    intros p Hin Hd. apply IH; [exact Hin|].
    pose proof (Hl p Hin) as H0. apply andb_prop in H0.
    destruct H0 as [_ H0]. rewrite Hd in H0. exact H0. }
  pose proof (iter_body_usage Directory_scan disk_usage l Hall Hq []
                (st_size s1) (report_progress ps g)) as H1.
  destruct (iter_body Directory_scan l [] (st_size s1) (report_progress ps g))
    as [[content how] g1]. simpl in H1. subst how. reflexivity.
Qed.

Lemma scan_total_is_disk_usage_witness :
  node_size (fst (Directory_scan fs_sample globals0)) = disk_usage fs_sample.
Proof.
  apply (scan_total_is_disk_usage fs_sample). vm_compute. reflexivity.
Defined.

(** X6: a listing that breaks part-way.  When the entries [l1] answer and
    the next one does not, the [OSError] is caught and logged, the size of
    the directory is reset to 0, and the children scanned so far stay in the
    node: they are those of the same directory listing [l1] alone. *)
Theorem broken_listing_keeps_children (ps nm : string) (sy di : fsres bool)
    (s1 s2 : stat_result) (l1 l2 : list entry) (bad : entry) (g : globals) :
  (st_ino s2 =? st_ino s1) = true ->
  forallb quiet l1 = true ->
  quiet bad = false ->
  exists ex,
    fst (Directory_scan
           (Entry ps nm sy di (FsOk s1) (FsOk s2) (FsOk (l1 ++ bad :: l2)%list)) g) =
      Directory nm 0
        (node_content
           (fst (Directory_scan
                   (Entry ps nm sy di (FsOk s1) (FsOk s2) (FsOk l1)) g))) /\
    log (snd (Directory_scan
                (Entry ps nm sy di (FsOk s1) (FsOk s2) (FsOk (l1 ++ bad :: l2)%list)) g)) =
      (log (snd (Directory_scan
                   (Entry ps nm sy di (FsOk s1) (FsOk s2) (FsOk l1)) g))
         ++ [ex])%list /\
    scanned (snd (Directory_scan
                (Entry ps nm sy di (FsOk s1) (FsOk s2) (FsOk (l1 ++ bad :: l2)%list)) g)) =
      scanned (snd (Directory_scan
                      (Entry ps nm sy di (FsOk s1) (FsOk s2) (FsOk l1)) g)).
Proof.
  intros Hi Hq Hbad.
  rewrite !Directory_scan_listing by exact Hi.
  rewrite iter_body_app.
  destruct (iter_body_quiet Directory_scan l1 Hq [] (st_size s1)
              (report_progress ps g)) as (new & g' & E).
  rewrite E.
  destruct (iter_body_not_quiet Directory_scan bad l2 ([] ++ new)%list
              (st_size s1 + sum_Z (map node_size new) + sum_Z (map link_size l1))
              g' Hbad) as (ex & E2).
  rewrite E2. exists ex. simpl. auto.
Qed.

Lemma broken_listing_keeps_children_witness :
  exists ex,
    fst (Directory_scan fs_broken_listing globals0) =
      Directory "R" 0
        (node_content
           (fst (Directory_scan
                   (Entry "R" "R" (FsOk false) (FsOk true)
                      (FsOk (mk_stat 4096 2)) (FsOk (mk_stat 4096 2))
                      (FsOk [ Entry "R/a" "a" (FsOk false) (FsOk false)
                                (FsOk (mk_stat 1000 3)) (FsOk (mk_stat 1000 3))
                                (FsErr "ENOTDIR") ])) globals0))) /\
    log (snd (Directory_scan fs_broken_listing globals0)) =
      (log (snd (Directory_scan
                   (Entry "R" "R" (FsOk false) (FsOk true)
                      (FsOk (mk_stat 4096 2)) (FsOk (mk_stat 4096 2))
                      (FsOk [ Entry "R/a" "a" (FsOk false) (FsOk false)
                                (FsOk (mk_stat 1000 3)) (FsOk (mk_stat 1000 3))
                                (FsErr "ENOTDIR") ])) globals0))
         ++ [ex])%list /\
    scanned (snd (Directory_scan fs_broken_listing globals0)) =
      scanned (snd (Directory_scan
                      (Entry "R" "R" (FsOk false) (FsOk true)
                         (FsOk (mk_stat 4096 2)) (FsOk (mk_stat 4096 2))
                         (FsOk [ Entry "R/a" "a" (FsOk false) (FsOk false)
                                   (FsOk (mk_stat 1000 3)) (FsOk (mk_stat 1000 3))
                                   (FsErr "ENOTDIR") ])) globals0)).
Proof.
  apply (broken_listing_keeps_children "R" "R" (FsOk false) (FsOk true)
           (mk_stat 4096 2) (mk_stat 4096 2)
           [ Entry "R/a" "a" (FsOk false) (FsOk false)
               (FsOk (mk_stat 1000 3)) (FsOk (mk_stat 1000 3)) (FsErr "ENOTDIR") ]
           [ Entry "R/b" "b" (FsOk false) (FsOk false)
               (FsOk (mk_stat 10 4)) (FsOk (mk_stat 10 4)) (FsErr "ENOTDIR") ]
           (Entry "R/gone" "gone" (FsErr "EIO") (FsOk false)
              (FsErr "EIO") (FsErr "EIO") (FsErr "EIO"))
           globals0); reflexivity.
Defined.

(** * Further properties of [format_size] and of the statistics *)

(** ** The square root of the variance *)

(** X9: taking the standard deviation of the summary adds no failure of
    its own.  A variance [np.var] returns is a sum of squares divided by a
    count, so it is never a negative number, whatever the order in which
    numpy adds the squares: [math.sqrt] accepts it (also when it is a NaN
    or infinite) and returns its square root.  What
    [math.sqrt(np.var(others))] can raise is what [np.var] raises. *)
Theorem stddev_never_raises (others : list Z) :
  (v <- np_var others ;; math_sqrt v) = (v <- np_var others ;; Ok (fsqrt v)).
Proof.
  destruct (np_var others) as [v|e] eqn:E; [|reflexivity].
  cbn [res_bind]. apply (math_sqrt_np_var others v E).
Qed.

(** ** [float(n)] *)

Lemma of_Z_pos_finite (n : Z) :
  0 < n -> n < 2 ^ 1024 - 2 ^ 970 ->
  exists m e, of_Z n = S754_finite false m e /\ normal m e /\ -52 <= e.
Proof.
  intros Hn Hb. unfold of_Z. rewrite round_ratio_pos by exact Hn.
  assert (Hg : ge_pow n 1 0) by (unfold ge_pow; simpl; lia).
  assert (Hlt : 2 * n < (2 ^ 1025 - 2 ^ 971) * 1)
    by (eval_pow 1025; eval_pow 971; eval_pow 1024; eval_pow 970; lia).
  destruct (round_pos_normal false n 1 0 Hn Z.lt_0_1 Hg ltac:(lia) Hlt)
    as (m & e & E & Hnorm & He).
  exists m, e. auto.
Qed.

Lemma of_Z_pos_overflow (n : Z) :
  2 ^ 1024 - 2 ^ 970 <= n -> of_Z n = S754_infinity false.
Proof.
  intros Hb.
  assert (Hn : 0 < n) by (eval_pow 1024; eval_pow 970; lia).
  unfold of_Z. rewrite round_ratio_pos by exact Hn.
  apply round_pos_overflow; [exact Hn | lia |].
  eval_pow 1025; eval_pow 971; eval_pow 1024; eval_pow 970; lia.
Qed.

Lemma is_inf_fopp (x : spec_float) : is_inf (fopp x) = is_inf x.
Proof. destruct x; reflexivity. Qed.

(** [float(n)] overflows exactly outside [fits_float]. *)
Lemma is_inf_of_Z (n : Z) : is_inf (of_Z n) = negb (fits_float n).
Proof.
  unfold fits_float.
  assert (P : 0 < 2 ^ 1024 - 2 ^ 970) by (eval_pow 1024; eval_pow 970; lia).
  destruct (Z.ltb_spec n (2 ^ 1024 - 2 ^ 970)) as [Hhi|Hhi];
    destruct (Z.ltb_spec (- (2 ^ 1024 - 2 ^ 970)) n) as [Hlo|Hlo]; simpl.
  - destruct (Z.lt_trichotomy n 0) as [H|[->|H]].
    + replace n with (- - n) by lia. rewrite of_Z_opp, is_inf_fopp by lia.
      destruct (of_Z_pos_finite (- n)) as (m & e & -> & _); [lia | lia |].
      reflexivity.
    + reflexivity.
    + destruct (of_Z_pos_finite n) as (m & e & -> & _); [lia | lia |].
      reflexivity.
  - replace n with (- - n) by lia. rewrite of_Z_opp, is_inf_fopp by lia.
    rewrite of_Z_pos_overflow by lia. reflexivity.
  - rewrite of_Z_pos_overflow by lia. reflexivity.
  - lia.
Qed.

Lemma to_float_Int (n : Z) :
  to_float (Int n) =
    if fits_float n then Ok (of_Z n)
    else Raise (OverflowError "int too large to convert to float").
Proof.
  unfold to_float. rewrite is_inf_of_Z. destruct (fits_float n); reflexivity.
Qed.

(** ** [format_size] on floats *)

Lemma py_truediv_Flt_1024 (x : spec_float) :
  py_truediv (Flt x) (Int 1024) = Ok (Flt (fdiv x (of_Z 1024))).
Proof. reflexivity. Qed.

Lemma format_size_loop_float (us : list string) :
  forall x, exists v u,
    format_size_loop us (Flt x) = Ok (v ++ u)%string /\
    In u (us ++ ["YiB"])%list.
Proof.
  induction us as [|unit us IH]; intros x.
  - exists (fmt_float x), "YiB". split; [reflexivity | left; reflexivity].
  - rewrite format_size_loop_cons.
    destruct (py_lt (Flt x) (Int 1024)).
    + exists (fmt_float x), unit. split; [reflexivity | left; reflexivity].
    + rewrite py_truediv_Flt_1024. cbn [res_bind].
      destruct (IH (fdiv x (of_Z 1024))) as (v & u & E & Hin).
      exists v, u. split; [exact E | right; exact Hin].
Qed.

(** X10: [format_size] never fails on a float, be it negative, infinite or
    a NaN: it returns a text that ends in one of the nine unit labels. *)
Theorem format_size_float_total (x : spec_float) :
  exists v u, format_size (Flt x) = Ok (v ++ u)%string /\ In u labels.
Proof. apply format_size_loop_float. Qed.

(** ** [format_size] on ints *)

Lemma py_lt_Int_1024 (n : Z) : py_lt (Int n) (Int 1024) = (n <? 1024).
Proof.
  unfold py_lt. cbn [xval_of xcompare Z.min Z.sub Z.compare Z.opp
                       Z.add Z.pow Z.pow_pos Pos.iter].
  rewrite !Z.mul_1_r. unfold Z.ltb. destruct (n ?= 1024); reflexivity.
Qed.

Lemma fits_float_iff (n : Z) :
  fits_float n = true <-> - (2 ^ 1024 - 2 ^ 970) < n < 2 ^ 1024 - 2 ^ 970.
Proof.
  unfold fits_float. rewrite andb_true_iff, !Z.ltb_lt. tauto.
Qed.

Lemma format_size_Int_Ok (n : Z) :
  - (2 ^ 1024 - 2 ^ 970) < n < 2 ^ 1034 - 2 ^ 980 ->
  exists s, format_size (Int n) = Ok s.
Proof.
  intros [Hlo Hhi].
  unfold format_size, units. rewrite format_size_loop_cons, py_lt_Int_1024.
  destruct (Z.ltb_spec n 1024) as [Hs|Hs].
  - unfold fmt_g4. rewrite to_float_Int.
    assert (Hf : fits_float n = true).
    { apply fits_float_iff. split; [exact Hlo|].
      eval_pow 1024; eval_pow 970; lia. }
    rewrite Hf. cbn [res_bind]. eauto.
  - destruct (py_truediv_int_1024 n 0) as (m & e & -> & _); try lia.
    cbn [res_bind].
    destruct (format_size_loop_float
                ["KiB"; "MiB"; "GiB"; "TiB"; "PiB"; "EiB"; "ZiB"]
                (S754_finite false m e)) as (v & u & -> & _).
    eauto.
Qed.

(** ** Sizes below 1 KiB *)

Lemma printed_exactly_below_1024 : printed_exactly (sizes_below 1024) = true.
Proof. vm_compute. reflexivity. Qed.

(** X12: a size below 1024 is printed exactly: its decimal digits followed
    by [B].  (Four significant digits are enough for it.) *)
Theorem format_size_bytes_exact (n : Z) :
  0 <= n < 1024 ->
  format_size (Int n) = Ok (string_of_Z n ++ "B")%string.
Proof.
  intros Hn.
  pose proof printed_exactly_below_1024 as H.
  unfold printed_exactly in H. rewrite forallb_forall in H.
  assert (Hin : In n (sizes_below 1024)).
  { unfold sizes_below. apply in_map_iff. exists (Z.to_nat n).
    split; [lia|]. apply in_seq. lia. }
  specialize (H n Hin).
  destruct (format_size (Int n)) as [s|]; [|discriminate H].
  apply String.eqb_eq in H. rewrite H. reflexivity.
Qed.

Lemma format_size_bytes_exact_witness :
  format_size (Int 1023) = Ok (string_of_Z 1023 ++ "B")%string.
Proof. apply (format_size_bytes_exact 1023). lia. Defined.

(** * Further properties of the renderers *)

(** ** Results of steps *)

Lemma st_bind_fst {S A B : Type} (m : M S A) (k : A -> M S B) (s : S) :
  fst (st_bind m k s) =
    match fst (m s) with
    | Ok a => fst (k a (snd (m s)))
    | Raise e => Raise e
    end.
Proof. unfold st_bind. destruct (m s) as [[a|e] s']; reflexivity. Qed.

Lemma always_bind {S A B : Type} (P : res A -> Prop) (Q : res B -> Prop)
    (m : M S A) (k : A -> M S B) :
  always P m ->
  (forall e, P (Raise e) -> Q (Raise e)) ->
  (forall a, P (Ok a) -> always Q (k a)) ->
  always Q (st_bind m k).
Proof.
  intros Hm He Hk s. rewrite st_bind_fst. specialize (Hm s).
  destruct (fst (m s)) as [a|e]; [apply Hk; exact Hm | apply He; exact Hm].
Qed.

Lemma always_pointwise {S A : Type} (P : res A -> Prop) (m m' : M S A) :
  (forall s, m s = m' s) -> always P m' -> always P m.
Proof. intros E H s. rewrite E. apply H. Qed.

Lemma always_for_each {S : Type} (P : res unit -> Prop)
    (render : node -> M S unit) (l : list node) :
  P (Ok tt) ->
  (forall e, P (Raise e) -> P (Raise e)) ->
  (forall x, In x l -> always P (render x)) ->
  always P (for_each render l).
Proof.
  intros Hok _ Hr. induction l as [|x l IH]; simpl.
  - intros s. exact Hok.
  - apply (always_bind P P).
    + apply Hr. left. reflexivity.
    + auto.
    + intros _ _. apply IH. intros y Hy. apply Hr. right. exact Hy.
Qed.

Lemma only_overflow_Ok {A : Type} (a : A) : only_overflow (Ok a).
Proof. intros e H. discriminate H. Qed.

Lemma only_overflow_bind {A B : Type} (r : res A) (k : A -> res B) :
  only_overflow r -> (forall a, only_overflow (k a)) ->
  only_overflow (res_bind r k).
Proof.
  intros Hr Hk. destruct r as [a|e]; simpl; [apply Hk|].
  intros e' H. injection H as <-. apply Hr. reflexivity.
Qed.

Lemma only_overflow_Raise {A B : Type} (e : exn) :
  only_overflow (Raise e : res A) -> only_overflow (Raise e : res B).
Proof. intros H e' H'. injection H' as <-. apply H. reflexivity. Qed.

(** ** What can go wrong in the arithmetic *)

Lemma to_float_only_overflow (x : num) : only_overflow (to_float x).
Proof.
  destruct x as [n|f]; [|apply only_overflow_Ok].
  rewrite to_float_Int. destruct (fits_float n); intros e H;
    [discriminate H | injection H as <-; reflexivity].
Qed.

Lemma fmt_g4_only_overflow (x : num) : only_overflow (fmt_g4 x).
Proof.
  unfold fmt_g4. apply only_overflow_bind;
    [apply to_float_only_overflow | intros; apply only_overflow_Ok].
Qed.

Lemma format_size_Flt_Ok (x : spec_float) : exists s, format_size (Flt x) = Ok s.
Proof.
  destruct (format_size_loop_float units x) as (v & u & E & _). eauto.
Qed.

Lemma format_size_only_overflow (size : num) : only_overflow (format_size size).
Proof.
  destruct size as [n|x].
  - unfold format_size, units. rewrite format_size_loop_cons.
    destruct (py_lt (Int n) (Int 1024)).
    + apply only_overflow_bind;
        [apply fmt_g4_only_overflow | intros; apply only_overflow_Ok].
    + unfold py_truediv. cbn [Z.eqb].
      destruct (is_inf _).
      * intros e H. simpl in H. injection H as <-. reflexivity.
      * cbn [res_bind].
        match goal with
        | |- only_overflow (format_size_loop ?us (Flt ?f)) =>
            destruct (format_size_loop_float us f) as (v & u & -> & _)
        end.
        apply only_overflow_Ok.
  - destruct (format_size_Flt_Ok x) as (s & ->). apply only_overflow_Ok.
Qed.

(** X11: the [int]s [format_size] renders are exactly those from
    [-(2**1024 - 2**970)] to [2**1034 - 2**980], both excluded: below 1024
    the value itself is formatted, which converts it to [float]; from 1024 on
    it is first divided by 1024.  Outside this range the call raises, and
    what it raises is an [OverflowError]. *)
Theorem format_size_int_domain (n : Z) :
  ((exists s, format_size (Int n) = Ok s) <->
   - (2 ^ 1024 - 2 ^ 970) < n < 2 ^ 1034 - 2 ^ 980) /\
  (forall e, format_size (Int n) = Raise e -> exists msg, e = OverflowError msg).
Proof.
  split.
  - split; [|apply format_size_Int_Ok].
    intros (s & E).
    destruct (Z.lt_ge_cases n (2 ^ 1034 - 2 ^ 980)) as [Hhi|Hhi];
      [|rewrite format_size_int_overflow in E by exact Hhi; discriminate E].
    split; [|exact Hhi].
    destruct (Z.lt_ge_cases (- (2 ^ 1024 - 2 ^ 970)) n) as [Hlo|Hlo];
      [exact Hlo|exfalso].
    assert (Hsmall : n < 1024) by (eval_pow 1024; eval_pow 970; lia).
    unfold format_size, units in E. rewrite format_size_loop_cons in E.
    rewrite py_lt_Int_1024 in E. apply Z.ltb_lt in Hsmall. rewrite Hsmall in E.
    unfold fmt_g4 in E. rewrite to_float_Int in E.
    assert (Hf : fits_float n = false).
    { unfold fits_float. apply andb_false_iff. left. apply Z.ltb_ge. exact Hlo. }
    rewrite Hf in E. discriminate E.
  - intros e H. pose proof (format_size_only_overflow (Int n) e H) as Ho.
    destruct e; try discriminate Ho. eauto.
Qed.

Lemma of_Z_pos_not_zero (n : Z) : 0 < n -> is_zero (of_Z n) = false.
Proof.
  intros Hn.
  destruct (Z.lt_ge_cases n (2 ^ 1024 - 2 ^ 970)) as [H|H].
  - destruct (of_Z_pos_finite n Hn H) as (m & e & -> & _). reflexivity.
  - rewrite of_Z_pos_overflow by exact H. reflexivity.
Qed.

(** Dividing by a positive count never divides by zero. *)
Lemma py_truediv_count (x : num) (n : Z) :
  0 < n -> only_overflow (py_truediv x (Int n)).
Proof.
  intros Hn. destruct x as [a|f].
  - unfold py_truediv. destruct (Z.eqb_spec n 0) as [->|_]; [lia|].
    destruct (is_inf _); [|apply only_overflow_Ok].
    intros e H. injection H as <-. reflexivity.
  - unfold py_truediv. change (to_float (Flt f)) with (Ok f). cbn [res_bind].
    rewrite to_float_Int. destruct (fits_float n).
    + cbn [res_bind]. rewrite of_Z_pos_not_zero by exact Hn.
      apply only_overflow_Ok.
    + intros e H. simpl in H. injection H as <-. reflexivity.
Qed.

Lemma py_mul_only_overflow (x y : num) : only_overflow (py_mul x y).
Proof.
  destruct x as [a|fx], y as [b|fy]; unfold py_mul;
    try apply only_overflow_Ok;
    (apply only_overflow_bind; [apply to_float_only_overflow|]; intros;
     apply only_overflow_bind; [apply to_float_only_overflow|]; intros;
     apply only_overflow_Ok).
Qed.

Lemma min_size_only_overflow (size : Z) (threshold : num) (n : Z) :
  0 < n ->
  only_overflow (x <- py_mul (Int size) threshold ;; py_truediv x (Int n)).
Proof.
  intros Hn. apply only_overflow_bind; [apply py_mul_only_overflow|].
  intros x. apply py_truediv_count. exact Hn.
Qed.

Lemma map_res_only_overflow {A B : Type} (f : A -> res B) (l : list A) :
  (forall x, only_overflow (f x)) -> only_overflow (map_res f l).
Proof.
  intros Hf. induction l as [|x l IH]; cbn [map_res].
  - apply only_overflow_Ok.
  - apply only_overflow_bind; [apply Hf|]. intros y.
    apply only_overflow_bind; [exact IH|]. intros ys. apply only_overflow_Ok.
Qed.

(** The mean divides by the number of elements, which is not zero where
    Python divides. *)
Lemma mean_only_overflow (a : list Z) : only_overflow (mean a).
Proof.
  unfold mean. destruct (array_dtype a) eqn:E; try apply only_overflow_Ok.
  assert (Hne : a <> []) by (intros ->; discriminate E).
  apply only_overflow_bind.
  - apply py_truediv_count. destruct a; [congruence | cbn [List.length]; lia].
  - intros r. apply to_float_only_overflow.
Qed.

Lemma np_var_only_overflow (a : list Z) : only_overflow (np_var a).
Proof.
  unfold np_var. apply only_overflow_bind; [apply mean_only_overflow|].
  intros arrmean. destruct (array_dtype a); try apply only_overflow_Ok.
  apply only_overflow_bind; [|intros x; apply only_overflow_Ok].
  apply map_res_only_overflow. intros v.
  apply only_overflow_bind; [apply to_float_only_overflow|].
  intros f. apply only_overflow_Ok.
Qed.

Lemma others_stats_only_overflow (others : list Z) :
  only_overflow (others_stats others).
Proof.
  unfold others_stats.
  apply only_overflow_bind; [apply format_size_only_overflow|]. intros total.
  apply only_overflow_bind; [apply mean_only_overflow|]. intros a.
  apply only_overflow_bind; [apply format_size_only_overflow|]. intros avg.
  destruct (np_var others) as [v|e] eqn:Ev.
  - cbn [res_bind]. rewrite (math_sqrt_np_var others v Ev). cbn [res_bind].
    apply only_overflow_bind; [apply format_size_only_overflow|]. intros sd.
    apply only_overflow_Ok.
  - cbn [res_bind]. intros e' H. injection H as <-.
    apply (np_var_only_overflow others e Ev).
Qed.

Lemma others_line_only_overflow (level_str : string) (others : list Z) :
  only_overflow (others_line level_str others).
Proof.
  unfold others_line. apply only_overflow_bind;
    [apply others_stats_only_overflow|].
  intros [[[total num_] avg] stddev]. apply only_overflow_Ok.
Qed.

Lemma tree_header_only_overflow (path : node) (level_str : string) :
  only_overflow (tree_header path level_str).
Proof.
  unfold tree_header. apply only_overflow_bind;
    [apply format_size_only_overflow | intros; apply only_overflow_Ok].
Qed.

Lemma always_lift {S A : Type} (P : res A -> Prop) (r : res A) :
  P r -> always P (lift r : M S A).
Proof. intros H s. exact H. Qed.

Lemma always_print (P : res unit -> Prop) (s : string) :
  P (Ok tt) -> always P (print s).
Proof. intros H f. exact H. Qed.

Lemma always_ret {S A : Type} (P : res A -> Prop) (a : A) :
  P (Ok a) -> always P (st_ret a : M S A).
Proof. intros H s. exact H. Qed.

Lemma length_pos {A : Type} (l : list A) : l <> [] -> 0 < Z.of_nat (List.length l).
Proof. destruct l; [congruence | simpl; lia]. Qed.

Lemma print_tree_empty_dir (name : string) (size : Z) (threshold : num)
    (level : nat) (file : string) :
  print_tree (Directory name size []) threshold level file =
    (line <~ lift (tree_header (Directory name size []) (str_mul "|" level)) ;;
     print line ;> print (str_mul "|" level ++ "  (empty)")) file.
Proof. reflexivity. Qed.

Lemma In_shown (min_size : num) (content : list node) (x : node) :
  In x (shown min_size content) -> In x content.
Proof.
  unfold shown. intros H. apply filter_In in H. destruct H as [H _].
  eapply Permutation_in; [apply sorted_desc_perm | exact H].
Qed.

Lemma print_tree_only_overflow (path : node) :
  forall threshold level,
    always only_overflow (print_tree path threshold level).
Proof.
  induction path as [name size|name size content IH] using node_ind';
    intros threshold level.
  - cbn [print_tree].
    apply (always_bind only_overflow); [|apply @only_overflow_Raise|].
    + apply always_lift, tree_header_only_overflow.
    + intros line _. apply (always_bind only_overflow); [|apply @only_overflow_Raise|].
      * apply always_print, only_overflow_Ok.
      * intros _ _. apply always_ret, only_overflow_Ok.
  - destruct content as [|c0 cs].
    + eapply always_pointwise; [intros s; apply print_tree_empty_dir|].
      apply (always_bind only_overflow); [|apply @only_overflow_Raise|].
      * apply always_lift, tree_header_only_overflow.
      * intros line _. apply (always_bind only_overflow); [|apply @only_overflow_Raise|].
        -- apply always_print, only_overflow_Ok.
        -- intros _ _. apply always_print, only_overflow_Ok.
    + set (content := c0 :: cs) in *.
      assert (Hne : content <> []) by discriminate.
      eapply always_pointwise;
        [intros s; apply (print_tree_rule name size content threshold level s Hne)|].
      apply (always_bind only_overflow); [|apply @only_overflow_Raise|].
      { apply always_lift, tree_header_only_overflow. }
      intros line _. apply (always_bind only_overflow); [|apply @only_overflow_Raise|].
      { apply always_print, only_overflow_Ok. }
      intros _ _. apply (always_bind only_overflow); [|apply @only_overflow_Raise|].
      { apply always_lift, min_size_only_overflow, length_pos, Hne. }
      intros min_size _. apply (always_bind only_overflow); [|apply @only_overflow_Raise|].
      { apply always_for_each; [apply only_overflow_Ok | auto |].
        intros x Hx. rewrite Forall_forall in IH.
        apply IH. eapply In_shown; exact Hx. }
      intros _ _. destruct (deferred min_size content).
      { apply always_ret, only_overflow_Ok. }
      apply (always_bind only_overflow); [|apply @only_overflow_Raise|].
      { apply always_lift, others_line_only_overflow. }
      intros ln _. apply always_print, only_overflow_Ok.
Qed.

(** ** The two renderers end the same way *)

Lemma same_result_bind {S S' A B : Type} (m : M S A) (m' : M S' A)
    (k : A -> M S B) (k' : A -> M S' B) :
  same_result m m' -> (forall a, same_result (k a) (k' a)) ->
  same_result (st_bind m k) (st_bind m' k').
Proof.
  intros Hm Hk s s'. rewrite !st_bind_fst, (Hm s s').
  destruct (fst (m' s')); [apply Hk | reflexivity].
Qed.

Lemma same_result_skip_r {S S' A C : Type} (m : M S A) (w : M S' C)
    (k' : C -> M S' A) :
  (forall s', exists c, fst (w s') = Ok c) ->
  (forall c, same_result m (k' c)) ->
  same_result m (st_bind w k').
Proof.
  intros Hw Hk s s'. rewrite st_bind_fst.
  destruct (Hw s') as (c & ->). apply Hk.
Qed.

Lemma same_result_lift_bind {S S' A A' B : Type} (r : res A) (r' : res A')
    (k : A -> M S B) (k' : A' -> M S' B) :
  match r, r' with
  | Ok a, Ok a' => same_result (k a) (k' a')
  | Raise e, Raise e' => e = e'
  | _, _ => False
  end ->
  same_result (st_bind (lift r) k) (st_bind (lift r') k').
Proof.
  intros H s s'. unfold st_bind, lift.
  destruct r as [a|e], r' as [a'|e']; try contradiction.
  - apply H.
  - subst. reflexivity.
Qed.

Lemma same_result_for_each {S S' : Type} (render : node -> M S unit)
    (render' : node -> M S' unit) (l : list node) :
  (forall x, In x l -> same_result (render x) (render' x)) ->
  same_result (for_each render l) (for_each render' l).
Proof.
  induction l as [|x l IH]; intros H; simpl.
  - intros s s'. reflexivity.
  - apply same_result_bind; [apply H; left; reflexivity|].
    intros _. apply IH. intros y Hy. apply H. right. exact Hy.
Qed.

Lemma same_result_pointwise {S S' A : Type} (m1 m2 : M S A) (m1' m2' : M S' A) :
  (forall s, m1 s = m2 s) -> (forall s', m1' s' = m2' s') ->
  same_result m2 m2' -> same_result m1 m1'.
Proof. intros E E' H s s'. rewrite E, E'. apply H. Qed.

Lemma print_html_tree_elements_empty_dir (name : string) (size : Z)
    (threshold : num) (level : nat) (st : hstate) :
  print_html_tree_elements (Directory name size []) threshold level st =
    (builder_write (FolderOpen (str_mul " " level)) ;>
     id <~ counter_next ;;
     fs <~ lift (format_size (Int size)) ;;
     builder_write (FolderLabel (str_mul " " level) id (html_escape name)
                      (html_escape fs)) ;>
     builder_write (EmptyDiv (str_mul " " level)) ;>
     builder_write (FolderClose (str_mul " " level))) st.
Proof.
  cbn [print_html_tree_elements map sorted_desc fold_right].
  unfold st_bind, builder_write, counter_next, lift.
  destruct (format_size (Int size)); reflexivity.
Qed.

Lemma builder_write_Ok (c : chunk) (st : hstate) :
  exists u, fst (builder_write c st) = Ok u.
Proof. exists tt. reflexivity. Qed.

Lemma counter_next_Ok (st : hstate) : exists n, fst (counter_next st) = Ok n.
Proof. exists (counter st). reflexivity. Qed.

Lemma same_result_header (path : node) (level_str : string) (size : Z)
    {S S' B : Type} (k : string -> M S B) (k' : string -> M S' B) :
  node_size path = size ->
  (forall a a', same_result (k a) (k' a')) ->
  same_result (st_bind (lift (tree_header path level_str)) k)
              (st_bind (lift (format_size (Int size))) k').
Proof.
  intros <- H. apply same_result_lift_bind. unfold tree_header.
  destruct (format_size (Int (node_size path))); simpl; [apply H | reflexivity].
Qed.

Lemma renderers_same_result (path : node) :
  forall threshold level level',
    same_result (print_tree path threshold level)
                (print_html_tree_elements path threshold level').
Proof.
  induction path as [name size|name size content IH] using node_ind';
    intros threshold level level'.
  - cbn [print_tree print_html_tree_elements].
    apply same_result_header; [reflexivity|]. intros a a' s s'. reflexivity.
  - destruct content as [|c0 cs].
    + eapply same_result_pointwise;
        [intros s; apply print_tree_empty_dir
        |intros s; apply print_html_tree_elements_empty_dir|].
      apply same_result_skip_r; [apply builder_write_Ok|]. intros _.
      apply same_result_skip_r; [apply counter_next_Ok|]. intros id.
      apply same_result_header; [reflexivity|]. intros a a' s s'. reflexivity.
    + set (content := c0 :: cs) in *.
      assert (Hne : content <> []) by discriminate.
      eapply same_result_pointwise;
        [intros s; apply (print_tree_rule name size content threshold level s Hne)
        |intros s; apply (print_html_tree_elements_rule name size content
                            threshold level' s Hne)|].
      apply same_result_skip_r; [apply builder_write_Ok|]. intros _.
      apply same_result_skip_r; [apply counter_next_Ok|]. intros id.
      apply same_result_header; [reflexivity|]. intros a a'.
      apply same_result_bind; [intros s s'; reflexivity|]. intros _.
      apply same_result_bind; [intros s s'; reflexivity|]. intros min_size.
      apply same_result_bind.
      { apply same_result_for_each. intros x Hx. rewrite Forall_forall in IH.
        apply IH. eapply In_shown; exact Hx. }
      intros _ s s'. destruct (deferred min_size content) as [|o os].
      { reflexivity. }
      unfold others_line, others_div, st_bind, lift, print, builder_write.
      destruct (others_stats (o :: os)) as [[[[total num_] avg] stddev]|e];
        reflexivity.
Qed.

(** X14: the two renderers end the same way on every tree and threshold:
    the document renderer returns exactly when the text renderer returns,
    and otherwise raises the same exception. *)
Theorem renderers_fail_alike (path : node) (threshold : num)
    (level level' : nat) (file : string) (st : hstate) :
  fst (print_html_tree_elements path threshold level' st) =
    fst (print_tree path threshold level file).
Proof. symmetry. apply renderers_same_result. Qed.

(** X13: whatever the tree, the level, and the threshold (an [int] or a
    [float]), neither renderer raises [ZeroDivisionError] or the
    [ValueError] of [math.sqrt]: the division by the number of children
    never divides by zero, because the empty directory is dealt with
    before; the mean divides by the number of deferred sizes, of which there
    is at least one; and the square root is never taken of a negative
    variance. *)
Theorem renderers_no_domain_error (path : node) (threshold : num)
    (level : nat) (e : exn) :
  (forall file,
     fst (print_tree path threshold level file) = Raise e ->
     domain_error e = false) /\
  (forall st,
     fst (print_html_tree_elements path threshold level st) = Raise e ->
     domain_error e = false).
Proof.
  assert (H : forall file,
            fst (print_tree path threshold level file) = Raise e ->
            domain_error e = false).
  { intros file H.
    pose proof (print_tree_only_overflow path threshold level file e H) as Ho.
    destruct e; try discriminate Ho. reflexivity. }
  split; [exact H|].
  intros st Hst. apply (H EmptyString).
  rewrite (renderers_same_result path threshold level level EmptyString st).
  exact Hst.
Qed.

Lemma renderers_no_domain_error_witness :
  domain_error (OverflowError "integer division result too large for a float")
  = false.
Proof.
  apply (proj1 (renderers_no_domain_error (File "f" (2 ^ 1034))
                  default_threshold 0
                  (OverflowError "integer division result too large for a float"))
           EmptyString).
  vm_compute. reflexivity.
Defined.

(** ** Trees on which the arithmetic cannot fail *)

Lemma sum_Z_perm (l1 l2 : list Z) : Permutation l1 l2 -> sum_Z l1 = sum_Z l2.
Proof.
  induction 1; rewrite ?sum_Z_cons; lia.
Qed.

Lemma sum_Z_filter_le {A : Type} (f : A -> Z) (g : A -> bool) (l : list A) :
  Forall (fun x => 0 <= f x) l ->
  0 <= sum_Z (map f (filter g l)) <= sum_Z (map f l).
Proof.
  induction 1 as [|x l Hx Hl IH]; simpl.
  - change (sum_Z []) with 0. lia.
  - destruct (g x); simpl; rewrite ?sum_Z_cons; lia.
Qed.

Lemma size_ok_iff (z : Z) :
  size_ok z = true <-> 0 <= z < 2 ^ 1024 - 2 ^ 970.
Proof.
  unfold size_ok. rewrite andb_true_iff, Z.leb_le, fits_float_iff.
  assert (0 < 2 ^ 1024 - 2 ^ 970) by (eval_pow 1024; eval_pow 970; lia).
  lia.
Qed.

Lemma format_size_size_ok (z : Z) :
  size_ok z = true -> exists s, format_size (Int z) = Ok s.
Proof.
  intros H. apply size_ok_iff in H. apply format_size_Int_Ok.
  eval_pow 1024; eval_pow 970; eval_pow 1034; eval_pow 980; lia.
Qed.

Lemma tree_in_range_size (n : node) :
  tree_in_range n = true -> size_ok (node_size n) = true.
Proof.
  destruct n as [name size|name size content]; simpl; [auto|].
  rewrite !andb_true_iff. tauto.
Qed.

Lemma min_size_of_Flt (size : Z) (t : spec_float) (n : nat) :
  size_ok size = true -> (0 < n)%nat -> fits_float (Z.of_nat n) = true ->
  exists x, min_size_of size (Flt t) n = Ok (Flt x).
Proof.
  intros Hs Hn Hf. unfold min_size_of, py_mul, size_ok in *.
  apply andb_prop in Hs. destruct Hs as [_ Hs].
  rewrite to_float_Int, Hs. cbn [res_bind to_float].
  unfold py_truediv. change (to_float (Flt ?f)) with (Ok f). cbn [res_bind].
  rewrite to_float_Int, Hf. cbn [res_bind].
  rewrite of_Z_pos_not_zero by lia. eauto.
Qed.

(** A quotient under the overflow threshold does not round to infinity,
    however small it is. *)
Lemma round_pos_not_inf (s : bool) (a b : Z) :
  0 < a -> 0 < b -> 2 * a < (2 ^ 1025 - 2 ^ 971) * b ->
  is_inf (round_pos s a b) = false.
Proof.
  intros Ha Hb Hov.
  destruct (Z.le_gt_cases (b * 2 ^ Z.max 0 (-1022)) (a * 2 ^ Z.max 0 (- -1022)))
    as [Hge|Hlt].
  - destruct (round_pos_normal s a b (-1022) Ha Hb Hge ltac:(lia) Hov)
      as (m & e & -> & _). reflexivity.
  - assert (Hl : ilog2_ratio a b < -1022)
      by (apply ilog2_ratio_lt; [assumption | assumption | unfold ge_pow; lia]).
    unfold round_pos.
    replace (Z.max (ilog2_ratio a b - 52) (-1074)) with (-1074) by lia.
    destruct (_ =? 2 ^ 53); [reflexivity|].
    destruct (div_rne _ _) as [|p|p]; reflexivity.
Qed.

Lemma py_truediv_count_Ok (x n : Z) :
  size_ok x = true -> 0 < n -> exists f, py_truediv (Int x) (Int n) = Ok (Flt f).
Proof.
  intros Hx Hn. apply size_ok_iff in Hx. unfold py_truediv.
  destruct (Z.eqb_spec n 0) as [->|_]; [lia|].
  destruct (Z.eqb_spec x 0) as [->|Nx]; [cbn [is_inf]; eauto|].
  replace (Z.sgn n) with 1 by lia. rewrite Z.mul_1_r, Z.abs_eq by lia.
  rewrite round_ratio_pos by lia.
  rewrite round_pos_not_inf; [eauto | lia | lia |].
  revert Hx. eval_pow 1025; eval_pow 971; eval_pow 1024; eval_pow 970.
  intros Hx. nia.
Qed.

Lemma map_res_Ok {A B : Type} (f : A -> res B) (l : list A) :
  (forall x, In x l -> exists y, f x = Ok y) -> exists ys, map_res f l = Ok ys.
Proof.
  induction l as [|x l IH]; intros Hf; cbn [map_res]; [eauto|].
  destruct (Hf x (or_introl eq_refl)) as (y & ->). cbn [res_bind].
  destruct IH as (ys & ->); [intros z Hz; apply Hf; right; exact Hz|].
  cbn [res_bind]. eauto.
Qed.

Lemma mean_Ok (a : list Z) :
  a <> [] -> size_ok (sum_Z a) = true -> exists m, mean a = Ok m.
Proof.
  intros Hne Hs. unfold mean. destruct (array_dtype a); eauto.
  destruct (py_truediv_count_Ok (sum_Z a) (Z.of_nat (List.length a)) Hs)
    as (f & ->); [destruct a; [congruence | cbn [List.length]; lia]|].
  cbn [res_bind to_float]. eauto.
Qed.

Lemma np_var_Ok (a : list Z) :
  a <> [] -> Forall (fun v => 0 <= v) a -> size_ok (sum_Z a) = true ->
  exists v, np_var a = Ok v.
Proof.
  intros Hne Ha Hs. unfold np_var.
  destruct (mean_Ok a Hne Hs) as (m & ->). cbn [res_bind].
  destruct (array_dtype a); eauto.
  destruct (map_res_Ok (fun v => f <- to_float (Int v) ;; Ok (fsub f m)) a)
    as (x & ->); [|cbn [res_bind]; eauto].
  intros v Hv. rewrite to_float_Int.
  pose proof (sum_Z_In_le a v Ha Hv) as Hle.
  rewrite Forall_forall in Ha. specialize (Ha v Hv).
  apply size_ok_iff in Hs.
  assert (Hf : fits_float v = true) by (apply fits_float_iff; lia).
  rewrite Hf. cbn [res_bind]. eauto.
Qed.

Lemma others_stats_Ok (others : list Z) :
  others <> [] -> Forall (fun v => 0 <= v) others ->
  size_ok (sum_Z others) = true -> exists st, others_stats others = Ok st.
Proof.
  intros Hne Ha H. unfold others_stats.
  destruct (format_size_size_ok _ H) as (total & ->). cbn [res_bind].
  destruct (mean_Ok others Hne H) as (m & Em).
  change (np_average others) with (mean others). rewrite Em. cbn [res_bind].
  destruct (format_size_Flt_Ok m) as (avg & ->). cbn [res_bind].
  destruct (np_var_Ok others Hne Ha H) as (v & Ev). rewrite Ev.
  cbn [res_bind]. rewrite (math_sqrt_np_var others v Ev). cbn [res_bind].
  destruct (format_size_Flt_Ok (fsqrt v)) as (sd & ->).
  cbn [res_bind]. eauto.
Qed.

Lemma deferred_nonneg (min_size : num) (content : list node) :
  forallb tree_in_range content = true ->
  Forall (fun v => 0 <= v) (deferred min_size content).
Proof.
  intros Hall. unfold deferred. apply Forall_forall. intros v Hv.
  apply in_map_iff in Hv. destruct Hv as (c & <- & Hc).
  apply filter_In in Hc. destruct Hc as [Hc _].
  assert (Hin : In c content)
    by (eapply Permutation_in; [apply sorted_desc_perm | exact Hc]).
  rewrite forallb_forall in Hall.
  pose proof (tree_in_range_size c (Hall c Hin)) as H0.
  apply size_ok_iff in H0. lia.
Qed.

Lemma deferred_size_ok (min_size : num) (content : list node) :
  forallb tree_in_range content = true ->
  size_ok (sum_Z (map node_size content)) = true ->
  size_ok (sum_Z (deferred min_size content)) = true.
Proof.
  intros Hall Hsum. apply size_ok_iff. apply size_ok_iff in Hsum.
  unfold deferred.
  assert (Hpos : Forall (fun c => 0 <= node_size c)
                   (sorted_desc node_size content)).
  { rewrite Forall_forall. intros c Hc.
    assert (Hin : In c content)
      by (eapply Permutation_in; [apply sorted_desc_perm | exact Hc]).
    rewrite forallb_forall in Hall.
    pose proof (tree_in_range_size c (Hall c Hin)) as H0.
    apply size_ok_iff in H0. lia. }
  pose proof (sum_Z_filter_le node_size
                (fun c => negb (py_ge (Int (node_size c)) min_size)) _ Hpos) as H1.
  rewrite (sum_Z_perm (map node_size (sorted_desc node_size content))
             (map node_size content)) in H1
    by (apply Permutation_map, sorted_desc_perm).
  lia.
Qed.

Lemma always_bind_lift_Ok {S A B : Type} (Q : res B -> Prop) (r : res A)
    (k : A -> M S B) (a : A) :
  r = Ok a -> always Q (k a) -> always Q (st_bind (lift r) k).
Proof. intros -> H s. apply H. Qed.

Lemma always_bind_print {B : Type} (Q : res B -> Prop) (line : string)
    (k : unit -> M string B) :
  always Q (k tt) -> always Q (st_bind (print line) k).
Proof. intros H file. rewrite st_bind_fst. apply H. Qed.

Lemma print_tree_returns (path : node) :
  tree_in_range path = true ->
  forall t level, always returns (print_tree path (Flt t) level).
Proof.
  induction path as [name size|name size content IH] using node_ind';
    intros Hr t level.
  - intros file. cbn [print_tree]. unfold tree_header, st_bind, lift, print.
    simpl in Hr. cbn [node_size].
    destruct (format_size_size_ok size Hr) as (s & ->). reflexivity.
  - simpl in Hr. rewrite !andb_true_iff in Hr.
    destruct Hr as [[[Hsize Hsum] Hlen] Hall].
    destruct (format_size_size_ok size Hsize) as (fs & Efs).
    destruct content as [|c0 cs].
    + intros file. rewrite print_tree_empty_dir.
      unfold tree_header, st_bind, lift, print. cbn [node_size].
      rewrite Efs. reflexivity.
    + set (content := c0 :: cs) in *.
      assert (Hne : content <> []) by discriminate.
      destruct (min_size_of_Flt size t (List.length content) Hsize
                  ltac:(simpl; lia) Hlen) as (x & Emin).
      eapply always_pointwise;
        [intros s; apply (print_tree_rule name size content (Flt t) level s Hne)|].
      eapply always_bind_lift_Ok;
        [unfold tree_header; cbn [node_size]; rewrite Efs; reflexivity|].
      apply always_bind_print.
      eapply always_bind_lift_Ok; [exact Emin|].
      apply (always_bind returns returns); [|auto|].
      { apply always_for_each; [reflexivity | auto |].
        intros c Hc. rewrite Forall_forall in IH.
        assert (Hin : In c content) by (eapply In_shown; exact Hc).
        apply IH; [exact Hin|].
        rewrite forallb_forall in Hall. apply Hall. exact Hin. }
      intros _ _. destruct (deferred (Flt x) content) as [|o os] eqn:Ed.
      { intros file. reflexivity. }
      destruct (others_stats_Ok (o :: os)) as ([[[total num_] avg] sd] & Est).
      { discriminate. }
      { rewrite <- Ed. apply deferred_nonneg. exact Hall. }
      { rewrite <- Ed. apply deferred_size_ok; assumption. }
      eapply always_bind_lift_Ok;
        [unfold others_line; rewrite Est; reflexivity|].
      intros file. reflexivity.
Qed.

(** X15: on a tree whose sizes are not negative and within the range of
    [float] (and so are, for each directory, the sum of the sizes of its
    children and their number), with a threshold that is a [float], as the
    default 1.2 is, and at a level from which the level strings keep a
    length Python can index, the arithmetic of the renderers does not fail:
    neither raises an [OverflowError], a [ZeroDivisionError] or the
    [ValueError] of [math.sqrt]. *)
Theorem renderers_no_arithmetic_error (path : node) (t : spec_float)
    (level : nat) (e : exn) :
  tree_in_range path = true ->
  Z.of_nat level + tree_depth path < 2 ^ 31 ->
  (forall file,
     fst (print_tree path (Flt t) level file) = Raise e ->
     arithmetic_error e = false) /\
  (forall st,
     fst (print_html_tree_elements path (Flt t) level st) = Raise e ->
     arithmetic_error e = false) /\
  (forall g,
     fst (print_html_tree path (Flt t) level g) = Raise e ->
     arithmetic_error e = false).
Proof.
  intros Hr _.
  assert (H1 : forall file, fst (print_tree path (Flt t) level file) = Ok tt)
    by (intros file; apply print_tree_returns; exact Hr).
  assert (H2 : forall st,
            fst (print_html_tree_elements path (Flt t) level st) = Ok tt).
  { intros st.
    rewrite <- (renderers_same_result path (Flt t) level level EmptyString st).
    apply H1. }
  split; [intros file H; rewrite H1 in H; discriminate H|].
  split; [intros st H; rewrite H2 in H; discriminate H|].
  intros g. unfold print_html_tree.
  specialize (H2 (mk_hstate (default_counter g) [])).
  destruct (print_html_tree_elements path (Flt t) level
              (mk_hstate (default_counter g) [])) as [[u|e'] st];
    [intros H; discriminate H | discriminate H2].
Qed.

Lemma renderers_no_arithmetic_error_witness :
  tree_in_range tree_R = true /\
  Z.of_nat 0 + tree_depth tree_R < 2 ^ 31 /\
  forall e file,
    fst (print_tree tree_R default_threshold 0 file) = Raise e ->
    arithmetic_error e = false.
Proof.
  split; [vm_compute; reflexivity|].
  split; [vm_compute; reflexivity|].
  intros e.
  apply (renderers_no_arithmetic_error tree_R (round_ratio 12 10) 0 e);
    vm_compute; reflexivity.
Defined.

(** ** The blocks of the document *)

Lemma nesting_app (a b : list chunk) :
  forall d,
    nesting (a ++ b) d =
      match nesting a d with
      | Some d' => nesting b d'
      | None => None
      end.
Proof.
  induction a as [|c a IH]; intros d; simpl; [reflexivity|].
  destruct c; try apply IH. destruct d; [reflexivity | apply IH].
Qed.

Lemma whole_blocks_refl (st : hstate) : whole_blocks st st.
Proof.
  exists []. rewrite app_nil_r, Nat.sub_diag. simpl. auto.
Qed.

Lemma seq_split (a b c : nat) :
  (a <= b)%nat -> (b <= c)%nat ->
  seq a (c - a) = (seq a (b - a) ++ seq b (c - b))%list.
Proof.
  intros H1 H2. replace (c - a)%nat with ((b - a) + (c - b))%nat by lia.
  rewrite seq_app. replace (a + (b - a))%nat with b by lia. reflexivity.
Qed.

Lemma whole_blocks_trans (s1 s2 s3 : hstate) :
  whole_blocks s1 s2 -> whole_blocks s2 s3 -> whole_blocks s1 s3.
Proof.
  intros (n1 & B1 & N1 & C1 & T1) (n2 & B2 & N2 & C2 & T2).
  exists (n1 ++ n2)%list. rewrite B2, B1, app_assoc.
  split; [reflexivity|]. split.
  - intros d. rewrite nesting_app, N1. apply N2.
  - split; [lia|]. rewrite toggle_ids_app, T1, T2. symmetry.
    apply seq_split; assumption.
Qed.

Lemma whole_then_closing (s1 s2 s3 : hstate) :
  whole_blocks s1 s2 -> closing_block s2 s3 -> closing_block s1 s3.
Proof.
  intros (n1 & B1 & N1 & C1 & T1) (n2 & lv & B2 & N2 & C2 & T2).
  exists (n1 ++ n2)%list, lv. rewrite B2, B1, <- !app_assoc.
  split; [reflexivity|]. split.
  - intros d. rewrite nesting_app, N1. apply N2.
  - split; [lia|]. rewrite toggle_ids_app, T1, T2. symmetry.
    apply seq_split; assumption.
Qed.

Lemma on_return_bind {A B : Type} (Q1 Q2 Q3 : hstate -> hstate -> Prop)
    (m : M hstate A) (k : A -> M hstate B) :
  (forall s1 s2 s3, Q1 s1 s2 -> Q2 s2 s3 -> Q3 s1 s3) ->
  on_return Q1 m -> (forall a, on_return Q2 (k a)) ->
  on_return Q3 (st_bind m k).
Proof.
  intros Hc Hm Hk st b st' H. unfold st_bind in H.
  destruct (m st) as [[a|e] s1] eqn:E; [|discriminate H].
  eapply Hc; [eapply Hm; exact E | eapply Hk; exact H].
Qed.

Lemma on_return_lift {A : Type} (r : res A) : on_return whole_blocks (lift r).
Proof.
  intros st a st' H. unfold lift in H. injection H as _ <-.
  apply whole_blocks_refl.
Qed.

Lemma on_return_ret {A : Type} (a : A) :
  on_return whole_blocks (st_ret a : M hstate A).
Proof.
  intros st b st' H. unfold st_ret in H. injection H as _ <-.
  apply whole_blocks_refl.
Qed.

(** A chunk that neither opens nor closes a block nor carries a toggle. *)
Lemma on_return_write (c : chunk) :
  (forall d, nesting [c] d = Some d) -> toggle_ids [c] = [] ->
  on_return whole_blocks (builder_write c).
Proof.
  intros Hn Ht st a st' H. unfold builder_write in H. injection H as _ <-.
  exists [c]. cbn [builder counter]. rewrite Nat.sub_diag. auto.
Qed.

Lemma on_return_close (level_str : string) :
  on_return closing_block (builder_write (FolderClose level_str)).
Proof.
  intros st a st' H. unfold builder_write in H. injection H as _ <-.
  exists [], level_str. cbn [builder counter]. rewrite Nat.sub_diag.
  simpl. auto.
Qed.

Lemma on_return_for_each (render : node -> M hstate unit) (l : list node) :
  (forall x, In x l -> on_return whole_blocks (render x)) ->
  on_return whole_blocks (for_each render l).
Proof.
  induction l as [|x l IH]; intros H; simpl.
  - apply on_return_ret.
  - eapply on_return_bind; [exact whole_blocks_trans | |].
    + apply H. left. reflexivity.
    + intros _. apply IH. intros y Hy. apply H. right. exact Hy.
Qed.

Lemma on_return_pointwise {A : Type} (Q : hstate -> hstate -> Prop)
    (m m' : M hstate A) :
  (forall st, m st = m' st) -> on_return Q m' -> on_return Q m.
Proof. intros E H st a st' H0. rewrite E in H0. eapply H; exact H0. Qed.

(** The opening of a folder block, followed by the rest of it. *)
Lemma on_return_folder (level_str name : string) (r : res string)
    (rest : M hstate unit) :
  on_return closing_block rest ->
  on_return whole_blocks
    (builder_write (FolderOpen level_str) ;>
     id <~ counter_next ;;
     fs <~ lift r ;;
     builder_write (FolderLabel level_str id name (html_escape fs)) ;> rest).
Proof.
  intros Hrest st a st' H.
  unfold st_bind, builder_write, counter_next, lift in H.
  cbn [counter builder] in H.
  destruct r as [fs|e]; [|discriminate H].
  destruct (Hrest _ _ _ H) as (new & lv & B & N & C & T).
  cbn [builder counter] in B, C, T.
  exists ([FolderOpen level_str;
           FolderLabel level_str (counter st) name (html_escape fs)]
            ++ new ++ [FolderClose lv])%list.
  split; [rewrite B, <- !app_assoc; reflexivity|]. split.
  - intros d. cbn [app nesting]. rewrite nesting_app, N. reflexivity.
  - split; [lia|].
    rewrite !toggle_ids_app, T. cbn [toggle_ids flat_map app].
    rewrite app_nil_r.
    replace (counter st' - counter st)%nat
      with (S (counter st' - S (counter st))) by lia.
    reflexivity.
Qed.

Lemma others_div_write (level_str : string) (others : list Z) :
  on_return whole_blocks
    (line <~ lift (others_div level_str others) ;; builder_write line).
Proof.
  intros st a st' H. unfold st_bind, lift in H.
  destruct (others_div level_str others) as [line|e] eqn:E; [|discriminate H].
  destruct (others_div_inv _ _ _ E) as (sz & n & avg & sd & ->).
  revert H. apply on_return_write; reflexivity.
Qed.

Lemma print_html_tree_elements_whole (path : node) :
  forall threshold level,
    on_return whole_blocks (print_html_tree_elements path threshold level).
Proof.
  induction path as [name size|name size content IH] using node_ind';
    intros threshold level.
  - cbn [print_html_tree_elements].
    eapply on_return_bind;
      [exact whole_blocks_trans | apply on_return_lift |].
    intros fs. apply on_return_write; reflexivity.
  - destruct content as [|c0 cs].
    + eapply on_return_pointwise;
        [intros st; apply print_html_tree_elements_empty_dir|].
      apply on_return_folder.
      eapply on_return_bind; [exact whole_then_closing | |].
      * apply on_return_write; reflexivity.
      * intros _. apply on_return_close.
    + set (content := c0 :: cs) in *.
      assert (Hne : content <> []) by discriminate.
      eapply on_return_pointwise;
        [intros st; apply (print_html_tree_elements_rule name size content
                             threshold level st Hne)|].
      apply on_return_folder.
      eapply on_return_bind;
        [exact whole_then_closing | apply on_return_lift |].
      intros min_size.
      eapply on_return_bind; [exact whole_then_closing | |].
      { apply on_return_for_each. intros x Hx. rewrite Forall_forall in IH.
        apply IH. eapply In_shown; exact Hx. }
      intros _.
      eapply on_return_bind; [exact whole_then_closing | |].
      { destruct (deferred min_size content);
          [apply on_return_ret | apply others_div_write]. }
      intros _. apply on_return_close.
Qed.

(** X16: what a finished pass of the document renderer has added to its
    builder consists of whole folder blocks: every block opened is closed,
    and none is closed that was not opened.  Its toggles are numbered by
    consecutive integers, from the value the counter had when the pass
    began up to the value it has at the end. *)
Theorem document_blocks_whole (path : node) (threshold : num) (level : nat)
    (st : hstate) :
  fst (print_html_tree_elements path threshold level st) = Ok tt ->
  exists new,
    builder (snd (print_html_tree_elements path threshold level st)) =
      (builder st ++ new)%list /\
    (forall d, nesting new d = Some d) /\
    (counter st <=
       counter (snd (print_html_tree_elements path threshold level st)))%nat /\
    toggle_ids new =
      seq (counter st)
          (counter (snd (print_html_tree_elements path threshold level st))
             - counter st).
Proof.
  intros H.
  apply (print_html_tree_elements_whole path threshold level st tt).
  destruct (print_html_tree_elements path threshold level st) as [r st'].
  simpl in H. subst r. reflexivity.
Qed.

Lemma document_blocks_whole_witness :
  exists new,
    builder (snd (print_html_tree_elements tree_R default_threshold 0
                    (mk_hstate 7 []))) = ([] ++ new)%list /\
    (forall d, nesting new d = Some d) /\
    (7 <= counter (snd (print_html_tree_elements tree_R default_threshold 0
                          (mk_hstate 7 []))))%nat /\
    toggle_ids new =
      seq 7 (counter (snd (print_html_tree_elements tree_R default_threshold 0
                             (mk_hstate 7 []))) - 7).
Proof.
  apply (document_blocks_whole tree_R default_threshold 0 (mk_hstate 7 [])).
  vm_compute. reflexivity.
Defined.

(** ** The text renderer and its file *)

Lemma string_app_nil_r (s : string) : s ++ "" = s.
Proof. induction s as [|c s IH]; simpl; [reflexivity | rewrite IH; reflexivity]. Qed.

Lemma appending_ret {A : Type} (a : A) : appending (st_ret a).
Proof. intros file. unfold st_ret. simpl. rewrite string_app_nil_r. reflexivity. Qed.

Lemma appending_lift {A : Type} (r : res A) : appending (lift r).
Proof. intros file. unfold lift. simpl. rewrite string_app_nil_r. reflexivity. Qed.

Lemma appending_print (line : string) : appending (print line).
Proof. intros file. reflexivity. Qed.

Lemma appending_bind {A B : Type} (m : M string A) (k : A -> M string B) :
  appending m -> (forall a, appending (k a)) -> appending (st_bind m k).
Proof.
  intros Hm Hk file. unfold st_bind. rewrite (Hm file).
  destruct (m "") as [[a|e] o]; simpl.
  - rewrite (Hk a (file ++ o)), (Hk a o). simpl.
    rewrite string_app_assoc. reflexivity.
  - reflexivity.
Qed.

Lemma appending_for_each (render : node -> M string unit) (l : list node) :
  (forall x, In x l -> appending (render x)) -> appending (for_each render l).
Proof.
  induction l as [|x l IH]; intros H; simpl.
  - apply appending_ret.
  - apply appending_bind; [apply H; left; reflexivity|].
    intros _. apply IH. intros y Hy. apply H. right. exact Hy.
Qed.

Lemma appending_pointwise {A : Type} (m m' : M string A) :
  (forall s, m s = m' s) -> appending m' -> appending m.
Proof. intros E H file. rewrite !E. apply H. Qed.

Lemma print_tree_appending (path : node) :
  forall threshold level, appending (print_tree path threshold level).
Proof.
  induction path as [name size|name size content IH] using node_ind';
    intros threshold level.
  - cbn [print_tree].
    apply appending_bind; [apply appending_lift|]. intros line.
    apply appending_bind; [apply appending_print|]. intros _.
    apply appending_ret.
  - destruct content as [|c0 cs].
    + eapply appending_pointwise; [intros s; apply print_tree_empty_dir|].
      apply appending_bind; [apply appending_lift|]. intros line.
      apply appending_bind; [apply appending_print|]. intros _.
      apply appending_print.
    + set (content := c0 :: cs) in *.
      assert (Hne : content <> []) by discriminate.
      eapply appending_pointwise;
        [intros s; apply (print_tree_rule name size content threshold level s Hne)|].
      apply appending_bind; [apply appending_lift|]. intros line.
      apply appending_bind; [apply appending_print|]. intros _.
      apply appending_bind; [apply appending_lift|]. intros min_size.
      apply appending_bind.
      { apply appending_for_each. intros x Hx. rewrite Forall_forall in IH.
        apply IH. eapply In_shown; exact Hx. }
      intros _. destruct (deferred min_size content).
      { apply appending_ret. }
      apply appending_bind; [apply appending_lift|]. intros ln.
      apply appending_print.
Qed.

(** X17: the text renderer only appends to its file: what the file held
    stays at its head, and the text added and the way the call ends (also
    when it raises part-way) are those of a call on an empty file. *)
Theorem print_tree_appends (path : node) (threshold : num) (level : nat)
    (file : string) :
  print_tree path threshold level file =
    (fst (print_tree path threshold level ""),
     file ++ snd (print_tree path threshold level "")).
Proof. apply print_tree_appending. Qed.

(** ** Which children are rendered *)

Lemma py_ge_Int_mono (s1 s2 : Z) (min_size : num) :
  s2 <= s1 ->
  py_ge (Int s2) min_size = true -> py_ge (Int s1) min_size = true.
Proof.
  intros Hle. unfold py_ge. cbn [xval_of].
  destruct (xval_of min_size) as [| | |m e]; cbn [xcompare]; auto.
  set (e0 := Z.min 0 e).
  assert (Hp : 0 < 2 ^ (0 - e0)) by (apply pow2_pos; lia).
  destruct (s2 * 2 ^ (0 - e0) ?= m * 2 ^ (e - e0)) eqn:C2; try discriminate;
    intros _;
    destruct (s1 * 2 ^ (0 - e0) ?= m * 2 ^ (e - e0)) eqn:C1; try reflexivity;
    exfalso; cmp_lt C1;
    [apply Z.compare_eq in C2 | apply Z.compare_gt_iff in C2]; nia.
Qed.

Lemma filter_sorted_prefix {A : Type} (key : A -> Z) (f : A -> bool)
    (l : list A) :
  (forall a b, key b <= key a -> f b = true -> f a = true) ->
  StronglySorted (fun a b => key b <= key a) l ->
  exists k,
    filter f l = firstn k l /\ filter (fun x => negb (f x)) l = skipn k l.
Proof.
  intros Hmono Hs. induction Hs as [|a l Hs IH Ha].
  - exists 0%nat. split; reflexivity.
  - simpl. destruct (f a) eqn:Ef; simpl.
    + destruct IH as (k & E1 & E2). exists (S k). simpl.
      rewrite E1, E2. split; reflexivity.
    + exists 0%nat. simpl.
      assert (Hnone : Forall (fun x => f x = false) l).
      { eapply Forall_impl; [|exact Ha]. simpl. intros b Hb.
        destruct (f b) eqn:Eb; [|reflexivity].
        rewrite (Hmono a b Hb Eb) in Ef. discriminate Ef. }
      split.
      * apply filter_none. exact Hnone.
      * f_equal. apply filter_all. eapply Forall_impl; [|exact Hnone].
        simpl. intros b ->. reflexivity.
Qed.

(** X18: the children rendered one by one are the largest ones: with the
    children sorted by size, largest first, those rendered are the first
    [k] of them, for some [k], and the summary covers all the others. *)
Theorem shown_are_the_largest (min_size : num) (content : list node) :
  exists k,
    shown min_size content = firstn k (sorted_desc node_size content) /\
    deferred min_size content =
      map node_size (skipn k (sorted_desc node_size content)).
Proof.
  destruct (filter_sorted_prefix node_size
              (fun c => py_ge (Int (node_size c)) min_size)
              (sorted_desc node_size content)) as (k & E1 & E2).
  - intros a b Hle. apply py_ge_Int_mono. exact Hle.
  - apply sorted_desc_sorted.
  - exists k. unfold shown, deferred. rewrite E1, E2. split; reflexivity.
Qed.

(** ** Threshold 0 *)

Lemma py_ge_zero (s : Z) (sg : bool) :
  0 <= s -> py_ge (Int s) (Flt (S754_zero sg)) = true.
Proof.
  intros Hs. unfold py_ge. cbn [xval_of xcompare]. simpl.
  rewrite Z.mul_1_r. destruct (s ?= 0) eqn:C; try reflexivity.
  exfalso. cmp_lt C. lia.
Qed.

(** X19: with [threshold=0] nothing is summarised: for a directory with
    children, none of a negative size, the admission threshold is the float
    0.0, every child is rendered, and the list for the summary is empty. *)
Theorem threshold_zero_shows_all (size : Z) (content : list node) :
  content <> [] ->
  Forall (fun c => 0 <= node_size c) content ->
  min_size_of size (Int 0) (List.length content) = Ok (Flt (S754_zero false)) /\
  shown (Flt (S754_zero false)) content = sorted_desc node_size content /\
  deferred (Flt (S754_zero false)) content = [].
Proof.
  intros Hne Hpos.
  assert (Hall : Forall (fun c => py_ge (Int (node_size c))
                                    (Flt (S754_zero false)) = true)
                   (sorted_desc node_size content)).
  { rewrite Forall_forall in Hpos |- *. intros c Hc. apply py_ge_zero.
    apply Hpos. eapply Permutation_in; [apply sorted_desc_perm | exact Hc]. }
  split; [|split].
  - unfold min_size_of, py_mul. cbn [res_bind]. rewrite Z.mul_0_r.
    unfold py_truediv. pose proof (length_pos content Hne) as Hn.
    destruct (Z.eqb_spec (Z.of_nat (List.length content)) 0) as [E|_]; [lia|].
    cbn [Z.eqb is_inf].
    destruct (Z.ltb_spec (Z.of_nat (List.length content)) 0); [lia|].
    reflexivity.
  - unfold shown. apply filter_all. exact Hall.
  - unfold deferred. rewrite filter_none; [reflexivity|].
    eapply Forall_impl; [|exact Hall]. simpl. intros c ->. reflexivity.
Qed.

Lemma threshold_zero_shows_all_witness :
  min_size_of 1015 (Int 0)
    (List.length [File "a" 1000; File "b" 10; Directory "sub" 5 [File "c" 5]])
    = Ok (Flt (S754_zero false)) /\
  shown (Flt (S754_zero false))
    [File "a" 1000; File "b" 10; Directory "sub" 5 [File "c" 5]] =
    sorted_desc node_size
      [File "a" 1000; File "b" 10; Directory "sub" 5 [File "c" 5]] /\
  deferred (Flt (S754_zero false))
    [File "a" 1000; File "b" 10; Directory "sub" 5 [File "c" 5]] = [].
Proof.
  apply (threshold_zero_shows_all 1015
           [File "a" 1000; File "b" 10; Directory "sub" 5 [File "c" 5]]).
  - discriminate.
  - repeat constructor; simpl; lia.
Defined.

(** ** [html.escape] *)

Lemma html_escape_char (x : ascii) :
  html_escape (String x "") =
    if Ascii.eqb x "&" then "&amp;"
    else if Ascii.eqb x "<" then "&lt;"
    else if Ascii.eqb x ">" then "&gt;"
    else if Ascii.eqb x (ascii_of_nat 34) then "&quot;"
    else if Ascii.eqb x "'" then "&#x27;"
    else String x "".
Proof.
  destruct x as [[|] [|] [|] [|] [|] [|] [|] [|]]; reflexivity.
Qed.

Lemma html_escape_char_inj (x y : ascii) (a b : string) :
  html_escape (String x "") ++ a = html_escape (String y "") ++ b ->
  x = y /\ a = b.
Proof.
  rewrite !html_escape_char.
  destruct (Ascii.eqb_spec x "&") as [->|Nx1];
    [|destruct (Ascii.eqb_spec x "<") as [->|Nx2];
      [|destruct (Ascii.eqb_spec x ">") as [->|Nx3];
        [|destruct (Ascii.eqb_spec x (ascii_of_nat 34)) as [->|Nx4];
          [|destruct (Ascii.eqb_spec x "'") as [->|Nx5]]]]];
  (destruct (Ascii.eqb_spec y "&") as [->|Ny1];
    [|destruct (Ascii.eqb_spec y "<") as [->|Ny2];
      [|destruct (Ascii.eqb_spec y ">") as [->|Ny3];
        [|destruct (Ascii.eqb_spec y (ascii_of_nat 34)) as [->|Ny4];
          [|destruct (Ascii.eqb_spec y "'") as [->|Ny5]]]]]);
  simpl; intros H; try discriminate H;
  try (injection H as H; subst; split; reflexivity);
  try (injection H as H0 H; subst; congruence).
Qed.

(** X20: [html.escape] loses nothing: two names that differ are written
    differently, so the name of every file and folder can be read back from
    the document. *)
Theorem html_escape_injective (a b : string) :
  html_escape a = html_escape b -> a = b.
Proof.
  revert b. induction a as [|x a IH]; intros [|y b] H.
  - reflexivity.
  - exfalso. rewrite html_escape_cons, html_escape_char in H.
    destruct (Ascii.eqb y "&"), (Ascii.eqb y "<"), (Ascii.eqb y ">"),
      (Ascii.eqb y (ascii_of_nat 34)), (Ascii.eqb y "'"); discriminate H.
  - exfalso. rewrite html_escape_cons, html_escape_char in H.
    destruct (Ascii.eqb x "&"), (Ascii.eqb x "<"), (Ascii.eqb x ">"),
      (Ascii.eqb x (ascii_of_nat 34)), (Ascii.eqb x "'"); discriminate H.
  - rewrite (html_escape_cons x a), (html_escape_cons y b) in H.
    apply html_escape_char_inj in H. destruct H as [-> H].
    f_equal. apply IH. exact H.
Qed.

Lemma html_escape_injective_witness : "a<b" = "a<b".
Proof. apply (html_escape_injective "a<b" "a<b"). reflexivity. Defined.

(** ** The script *)

Lemma print_html_tree_empty_folder (name : string) (g : rstate) :
  print_html_tree (Directory name 0 []) default_threshold 0 g =
    (Ok tt,
     mk_rstate (S (default_counter g))
       (file g
          ++ html_template
               (getvalue [FolderOpen "";
                          FolderLabel "" (default_counter g) (html_escape name) "0B";
                          EmptyDiv ""; FolderClose ""])
          ++ nl)).
Proof. reflexivity. Qed.

(** X21: the script on a machine where [C:/] cannot be stat'ed (no such
    path, say).  The error is logged, not raised, and the script still
    writes a report: the document whose only block is the root folder, of
    size [0B] and marked empty, with the toggle numbered 0. *)
Theorem script_without_root (fs : string -> entry) (ex : string) :
  e_lstat (fs "C:/") = FsErr ex ->
  script fs (FsOk tt) =
    (Ok tt,
     mk_globals 1 0 [ex] [],
     mk_rstate 1
       (html_template (getvalue (empty_folder (e_name (fs "C:/")) "0B")) ++ nl)).
Proof.
  intros H. unfold script, Directory_init. cbn [Directory_default].
  rewrite (Directory_scan_lstat_error (fs "C:/") ex _ H).
  rewrite print_html_tree_empty_folder. reflexivity.
Qed.

Lemma script_without_root_witness :
  script fs_missing (FsOk tt) =
    (Ok tt,
     mk_globals 1 0 ["ENOENT"] [],
     mk_rstate 1
       (html_template (getvalue (empty_folder (e_name (fs_missing "C:/")) "0B"))
          ++ nl)).
Proof. apply (script_without_root fs_missing "ENOENT"). reflexivity. Defined.
